(** * CCXT Playground: a shallow embedding of [main.py]

    The development follows the layout of the program: Python values and
    the string helpers the program relies on, the wrapped exchange client
    as an external collaborator, the console/terminal/disk world the tool
    runs in, the methods of [CCXTEndpointTester] in source order, [main]
    and [cli], and finally the properties of the specification. *)

From Stdlib Require Import ZArith QArith Qround String Ascii List Lia Bool.
From stdpp Require Import base option list gmap strings pretty.

Open Scope string_scope.
Open Scope list_scope.
Open Scope Z_scope.

(* ===================================================================== *)
(** ** Python values *)
(* ===================================================================== *)

(** JSON-like Python values.  A [dict] nested in a value keeps its
    insertion order, so it is an association list. *)
#[warnings="-register-all"]
Inductive pyval : Type :=
| PNone
| PBool (b : bool)
| PInt (z : Z)
| PFloat (q : Q)
| PStr (s : string)
| PList (l : list pyval)
| PDict (d : list (string * pyval)).

(** [value is True] *)
Definition is_True (v : pyval) : bool :=
  match v with PBool true => true | _ => false end.

(** [value == "emulated"], and string equality with a value in general. *)
Definition eq_str (v : pyval) (s : string) : bool :=
  match v with PStr t => String.eqb t s | _ => false end.

(** [d[k] = v] on an insertion-ordered dict. *)
Fixpoint dict_set (k : string) (v : pyval) (d : list (string * pyval)) :
  list (string * pyval) :=
  match d with
  | [] => [(k, v)]
  | (k', v') :: r =>
      if String.eqb k' k then (k, v) :: r else (k', v') :: dict_set k v r
  end.

Fixpoint dict_get (k : string) (d : list (string * pyval)) : option pyval :=
  match d with
  | [] => None
  | (k', v) :: r => if String.eqb k' k then Some v else dict_get k r
  end.

(* ===================================================================== *)
(** ** String helpers ([str] methods and builtins used by the program) *)
(* ===================================================================== *)

Definition lower_ascii (c : ascii) : ascii :=
  let n := nat_of_ascii c in
  if ((65 <=? n) && (n <=? 90))%nat then ascii_of_nat (n + 32) else c.

(** [s.lower()] on ASCII text *)
Fixpoint lower (s : string) : string :=
  match s with
  | EmptyString => EmptyString
  | String c r => String (lower_ascii c) (lower r)
  end.

Definition is_space (c : ascii) : bool :=
  let n := nat_of_ascii c in
  ((n =? 32) || ((9 <=? n) && (n <=? 13)))%nat.

Fixpoint lstrip (s : string) : string :=
  match s with
  | String c r => if is_space c then lstrip r else s
  | EmptyString => EmptyString
  end.

Fixpoint rstrip (s : string) : string :=
  match s with
  | EmptyString => EmptyString
  | String c r =>
      match rstrip r with
      | EmptyString => if is_space c then EmptyString else String c EmptyString
      | r' => String c r'
      end
  end.

(** [s.strip()] *)
Definition strip (s : string) : string := rstrip (lstrip s).

(** [s.startswith(p)] *)
Definition startswith (p s : string) : bool := String.prefix p s.

(** [p in s] for strings *)
Definition contains (p s : string) : bool :=
  match String.index 0 p s with Some _ => true | None => false end.

(** [s.replace(a, b)] for single characters *)
Fixpoint replace_char (a b : ascii) (s : string) : string :=
  match s with
  | EmptyString => EmptyString
  | String c r =>
      String (if Ascii.eqb c a then b else c) (replace_char a b r)
  end.

(** [sep.join(l)] *)
Definition join (sep : string) (l : list string) : string :=
  String.concat sep l.

Definition is_digit (c : ascii) : bool :=
  let n := nat_of_ascii c in ((48 <=? n) && (n <=? 57))%nat.

Definition digit_val (c : ascii) : Z := Z.of_nat (nat_of_ascii c) - 48.

(** [s.isdigit()] on ASCII text: non-empty and all digits. *)
Fixpoint all_digits (s : string) : bool :=
  match s with
  | EmptyString => true
  | String c r => is_digit c && all_digits r
  end.

Definition isdigit (s : string) : bool :=
  match s with EmptyString => false | _ => all_digits s end.

(** The literal grammar of [int(str)]: decimal digits, a single underscore
    allowed between two digits.  [prev] remembers what was read last. *)
Inductive int_scan := AtStart | AfterDigit | AfterUnderscore.

Fixpoint scan_int (acc : Z) (prev : int_scan) (s : string) : option Z :=
  match s with
  | EmptyString =>
      match prev with AfterDigit => Some acc | _ => None end
  | String c r =>
      if is_digit c then scan_int (10 * acc + digit_val c) AfterDigit r
      else if Ascii.eqb c "_" then
        match prev with
        | AfterDigit => scan_int acc AfterUnderscore r
        | _ => None
        end
      else None
  end.

(** [int(s)] for a string [s] of ASCII text: surrounding whitespace is
    dropped, an optional sign is read, the rest must be a decimal literal.
    [None] stands for [ValueError]. *)
Definition py_int (s : string) : option Z :=
  match strip s with
  | String "-" r => Z.opp <$> scan_int 0 AtStart r
  | String "+" r => scan_int 0 AtStart r
  | t => scan_int 0 AtStart t
  end.

(** Insertion into a sorted list, and [sorted(l)] for strings. *)
Fixpoint insert_sorted (x : string) (l : list string) : list string :=
  match l with
  | [] => [x]
  | y :: r => if String.leb x y then x :: l else y :: insert_sorted x r
  end.

Definition sorted (l : list string) : list string :=
  foldr insert_sorted [] l.

(** Rounding to the nearest integer, ties to even: the rounding of
    [round(x, 1)] and of the [:.1f] format, applied to ten times the
    value. *)
Definition round_half_even (q : Q) : Z :=
  let f := Qfloor q in
  match Qcompare (q - inject_Z f) (1 # 2) with
  | Lt => f
  | Gt => f + 1
  | Eq => if Z.even f then f else f + 1
  end.

(** Tenths of [x], rounded: [round(x, 1)] is [tenths x / 10]. *)
Definition tenths (x : Q) : Z := round_half_even (x * 10).

(** [f"{x:.1f}"] for a non-negative [x]. *)
Definition fmt1 (x : Q) : string :=
  let t := tenths x in pretty (t / 10) +:+ "." +:+ pretty (t mod 10).

(* ===================================================================== *)
(** ** Exceptions *)
(* ===================================================================== *)

(** [KeyboardInterrupt] and [SystemExit] derive from [BaseException]
    only; [EOFError] and everything else the program meets derive from
    [Exception]. *)
Inductive exn :=
| KeyboardInterrupt
| SystemExit (code : Z)
| EOFError
| Exception (cls msg : string).

(** [isinstance(e, Exception)] *)
Definition is_Exception (e : exn) : bool :=
  match e with KeyboardInterrupt | SystemExit _ => false | _ => true end.

(** [str(e)] *)
Definition str_exn (e : exn) : string :=
  match e with
  | KeyboardInterrupt => ""
  | SystemExit code => pretty code
  | EOFError => "EOF when reading a line"
  | Exception _ msg => msg
  end.

(* ===================================================================== *)
(** ** The wrapped exchange client (external collaborator) *)
(* ===================================================================== *)

(** A client object as the program sees it through [getattr], [hasattr],
    [dir] and [inspect.signature]: the capability map [has] (absent when
    the attribute is missing), the other data attributes by name
    ([apiKey], [secret], [version], [rateLimit], [sandbox], [markets]), and
    the callable attributes with their declared parameter names. *)
Record method_info := mkMethod {
  params_of : list string;       (* [inspect.signature(m).parameters] *)
  doc_of : option string         (* [m.__doc__] *)
}.

Record exchange_obj := mkObj {
  has : option (gmap string pyval);
  attrs : gmap string pyval;
  methods : list (string * method_info)   (* in the order of [dir] *)
}.

(** Outcome of calling into the client: a value, an exception raised by
    the method (a subclass of [Exception]), or the operator's interrupt
    arriving while the call is running. *)
Inductive call_outcome :=
| Returns (v : pyval)
| Fails (cls msg : string)
| Interrupted.

(** What the program uses from outside this repository: the [ccxt]
    registry and exchange classes, method calls on a client (the [n]-th
    call of the session, on the object as it is then; the call may change
    the object), the wall clock ([time.time()] as an exact rational number
    of seconds since the epoch) with [datetime]'s two renderings of it, and
    the text renderings [str], [json.dumps] (by its [ensure_ascii] flag;
    with [default=str] it renders every value of the model) and
    [traceback.format_exc]. *)
Record external := mkExt {
  ccxt_exchanges : list string;
  ccxt_getattr : string -> option (list (string * pyval) -> exchange_obj + exn);
  call_method : nat -> exchange_obj -> string -> list pyval ->
                list (string * pyval) -> call_outcome * exchange_obj;
  time_time : nat -> Q;
  strftime : Q -> string;
  isoformat : Q -> string;
  py_str : pyval -> string;
  json_dumps : bool -> pyval -> string;
  format_exc : exn -> string
}.

(* ===================================================================== *)
(** ** The world: tester object, heap, terminal, console, disk *)
(* ===================================================================== *)

Definition loc := nat.

(** [class CCXTEndpointTester]: the four fields of [__init__]. *)
Record CCXTEndpointTester := mkTester {
  exchange : option string;
  exchange_instance : option loc;
  _api_key : option string;
  _secret : option string
}.

(** [CCXTEndpointTester()] *)
Definition new_tester : CCXTEndpointTester :=
  {| exchange := None; exchange_instance := None;
     _api_key := None; _secret := None |}.

(** What the operator does at the terminal, one item per prompt or key
    read: a typed reply, the interrupt key, or end-of-file. *)
Inductive input := Reply (s : string) | CtrlC | CtrlD.

(** What [console.print] receives. *)
Inductive out :=
| Line (s : string)
| TableOut (title : string) (rows : list (list string))
| PanelOut (title body : string)
| SyntaxOut (code : string).

Record world := mkWorld {
  self : CCXTEndpointTester;
  heap : gmap loc exchange_obj;
  stdin : list input;
  console : list out;            (* in print order *)
  files : list (string * pyval); (* files written, in order *)
  disk_error : option string;    (* the OSError of [makedirs]/[open], if any *)
  clock_reads : nat;
  calls : nat
}.

Definition set_self (t : CCXTEndpointTester) (w : world) : world :=
  {| self := t; heap := heap w; stdin := stdin w; console := console w;
     files := files w; disk_error := disk_error w; clock_reads := clock_reads w;
     calls := calls w |}.

Definition set_heap (h : gmap loc exchange_obj) (w : world) : world :=
  {| self := self w; heap := h; stdin := stdin w; console := console w;
     files := files w; disk_error := disk_error w; clock_reads := clock_reads w;
     calls := calls w |}.

Definition set_stdin (i : list input) (w : world) : world :=
  {| self := self w; heap := heap w; stdin := i; console := console w;
     files := files w; disk_error := disk_error w; clock_reads := clock_reads w;
     calls := calls w |}.

Definition set_console (c : list out) (w : world) : world :=
  {| self := self w; heap := heap w; stdin := stdin w; console := c;
     files := files w; disk_error := disk_error w; clock_reads := clock_reads w;
     calls := calls w |}.

Definition set_files (f : list (string * pyval)) (w : world) : world :=
  {| self := self w; heap := heap w; stdin := stdin w; console := console w;
     files := f; disk_error := disk_error w; clock_reads := clock_reads w;
     calls := calls w |}.

Definition set_clock_reads (n : nat) (w : world) : world :=
  {| self := self w; heap := heap w; stdin := stdin w; console := console w;
     files := files w; disk_error := disk_error w; clock_reads := n;
     calls := calls w |}.

Definition set_calls (n : nat) (w : world) : world :=
  {| self := self w; heap := heap w; stdin := stdin w; console := console w;
     files := files w; disk_error := disk_error w; clock_reads := clock_reads w;
     calls := n |}.

(** The object a reference points to; a reference to nothing reads as an
    object without attributes. *)
Definition empty_obj : exchange_obj :=
  {| has := None; attrs := ∅; methods := [] |}.

Definition deref (w : world) (l : loc) : exchange_obj :=
  default empty_obj (heap w !! l).

(* ===================================================================== *)
(** ** The effect monad: state, exceptions, and waiting for input *)
(* ===================================================================== *)

(** A computation returns, raises, or is left waiting for the operator
    ([Waiting]: the input ran out, the process has not exited). *)
Inductive res (A : Type) :=
| Ok (a : A)
| Raise (e : exn)
| Waiting.
Arguments Ok {A} a.
Arguments Raise {A} e.
Arguments Waiting {A}.

Definition M (A : Type) : Type := world -> res A * world.

Definition ret {A} (a : A) : M A := fun w => (Ok a, w).

Definition bind {A B} (m : M A) (k : A -> M B) : M B :=
  fun w =>
    match m w with
    | (Ok a, w') => k a w'
    | (Raise e, w') => (Raise e, w')
    | (Waiting, w') => (Waiting, w')
    end.

Definition raise {A} (e : exn) : M A := fun w => (Raise e, w).

Notation "x <- m ;; k" := (bind m (fun x => k))
  (at level 100, m at next level, right associativity).
Notation "m ;;; k" := (bind m (fun _ => k))
  (at level 100, right associativity).

(** [try: m except <handles>: h e] *)
Definition try_except {A} (m : M A) (handles : exn -> bool) (h : exn -> M A)
  : M A :=
  fun w =>
    match m w with
    | (Raise e, w') => if handles e then h e w' else (Raise e, w')
    | r => r
    end.

(** [try: m except <handles1>: h1 e except <handles2>: h2 e]: the first
    clause that matches runs; what a handler raises is not handled here. *)
Definition try_except2 {A} (m : M A)
  (handles1 : exn -> bool) (h1 : exn -> M A)
  (handles2 : exn -> bool) (h2 : exn -> M A) : M A :=
  fun w =>
    match m w with
    | (Raise e, w') =>
        if handles1 e then h1 e w'
        else if handles2 e then h2 e w'
        else (Raise e, w')
    | r => r
    end.

(** [try: m finally: f].  The [finally] block runs when [m] returns or
    raises; an exception raised by [f] replaces the pending one. *)
Definition try_finally {A} (m : M A) (f : M unit) : M A :=
  fun w =>
    match m w with
    | (Waiting, w') => (Waiting, w')
    | (r, w') =>
        match f w' with
        | (Ok _, w'') => (r, w'')
        | (Raise e, w'') => (Raise e, w'')
        | (Waiting, w'') => (Waiting, w'')
        end
    end.

(** Reading a field of the world. *)
Definition gets {A} (f : world -> A) : M A := fun w => (Ok (f w), w).

(** Replacing the tester object ([tester = CCXTEndpointTester()]). *)
Definition put_self (t : CCXTEndpointTester) : M unit :=
  fun w => (Ok tt, set_self t w).

(** Reads of [self.exchange], [self.exchange_instance], [self._api_key]
    and [self._secret]. *)
Definition get_exchange : M (option string) := gets (fun w => exchange (self w)).
Definition get_instance : M (option loc) :=
  gets (fun w => exchange_instance (self w)).
Definition get_api_key : M (option string) := gets (fun w => _api_key (self w)).
Definition get_secret : M (option string) := gets (fun w => _secret (self w)).

(** The client object behind a reference, as it is now. *)
Definition get_object (l : loc) : M exchange_obj := gets (fun w => deref w l).

(** How much operator input is left (the bound of the menu loops). *)
Definition pending_input : M nat := gets (fun w => length (stdin w)).

(** [console.print(...)] *)
Definition print (o : out) : M unit :=
  fun w => (Ok tt, set_console (console w ++ [o]) w).
Definition println (s : string) : M unit := print (Line s).

(** Printing several items in order. *)
Definition print_all (os : list out) : M unit :=
  foldr (fun o rest => print o ;;; rest) (ret tt) os.

(** [for x in l: ...] collecting one result per element. *)
Fixpoint mapM {A B} (f : A -> M B) (l : list A) : M (list B) :=
  match l with
  | [] => ret []
  | x :: r => y <- f x ;; ys <- mapM f r ;; ret (y :: ys)
  end.

(** One read of the wall clock. *)
Definition read_clock (ext : external) : M Q :=
  fun w => (Ok (time_time ext (clock_reads w)),
            set_clock_reads (S (clock_reads w)) w).

(* ===================================================================== *)
(** ** Prompts ([rich.prompt]) and raw key reads *)
(* ===================================================================== *)

(** [Prompt.ask(..., default=d)]: the reply, stripped; the default on an
    empty reply; [KeyboardInterrupt] on the interrupt key, [EOFError] on
    end-of-file. *)
Definition Prompt_ask (d : string) : M string :=
  fun w =>
    match stdin w with
    | [] => (Waiting, w)
    | Reply s :: r =>
        (Ok (if String.eqb s "" then d else strip s), set_stdin r w)
    | CtrlC :: r => (Raise KeyboardInterrupt, set_stdin r w)
    | CtrlD :: r => (Raise EOFError, set_stdin r w)
    end.

(** Reading replies until one is accepted; each rejected reply is
    answered on the console by [complain]. *)
Fixpoint ask_until {A} (accept : string -> option A) (complain : string -> out)
  (inp : list input) (shown : list out) : res A * list input * list out :=
  match inp with
  | [] => (Waiting, [], shown)
  | CtrlC :: r => (Raise KeyboardInterrupt, r, shown)
  | CtrlD :: r => (Raise EOFError, r, shown)
  | Reply s :: r =>
      match accept s with
      | Some a => (Ok a, r, shown)
      | None => ask_until accept complain r (shown ++ [complain s])
      end
  end.

Definition ask_loop {A} (accept : string -> option A) (complain : string -> out)
  : M A :=
  fun w =>
    let '(r, inp, shown) := ask_until accept complain (stdin w) (console w) in
    (r, set_console shown (set_stdin inp w)).

(** [Prompt.ask(..., choices=cs, default=d)]: asks again until the reply
    is one of the choices. *)
Definition Prompt_ask_choices (cs : list string) (d : string) : M string :=
  ask_loop
    (fun s => if String.eqb s "" then Some d
              else if bool_decide (strip s ∈ cs) then Some (strip s) else None)
    (fun _ => Line "[prompt.invalid.choice]Please select one of the available options").

(** How [Confirm.ask] reads a reply: y or n in any letter case. *)
Definition confirm_reply (s : string) : option bool :=
  let v := lower (strip s) in
  if String.eqb v "y" then Some true
  else if String.eqb v "n" then Some false else None.

(** [Confirm.ask(...)]: asks again until the reply is y or n. *)
Definition Confirm_ask : M bool :=
  ask_loop confirm_reply (fun _ => Line "[prompt.invalid]Please enter Y or N").

(** [sys.stdin.read(1).lower()] with the terminal in raw mode: the
    interrupt and end-of-file keys arrive as ordinary characters. *)
Definition read_key : M string :=
  fun w =>
    match stdin w with
    | [] => (Waiting, w)
    | Reply s :: r => (Ok (lower (String.substring 0 1 s)), set_stdin r w)
    | CtrlC :: r => (Ok (String (ascii_of_nat 3) ""), set_stdin r w)
    | CtrlD :: r => (Ok (String (ascii_of_nat 4) ""), set_stdin r w)
    end.

(* ===================================================================== *)
(** ** Small helpers for the tester object *)
(* ===================================================================== *)

Definition with_exchange (x : option string) (t : CCXTEndpointTester) :=
  {| exchange := x; exchange_instance := exchange_instance t;
     _api_key := _api_key t; _secret := _secret t |}.

Definition with_exchange_instance (x : option loc) (t : CCXTEndpointTester) :=
  {| exchange := exchange t; exchange_instance := x;
     _api_key := _api_key t; _secret := _secret t |}.

Definition with_api_key (x : option string) (t : CCXTEndpointTester) :=
  {| exchange := exchange t; exchange_instance := exchange_instance t;
     _api_key := x; _secret := _secret t |}.

Definition with_secret (x : option string) (t : CCXTEndpointTester) :=
  {| exchange := exchange t; exchange_instance := exchange_instance t;
     _api_key := _api_key t; _secret := x |}.

(** Assignments to [self.exchange], [self.exchange_instance],
    [self._api_key] and [self._secret]. *)
Definition set_exchange (x : option string) : M unit :=
  fun w => (Ok tt, set_self (with_exchange x (self w)) w).
Definition set_instance (x : option loc) : M unit :=
  fun w => (Ok tt, set_self (with_exchange_instance x (self w)) w).
Definition set_api_key (x : option string) : M unit :=
  fun w => (Ok tt, set_self (with_api_key x (self w)) w).
Definition set_secret (x : option string) : M unit :=
  fun w => (Ok tt, set_self (with_secret x (self w)) w).

(** Truth value of a string ([if api_key:]) and of an optional string
    ([if self._api_key:]). *)
Definition nonempty (s : string) : bool := negb (String.eqb s "").

Definition truthy_opt (o : option string) : bool :=
  match o with Some s => nonempty s | None => false end.

(** Truth value of a Python value. *)
Definition truthy (v : pyval) : bool :=
  match v with
  | PNone => false
  | PBool b => b
  | PInt z => negb (z =? 0)
  | PFloat q => negb (Qeq_bool q 0)
  | PStr s => nonempty s
  | PList l => match l with [] => false | _ => true end
  | PDict d => match d with [] => false | _ => true end
  end.

(** [f"{self.exchange}"] *)
Definition str_opt (o : option string) : string := default "None" o.

(** [getattr(obj, name, "Unknown")] on the data attributes. *)
Definition getattr_or_unknown (o : exchange_obj) (name : string) : pyval :=
  default (PStr "Unknown") (attrs o !! name).

(** ["=" * 60] *)
Definition rule60 : string :=
  "============================================================".

Definition nat_str (n : nat) : string := pretty n.

Definition sum_lengths (d : list (string * list string)) : nat :=
  sum_list (map (fun p => length (snd p)) d).

(** A [Dict[str, List[str]]] as the value written to JSON. *)
Definition dict_of_lists (d : list (string * list string)) : pyval :=
  PDict (map (fun p => (fst p, PList (map PStr (snd p)))) d).

(** A method call on the client object behind reference [l]. *)
Definition invoke (ext : external) (l : loc) (name : string)
  (args : list pyval) (kwargs : list (string * pyval)) : M pyval :=
  fun w =>
    let '(o, obj') := call_method ext (calls w) (deref w l) name args kwargs in
    let w' := set_calls (S (calls w)) (set_heap (<[l := obj']> (heap w)) w) in
    match o with
    | Returns v => (Ok v, w')
    | Fails cls msg => (Raise (Exception cls msg), w')
    | Interrupted => (Raise KeyboardInterrupt, w')
    end.

(** [os.makedirs("responses", exist_ok=True)] *)
Definition makedirs : M unit :=
  fun w =>
    match disk_error w with
    | None => (Ok tt, w)
    | Some msg => (Raise (Exception "OSError" msg), w)
    end.

(** [open(filepath, "w")] and [json.dump(doc, f, ...)] *)
Definition write_json (filepath : string) (doc : pyval) : M unit :=
  fun w =>
    match disk_error w with
    | None => (Ok tt, set_files (files w ++ [(filepath, doc)]) w)
    | Some msg => (Raise (Exception "OSError" msg), w)
    end.

(** The newline character. *)
Definition nl : string := String (ascii_of_nat 10) "".

(** The file size report that follows a successful write. *)
Definition file_size_line (ext : external) (doc : pyval) : out :=
  let file_size := Z.of_nat (String.length (json_dumps ext false doc)) in
  if 1024 * 1024 <? file_size then
    Line ("[yellow]⚠️  File size: "
            +:+ fmt1 (inject_Z file_size / inject_Z (1024 * 1024))
            +:+ " MB[/yellow]")
  else
    Line ("[dim]File size: " +:+ fmt1 (inject_Z file_size / 1024) +:+ " KB[/dim]").

(* ===================================================================== *)
(** ** [class CCXTEndpointTester] *)
(* ===================================================================== *)

(** The five display categories of [check_supported_endpoints] with the
    method names checked in each. *)
Definition categories : list (string * list string) :=
  [ ("Market Data",
      ["fetchMarkets"; "fetchCurrencies"; "fetchTicker"; "fetchTickers";
       "fetchOrderBook"; "fetchOHLCV"; "fetchTrades"; "fetchStatus"]);
    ("Trading",
      ["createOrder"; "cancelOrder"; "cancelAllOrders"; "editOrder";
       "fetchOrder"; "fetchOrders"; "fetchOpenOrders"; "fetchClosedOrders"]);
    ("Account",
      ["fetchBalance"; "fetchMyTrades"; "fetchLedger"; "fetchTransactions";
       "fetchDeposits"; "fetchWithdrawals"; "fetchDepositAddress"]);
    ("Advanced",
      ["fetchPositions"; "fetchFundingRate"; "fetchFundingHistory";
       "fetchBorrowRate"; "fetchTradingFee"; "fetchTradingFees"]);
    ("WebSocket",
      ["ws"; "watchTicker"; "watchTickers"; "watchOrderBook"; "watchTrades";
       "watchOHLCV"; "watchBalance"; "watchOrders"]) ].

(** Every checked method name. *)
Definition checked_set : list string := concat (map snd categories).

(** The three dictionaries [supported], [emulated], [not_supported], each
    from category to the method names placed there. *)
Record buckets := mkBuckets {
  supported : list (string * list string);
  emulated : list (string * list string);
  not_supported : list (string * list string)
}.

(** The body of the inner loop: one endpoint goes to the end of one of the
    three lists of its category. *)
Definition place (has_dict : gmap string pyval)
  (acc : list string * list string * list string) (endpoint : string)
  : list string * list string * list string :=
  let '(sup, emu, nsup) := acc in
  match has_dict !! endpoint with
  | Some value =>
      if is_True value then (sup ++ [endpoint], emu, nsup)
      else if eq_str value "emulated" then (sup, emu ++ [endpoint], nsup)
      else (sup, emu, nsup ++ [endpoint])
  | None => (sup, emu, nsup ++ [endpoint])
  end.

(** The outer loop over the categories. *)
Definition bucketize (has_dict : gmap string pyval)
  (cats : list (string * list string)) : buckets :=
  fold_left
    (fun b '(category, endpoints) =>
       let '(sup, emu, nsup) :=
         fold_left (place has_dict) endpoints ([], [], []) in
       {| supported := supported b ++ [(category, sup)];
          emulated := emulated b ++ [(category, emu)];
          not_supported := not_supported b ++ [(category, nsup)] |})
    cats
    {| supported := []; emulated := []; not_supported := [] |}.

(** [d[category]] for a dictionary of lists. *)
Fixpoint lists_get (category : string) (d : list (string * list string))
  : list string :=
  match d with
  | [] => []
  | (c, l) :: r => if String.eqb c category then l else lists_get category r
  end.

(** The per-category status table of [check_supported_endpoints]. *)
Definition category_table (b : buckets) (category : string) : list out :=
  let sup := lists_get category (supported b) in
  let emu := lists_get category (emulated b) in
  let nsup := lists_get category (not_supported b) in
  match sup, emu, nsup with
  | [], [], [] => []
  | _, _, _ =>
      [ TableOut (category +:+ " Endpoints Support Status")
          (map (fun e => [e; "[green]✓ Supported[/green]";
                          "Native implementation"]) sup
           ++ map (fun e => [e; "[yellow]⚡ Emulated[/yellow]";
                             "Implemented via other methods"]) emu
           ++ map (fun e => [e; "[red]✗ Not Supported[/red]";
                             "Not available"]) nsup);
        Line "" ]
  end.

(** The totals computed from the three dictionaries. *)
Record totals := mkTotals {
  total_supported : nat;
  total_emulated : nat;
  total_not_supported : nat;
  total_checked : nat
}.

Definition summarize (b : buckets) : totals :=
  let ts := sum_lengths (supported b) in
  let te := sum_lengths (emulated b) in
  let tn := sum_lengths (not_supported b) in
  {| total_supported := ts; total_emulated := te; total_not_supported := tn;
     total_checked := (ts + te + tn)%nat |}.

(** [(count / total_checked) * 100] *)
Definition percentage (count total : nat) : Q :=
  (inject_Z (Z.of_nat count) / inject_Z (Z.of_nat total) * 100)%Q.

(** The rows of the summary table. *)
Definition summary_rows (t : totals) : list (list string) :=
  if (0 <? total_checked t)%nat then
    [ ["[green]Fully Supported[/green]"; nat_str (total_supported t);
       fmt1 (percentage (total_supported t) (total_checked t)) +:+ "%"];
      ["[yellow]Emulated[/yellow]"; nat_str (total_emulated t);
       fmt1 (percentage (total_emulated t) (total_checked t)) +:+ "%"];
      ["[red]Not Supported[/red]"; nat_str (total_not_supported t);
       fmt1 (percentage (total_not_supported t) (total_checked t)) +:+ "%"] ]
  else [].

(** [round((count / total_checked) * 100, 1) if total_checked > 0 else 0] *)
Definition rounded_percentage (count total : nat) : pyval :=
  if (0 <? total)%nat then
    PFloat (inject_Z (tenths (percentage count total)) / 10)%Q
  else PInt 0.

(** [getattr(obj, name)] for a callable attribute. *)
Fixpoint find_method (name : string) (ms : list (string * method_info))
  : option method_info :=
  match ms with
  | [] => None
  | (n, mi) :: r => if String.eqb n name then Some mi else find_method name r
  end.

(** The branch of [get_available_endpoints] a method name falls in. *)
Definition endpoint_category (method : string) : string :=
  if bool_decide (method ∈ ["fetch_ticker"; "fetch_tickers";
                            "fetch_order_book"; "fetch_ohlcv"])
  then "Market Data"
  else if startswith "fetch_" method && contains "order" method then "Trading"
  else if startswith "fetch_" method && contains "balance" method then "Account"
  else if startswith "fetch_" method then "Public"
  else "Other".

(** [doc.split("\n")[0]] *)
Fixpoint first_line (s : string) : string :=
  match s with
  | EmptyString => EmptyString
  | String c r =>
      if Ascii.eqb c (ascii_of_nat 10) then EmptyString
      else String c (first_line r)
  end.

(** The description column of [display_endpoints]. *)
Definition describe (mi : option method_info) : string :=
  let doc := default "No description available" (mi ≫= doc_of) in
  if (60 <? String.length doc)%nat
  then String.substring 0 60 (first_line doc) +:+ "..."
  else doc.

(** The glyphs of the endpoint selector. *)
Definition glyph_supported : string := "[green]✓[/green]".
Definition glyph_emulated : string := "[yellow]⚡[/yellow]".
Definition glyph_not_supported : string := "[red]✗[/red]".
Definition glyph_unknown : string := "[dim]?[/dim]".


(** The glyph chosen for an endpoint from the capability map. *)
Definition support_status (has_dict : gmap string pyval) (endpoint : string)
  : string :=
  match has_dict !! endpoint with
  | Some value =>
      if is_True value then glyph_supported
      else if eq_str value "emulated" then glyph_emulated
      else glyph_not_supported
  | None => glyph_unknown
  end.

Definition popular : list string :=
  ["indodax"; "coinbase"; "kraken"; "kucoin"; "okx"; "bybit"; "gate"; "mexc"].

(** The rows of the table of [select_exchange]: row [i] pairs the [i]-th
    entries, a column that ran out shows the empty string. *)
Definition two_columns (a b : list string) : list (list string) :=
  let max_rows := Nat.max (length a) (length b) in
  map (fun i => [nth i a ""; nth i b ""]) (seq 0 max_rows).

(** The [config] dictionary of [setup_exchange]. *)
Definition make_config (api_key secret : string) : list (string * pyval) :=
  let config := [("sandbox", PBool false); ("verbose", PBool false)] in
  let config :=
    if nonempty api_key then dict_set "apiKey" (PStr api_key) config
    else config in
  if nonempty secret then dict_set "secret" (PStr secret) config else config.

(** A reference not yet in the heap. *)
Definition fresh_loc (h : gmap loc exchange_obj) : loc := fresh (dom h).

(** [exchange_class(config)]: the new object gets a fresh reference. *)
Definition construct (exchange_class : list (string * pyval) -> exchange_obj + exn)
  (config : list (string * pyval)) : M loc :=
  fun w =>
    match exchange_class config with
    | inl obj =>
        let l := fresh_loc (heap w) in
        (Ok l, set_heap (<[l := obj]> (heap w)) w)
    | inr e => (Raise e, w)
    end.

(** The grouping built by [get_available_endpoints] for a client object. *)
Definition group_endpoints (o : exchange_obj) : list (string * list string) :=
  let methods :=
    List.filter (fun method => negb (startswith "_" method))
      (map fst (methods o)) in
  map (fun category =>
         (category,
          List.filter
            (fun method => String.eqb (endpoint_category method) category)
            methods))
    ["Public"; "Market Data"; "Trading"; "Account"; "Other"].

Section Tester.

Variable ext : external.

(** [_clear_credentials] *)
Definition _clear_credentials : M unit :=
  k <- get_api_key ;;
  (if truthy_opt k then set_api_key None else ret tt) ;;;
  s <- get_secret ;;
  if truthy_opt s then set_secret None else ret tt.

(** [get_available_exchanges] *)
Definition get_available_exchanges : list string :=
  sorted (ccxt_exchanges ext).

(** [select_exchange] *)
Definition select_exchange : M string :=
  let exchanges := get_available_exchanges in
  let popular_exchanges :=
    List.filter (fun ex => bool_decide (ex ∈ exchanges)) popular in
  let other_exchanges :=
    List.filter (fun ex => negb (bool_decide (ex ∈ popular))) exchanges in
  print (TableOut "Available Exchanges"
           (two_columns popular_exchanges other_exchanges)) ;;;
  ask_loop
    (fun s =>
       let exchange_name :=
         strip (lower (if String.eqb s "" then "indodax" else strip s)) in
       if bool_decide (exchange_name ∈ exchanges) then Some exchange_name
       else None)
    (fun s =>
       let exchange_name :=
         strip (lower (if String.eqb s "" then "indodax" else strip s)) in
       Line ("[red]Exchange '" +:+ exchange_name
               +:+ "' not found. Please try again.[/red]")).

(** [setup_exchange] *)
Definition setup_exchange (exchange_name api_key secret : string) : M unit :=
  try_except
    (set_api_key (Some api_key) ;;;
     set_secret (Some secret) ;;;
     exchange_class <-
       match ccxt_getattr ext exchange_name with
       | Some c => ret c
       | None =>
           raise (Exception "AttributeError"
                    ("module 'ccxt' has no attribute '" +:+ exchange_name
                       +:+ "'"))
       end ;;
     let config := make_config api_key secret in
     l <- construct exchange_class config ;;
     set_instance (Some l) ;;;
     set_exchange (Some exchange_name) ;;;
     o <- get_object l ;;
     match find_method "load_markets" (methods o) with
     | Some _ =>
         try_except
           (invoke ext l "load_markets" [] [] ;;;
            println ("[green]✓ Successfully connected to " +:+ exchange_name
                       +:+ "[/green]"))
           is_Exception
           (fun e =>
              println ("[yellow]⚠ Warning: Could not load markets: "
                         +:+ str_exn e +:+ "[/yellow]") ;;;
              println "[yellow]Some endpoints might not work without proper authentication[/yellow]")
     | None =>
         println ("[green]✓ Successfully initialized " +:+ exchange_name
                    +:+ "[/green]")
     end)
    is_Exception
    (fun e =>
       println ("[red]Error setting up exchange: " +:+ str_exn e +:+ "[/red]") ;;;
       raise e).

(** [get_available_endpoints]: the empty dictionary without a client. *)
Definition get_available_endpoints : M (list (string * list string)) :=
  inst <- get_instance ;;
  match inst with
  | None => ret []
  | Some l => o <- get_object l ;; ret (group_endpoints o)
  end.

(** [_save_endpoints_info_to_file] *)
Definition _save_endpoints_info_to_file
  (endpoints : list (string * list string)) : M unit :=
  try_except
    (makedirs ;;;
     t0 <- read_clock ext ;;
     exchange_ <- get_exchange ;;
     let filename :=
       "ccxt_endpoints_" +:+ str_opt exchange_ +:+ "_" +:+ strftime ext t0
         +:+ ".json" in
     let filepath := "responses/" +:+ filename in
     t1 <- read_clock ext ;;
     let data_to_save :=
       PDict
         [ ("metadata",
             PDict
               [ ("timestamp", PStr (isoformat ext t1));
                 ("exchange", from_option PStr PNone exchange_);
                 ("description", PStr "Available endpoints information");
                 ("total_endpoints",
                   PInt (Z.of_nat (sum_lengths endpoints))) ]);
           ("endpoints", dict_of_lists endpoints) ] in
     write_json filepath data_to_save ;;;
     println (nl +:+ "[green]✅ Endpoints info saved to: " +:+ filepath
                +:+ "[/green]") ;;;
     println ("[dim]File contains " +:+ nat_str (sum_lengths endpoints)
                +:+ " endpoint definitions[/dim]") ;;;
     print (file_size_line ext data_to_save))
    is_Exception
    (fun e =>
       println (nl +:+ "[red]❌ Error saving endpoints info to file: "
                  +:+ str_exn e +:+ "[/red]") ;;;
       println "[yellow]Endpoints info was not saved[/yellow]").

(** The table shown by [display_endpoints] for one category. *)
Definition endpoints_table (o : exchange_obj) (category : string)
  (methods_ : list string) : list out :=
  match methods_ with
  | [] => []
  | _ =>
      [ TableOut (category +:+ " Endpoints")
          (map (fun method =>
                  [method; describe (find_method method (methods o))])
             (sorted methods_));
        Line "" ]
  end.

(** [display_endpoints] *)
Definition display_endpoints : M unit :=
  endpoints <- get_available_endpoints ;;
  inst <- get_instance ;;
  o <- match inst with
       | Some l => get_object l
       | None => ret empty_obj
       end ;;
  print_all
    (concat (map (fun '(category, methods_) =>
                    endpoints_table o category methods_) endpoints)) ;;;
  match endpoints with
  | [] => ret tt
  | _ =>
      println rule60 ;;;
      println "[bold]💾 Save endpoints information to JSON file?[/bold]" ;;;
      yes <- Confirm_ask ;;
      if yes then _save_endpoints_info_to_file endpoints else ret tt
  end.

(** The document written by [_save_capability_info_to_file]. *)
Definition capability_document (timestamp : string)
  (exchange_ : option string) (o : exchange_obj)
  (has_dict : gmap string pyval) (b : buckets) : pyval :=
  let tot := summarize b in
  PDict
    [ ("metadata",
        PDict
          [ ("timestamp", PStr timestamp);
            ("exchange", from_option PStr PNone exchange_);
            ("description",
              PStr "Endpoint capability and support information");
            ("api_version", getattr_or_unknown o "version");
            ("rate_limit", getattr_or_unknown o "rateLimit");
            ("summary",
              PDict
                [ ("total_checked", PInt (Z.of_nat (total_checked tot)));
                  ("supported", PInt (Z.of_nat (total_supported tot)));
                  ("emulated", PInt (Z.of_nat (total_emulated tot)));
                  ("not_supported",
                    PInt (Z.of_nat (total_not_supported tot)));
                  ("support_percentage",
                    rounded_percentage (total_supported tot)
                      (total_checked tot));
                  ("emulated_percentage",
                    rounded_percentage (total_emulated tot)
                      (total_checked tot)) ]) ]);
      ("raw_has_dictionary", PDict (map_to_list has_dict));
      ("categorized_endpoints",
        PDict
          [ ("supported", dict_of_lists (supported b));
            ("emulated", dict_of_lists (emulated b));
            ("not_supported", dict_of_lists (not_supported b)) ]) ].

(** [_save_capability_info_to_file] *)
Definition _save_capability_info_to_file (has_dict : gmap string pyval)
  (b : buckets) : M unit :=
  try_except
    (makedirs ;;;
     t0 <- read_clock ext ;;
     exchange_ <- get_exchange ;;
     let filename :=
       "ccxt_capabilities_" +:+ str_opt exchange_ +:+ "_"
         +:+ strftime ext t0 +:+ ".json" in
     let filepath := "responses/" +:+ filename in
     let tot := summarize b in
     t1 <- read_clock ext ;;
     inst <- get_instance ;;
     o <- match inst with
          | Some l => get_object l
          | None => ret empty_obj
          end ;;
     let data_to_save :=
       capability_document (isoformat ext t1) exchange_ o has_dict b in
     write_json filepath data_to_save ;;;
     println (nl +:+ "[green]✅ Capability info saved to: " +:+ filepath
                +:+ "[/green]") ;;;
     println ("[dim]File contains support status for "
                +:+ nat_str (total_checked tot) +:+ " endpoints[/dim]") ;;;
     print (file_size_line ext data_to_save))
    is_Exception
    (fun e =>
       println (nl +:+ "[red]❌ Error saving capability info to file: "
                  +:+ str_exn e +:+ "[/red]") ;;;
       println "[yellow]Capability info was not saved[/yellow]").

(** The exchange information table of [check_supported_endpoints]. *)
Definition info_rows (exchange_ : option string) (o : exchange_obj)
  : list (list string) :=
  [ ["Exchange ID"; str_opt exchange_];
    ["API Version"; py_str ext (getattr_or_unknown o "version")];
    ["Rate Limit"; py_str ext (getattr_or_unknown o "rateLimit") +:+ " ms"] ]
  ++ match attrs o !! "sandbox" with
     | Some v =>
         [ ["Sandbox Mode";
            if truthy v then "✓ Available" else "✗ Not enabled"] ]
     | None => []
     end.

(** Everything [check_supported_endpoints] prints between the
    classification and the question about saving. *)
Definition capability_report (exchange_ : option string) (o : exchange_obj)
  (b : buckets) : list out :=
  concat (map (fun c => category_table b (fst c)) categories)
  ++ [ TableOut ("Support Summary for " +:+ str_opt exchange_)
         (summary_rows (summarize b));
       Line (nl +:+ "[bold]Exchange Information:[/bold]");
       TableOut "" (info_rows exchange_ o);
       Line (nl +:+ rule60);
       Line "[bold]💾 Save endpoint support information to JSON file?[/bold]" ].

(** [check_supported_endpoints] *)
Definition check_supported_endpoints : M unit :=
  inst <- get_instance ;;
  match inst with
  | None => println "[red]No exchange instance available[/red]"
  | Some l =>
      exchange_ <- get_exchange ;;
      println (nl +:+ "[bold cyan]Checking supported endpoints for "
                 +:+ str_opt exchange_ +:+ "[/bold cyan]") ;;;
      o <- get_object l ;;
      let has_dict := default ∅ (has o) in
      if bool_decide (has_dict = ∅) then
        println "[yellow]Exchange doesn't provide capability information[/yellow]"
      else
        let b := bucketize has_dict categories in
        print_all (capability_report exchange_ o b) ;;;
        yes <- Confirm_ask ;;
        if yes then _save_capability_info_to_file has_dict b else ret tt
  end.

(** [_get_endpoint_support_status] *)
Definition _get_endpoint_support_status (endpoint : string) : M string :=
  inst <- get_instance ;;
  match inst with
  | None => ret ""
  | Some l =>
      o <- get_object l ;;
      let has_dict := default ∅ (has o) in
      ret (support_status has_dict endpoint)
  end.

(** The rows of one page of [select_endpoint]: the page is split in a left
    and a right half, row [i] shows entry [i] of each. *)
Definition page_rows (start_idx : nat) (current_methods : list string)
  : M (list (list string)) :=
  let mid_point := ((length current_methods + 1) / 2)%nat in
  let left_methods := take mid_point current_methods in
  let right_methods := drop mid_point current_methods in
  mapM (fun i =>
          let left_idx := (start_idx + i + 1)%nat in
          let left_method := nth i left_methods "" in
          left_status <- _get_endpoint_support_status left_method ;;
          if (i <? length right_methods)%nat then
            let right_idx := (start_idx + mid_point + i + 1)%nat in
            let right_method := nth i right_methods "" in
            right_status <- _get_endpoint_support_status right_method ;;
            ret [nat_str left_idx; left_status; left_method;
                 nat_str right_idx; right_status; right_method]
          else ret [nat_str left_idx; left_status; left_method; ""; ""; ""])
    (seq 0 (length left_methods)).

(** What one round of the selector loop decides. *)
Inductive round := Return (r : option string) | Continue (page : nat).

(** The number typed after the Enter key or a digit key. *)
Definition pick_by_number (all_methods : list string) (current_page : nat)
  (full_choice : string) : M round :=
  if isdigit full_choice then
    let idx := default 0 (py_int full_choice) - 1 in
    if (0 <=? idx) && (idx <? Z.of_nat (length all_methods)) then
      ret (Return (Some (nth (Z.to_nat idx) all_methods "")))
    else
      println ("[red]Invalid endpoint number. Must be 1-"
                 +:+ nat_str (length all_methods) +:+ "[/red]") ;;;
      ret (Continue current_page)
  else
    println "[red]Invalid input. Please enter a number.[/red]" ;;;
    ret (Continue current_page).

(** One round of the [while True] of [select_endpoint]. *)
Definition select_round (all_methods : list string) (current_page : nat)
  : M round :=
  let page_size := 50%nat in
  let start_idx := (current_page * page_size)%nat in
  let end_idx := (start_idx + page_size)%nat in
  let current_methods := take page_size (drop start_idx all_methods) in
  rows <- page_rows start_idx current_methods ;;
  print (TableOut
           ("Available Endpoints with Support Status (Page "
              +:+ nat_str (current_page + 1) +:+ " of "
              +:+ nat_str ((length all_methods + page_size - 1) / page_size)
              +:+ ")")
           rows) ;;;
  println (nl +:+ "[bold]Legend:[/bold] [green]✓[/green] Supported | [yellow]⚡[/yellow] Emulated | [red]✗[/red] Not Supported | [dim]?[/dim] Unknown") ;;;
  (if (0 <? current_page)%nat
   then println (nl +:+ "[blue]Press 'p' for previous page[/blue]")
   else ret tt) ;;;
  (if (end_idx <? length all_methods)%nat
   then println "[blue]Press 'n' for next page[/blue]" else ret tt) ;;;
  println "[blue]Press 'enter' to input endpoint number[/blue]" ;;;
  println "[blue]Press 'q' to return to main menu[/blue]" ;;;
  println "[dim]Press any key to continue...[/dim]" ;;;
  try_except2
    (key <- read_key ;;
     if String.eqb key "q" then ret (Return None)
     else if String.eqb key "p" && (0 <? current_page)%nat then
       ret (Continue (current_page - 1))
     else if String.eqb key "n" && (end_idx <? length all_methods)%nat then
       ret (Continue (current_page + 1))
     else if String.eqb key (String (ascii_of_nat 13) "")
             || String.eqb key nl then
       println (nl +:+ "[blue]Enter endpoint number:[/blue]") ;;;
       full_choice <- Prompt_ask "" ;;
       pick_by_number all_methods current_page full_choice
     else if isdigit key then
       println (nl +:+ "[blue]Selected: " +:+ key +:+ "[/blue]") ;;;
       println "[dim]Enter full endpoint number and press Enter:[/dim]" ;;;
       full_choice <- Prompt_ask key ;;
       pick_by_number all_methods current_page full_choice
     else
       ret (Continue (if (end_idx <? length all_methods)%nat
                      then (current_page + 1)%nat else current_page)))
    (fun e => match e with
              | KeyboardInterrupt | EOFError => true
              | _ => false
              end)
    (fun _ => ret (Return None))
    is_Exception
    (fun e =>
       println ("[red]Navigation error: " +:+ str_exn e +:+ "[/red]") ;;;
       ret (Continue current_page)).

(** The selector loop; every round reads at least one key, so [fuel]
    rounds are enough when [fuel] exceeds the operator's remaining input. *)
Fixpoint select_loop (fuel : nat) (all_methods : list string)
  (current_page : nat) : M (option string) :=
  match fuel with
  | O => fun w => (Waiting, w)
  | S fuel' =>
      r <- select_round all_methods current_page ;;
      match r with
      | Return x => ret x
      | Continue page => select_loop fuel' all_methods page
      end
  end.

(** [select_endpoint] *)
Definition select_endpoint : M (option string) :=
  endpoints <- get_available_endpoints ;;
  let all_methods :=
    sorted (concat (map snd
                      (List.filter (fun p => match snd p with
                                             | [] => false
                                             | _ => true
                                             end) endpoints))) in
  n <- pending_input ;;
  select_loop (S n) all_methods 0.

(** [int(x)] for a float: truncation towards zero. *)
Definition int_of_float (x : Q) : Z := Z.quot (Qnum x) (Z.pos (Qden x)).

(** [int(time.time() * 1000)] for a clock reading [t]. *)
Definition epoch_ms (t : Q) : Z := int_of_float (t * 1000).

(** [try: value = int(value) except: pass] *)
Definition int_or_raw (value : string) : pyval :=
  match py_int value with
  | Some n => PInt n
  | None => PStr value
  end.

(** The literal coercion of the free-text parameters. *)
Definition coerce_literal (value : string) : pyval :=
  if String.eqb (lower value) "none" then PNone
  else if String.eqb (lower value) "true" then PBool true
  else if String.eqb (lower value) "false" then PBool false
  else PStr value.

(** [list(self.exchange_instance.markets.keys())[:10]]; the attribute may
    be missing or hold something without [keys()]. *)
Definition first_markets (o : exchange_obj) : M (list string) :=
  match attrs o !! "markets" with
  | Some (PDict d) => ret (take 10 (map fst d))
  | Some _ =>
      raise (Exception "AttributeError" "object has no attribute 'keys'")
  | None =>
      raise (Exception "AttributeError" "object has no attribute 'markets'")
  end.

(** The prompt for one parameter: the value that will be passed. *)
Definition ask_param (l : loc) (param : string) : M pyval :=
  if String.eqb param "symbol" then
    value <-
      try_except
        (o <- get_object l ;;
         markets <- first_markets o ;;
         println (nl +:+ "[blue]Available symbols (showing first 10):[/blue]") ;;;
         println (join ", " markets) ;;;
         Prompt_ask (match markets with m :: _ => m | [] => "BTC/IDR" end))
        (fun _ => true)
        (fun _ => Prompt_ask "BTC/IDR") ;;
    ret (PStr value)
  else if String.eqb param "limit" then
    value <- Prompt_ask "10" ;;
    ret (int_or_raw value)
  else if String.eqb param "since" then
    value <- Prompt_ask "now" ;;
    if String.eqb (lower value) "now" then
      t <- read_clock ext ;;
      ret (PInt (epoch_ms t))
    else ret (int_or_raw value)
  else
    value <- Prompt_ask "" ;;
    ret (coerce_literal value).

(** [param in ["symbol", "limit", "since"]] *)
Definition is_positional (param : string) : bool :=
  bool_decide (param ∈ ["symbol"; "limit"; "since"]).

(** The [for param in params] loop: the positional and keyword arguments
    collected so far are extended parameter by parameter. *)
Fixpoint collect_params (l : loc) (params : list string)
  (args : list pyval) (kwargs : list (string * pyval))
  : M (list pyval * list (string * pyval)) :=
  match params with
  | [] => ret (args, kwargs)
  | param :: rest =>
      value <- ask_param l param ;;
      if is_positional param
      then collect_params l rest (args ++ [value]) kwargs
      else collect_params l rest args (dict_set param value kwargs)
  end.

(** [params.remove("self")]: the first occurrence goes. *)
Fixpoint remove_first (x : string) (l : list string) : list string :=
  match l with
  | [] => []
  | y :: r => if String.eqb y x then r else y :: remove_first x r
  end.

(** [f"{endpoint}({', '.join(map(str, args))}, {kwargs})"] *)
Definition call_text (endpoint : string) (args : list pyval)
  (kwargs : list (string * pyval)) : string :=
  endpoint +:+ "(" +:+ join ", " (map (py_str ext) args) +:+ ", "
    +:+ py_str ext (PDict kwargs) +:+ ")".

(** The [request_info] dictionary of [test_endpoint]. *)
Definition make_request_info (exchange_ : option string) (endpoint : string)
  (args : list pyval) (kwargs : list (string * pyval))
  : list (string * pyval) :=
  [ ("Exchange", from_option PStr PNone exchange_);
    ("Endpoint", PStr endpoint);
    ("Arguments", PList args);
    ("Keyword Arguments", PDict kwargs);
    ("Method", PStr (call_text endpoint args kwargs)) ].

(** The document written by [_save_response_to_file]. *)
Definition response_document (timestamp : string) (exchange_ : option string)
  (endpoint : string) (response_data : pyval)
  (request_info : list (string * pyval)) : pyval :=
  PDict
    [ ("metadata",
        PDict
          [ ("timestamp", PStr timestamp);
            ("exchange", from_option PStr PNone exchange_);
            ("endpoint", PStr endpoint);
            ("request_info", PDict request_info) ]);
      ("response", response_data) ].

(** [_save_response_to_file] *)
Definition _save_response_to_file (endpoint : string) (response_data : pyval)
  (request_info : list (string * pyval)) : M unit :=
  try_except
    (makedirs ;;;
     t0 <- read_clock ext ;;
     exchange_ <- get_exchange ;;
     let safe_endpoint := replace_char "\" "_" (replace_char "/" "_" endpoint) in
     let filename :=
       "ccxt_response_" +:+ str_opt exchange_ +:+ "_" +:+ safe_endpoint
         +:+ "_" +:+ strftime ext t0 +:+ ".json" in
     let filepath := "responses/" +:+ filename in
     t1 <- read_clock ext ;;
     let data_to_save :=
       response_document (isoformat ext t1) exchange_ endpoint response_data
         request_info in
     write_json filepath data_to_save ;;;
     println (nl +:+ "[green]✅ Response saved to: " +:+ filepath
                +:+ "[/green]") ;;;
     println "[dim]File contains both request context and response data[/dim]" ;;;
     print (file_size_line ext data_to_save))
    is_Exception
    (fun e =>
       println (nl +:+ "[red]❌ Error saving response to file: " +:+ str_exn e
                  +:+ "[/red]") ;;;
       println "[yellow]Response data was not saved[/yellow]").

(** The response summary printed for mappings and sequences. *)
Definition response_summary (result : pyval) : list out :=
  match result with
  | PDict d =>
      Line (nl +:+ "[blue]Response contains " +:+ nat_str (length d)
              +:+ " keys[/blue]")
      :: (if (length d <=? 10)%nat
          then map (fun kv => Line ("  - " +:+ fst kv)) d
          else [Line ("  - " +:+ join ", " (take 10 (map fst d)) +:+ "...")])
  | PList items =>
      Line (nl +:+ "[blue]Response is a list with " +:+ nat_str (length items)
              +:+ " items[/blue]")
      :: match items with
         | PDict d :: _ =>
             [Line ("  - Sample keys: " +:+ join ", " (take 5 (map fst d)))]
         | _ => []
         end
  | _ => []
  end.

(** The [try] block of [test_endpoint] with its handler: the call, the
    display of request and response, the offer to save; on an exception,
    the message and the offer of the traceback. *)
Definition execute_endpoint (l : loc) (endpoint : string)
  (args : list pyval) (kwargs : list (string * pyval)) : M unit :=
  try_except
    (println (nl +:+ "[bold]Executing: " +:+ call_text endpoint args kwargs
                +:+ "[/bold]") ;;;
     result <- invoke ext l endpoint args kwargs ;;
     exchange_ <- get_exchange ;;
     let request_info := make_request_info exchange_ endpoint args kwargs in
     print (TableOut "Request Details"
              (map (fun kv => [fst kv; py_str ext (snd kv)]) request_info)) ;;;
     println (nl +:+ "[bold green]Response:[/bold green]") ;;;
     match result with
     | PNone => println "[yellow]No response data[/yellow]"
     | _ =>
         print (SyntaxOut (json_dumps ext true result)) ;;;
         print_all (response_summary result) ;;;
         println (nl +:+ rule60) ;;;
         yes <- Confirm_ask ;;
         if yes then _save_response_to_file endpoint result request_info
         else ret tt
     end)
    is_Exception
    (fun e =>
       println (nl +:+ "[red]Error executing " +:+ endpoint +:+ ":[/red]") ;;;
       println ("[red]" +:+ str_exn e +:+ "[/red]") ;;;
       yes <- Confirm_ask ;;
       if yes then println (format_exc ext e) else ret tt).

(** [test_endpoint] *)
Definition test_endpoint (endpoint : string) : M unit :=
  inst <- get_instance ;;
  match inst with
  | None => println "[red]No exchange instance available[/red]"
  | Some l =>
      o <- get_object l ;;
      method <-
        match find_method endpoint (methods o) with
        | Some mi => ret mi
        | None =>
            raise (Exception "AttributeError"
                     ("object has no attribute '" +:+ endpoint +:+ "'"))
        end ;;
      let params := remove_first "self" (params_of method) in
      println (nl +:+ "[bold cyan]Testing endpoint: " +:+ endpoint
                 +:+ "[/bold cyan]") ;;;
      println ("[dim]Parameters: "
                 +:+ py_str ext (PList (map PStr params)) +:+ "[/dim]") ;;;
      collected <- collect_params l params [] [] ;;
      let '(args, kwargs) := collected in
      execute_endpoint l endpoint args kwargs
  end.

(** The assignments of [cleanup] to the client object. *)
Definition clear_object_credentials (o : exchange_obj) : exchange_obj :=
  let a := attrs o in
  let a := match a !! "apiKey" with
           | Some _ => <["apiKey" := PNone]> a
           | None => a
           end in
  let a := match a !! "secret" with
           | Some _ => <["secret" := PNone]> a
           | None => a
           end in
  {| has := has o; attrs := a; methods := methods o |}.

(** [cleanup] *)
Definition cleanup : M unit :=
  _clear_credentials ;;;
  inst <- get_instance ;;
  match inst with
  | Some l =>
      fun w => (Ok tt, set_heap (alter clear_object_credentials l (heap w)) w)
  | None => ret tt
  end ;;;
  set_instance None ;;;
  set_exchange None.

(** The [while True] menu of [main].  Every round asks for the action
    first, so [fuel] rounds are enough when [fuel] exceeds the operator's
    remaining input. *)
Fixpoint main_loop (fuel : nat) : M unit :=
  match fuel with
  | O => fun w => (Waiting, w)
  | S fuel' =>
      println (nl +:+ rule60) ;;;
      println "[bold]Available Actions:[/bold]" ;;;
      println "1. View all available endpoints" ;;;
      println "2. Check supported endpoints only" ;;;
      println "3. Test a specific endpoint" ;;;
      println "4. Change exchange" ;;;
      println "5. Exit" ;;;
      choice <- Prompt_ask_choices ["1"; "2"; "3"; "4"; "5"] "3" ;;
      if String.eqb choice "1" then
        display_endpoints ;;; main_loop fuel'
      else if String.eqb choice "2" then
        check_supported_endpoints ;;; main_loop fuel'
      else if String.eqb choice "3" then
        endpoint <- select_endpoint ;;
        (if truthy_opt endpoint then test_endpoint (default "" endpoint)
         else println "[yellow]Returning to main menu.[/yellow]") ;;;
        main_loop fuel'
      else if String.eqb choice "4" then
        cleanup ;;;
        exchange_name <- select_exchange ;;
        api_key <- Prompt_ask "" ;;
        secret_key <- Prompt_ask "" ;;
        setup_exchange exchange_name api_key secret_key ;;;
        main_loop fuel'
      else if String.eqb choice "5" then
        println "[green]Goodbye![/green]"
      else main_loop fuel'
  end.

(** The [try] block of [main]. *)
Definition main_body : M unit :=
  println (nl +:+ "[bold]Step 1: Select Exchange[/bold]") ;;;
  exchange_name <- select_exchange ;;
  println (nl +:+ "[bold]Step 2: API Credentials for " +:+ exchange_name
             +:+ "[/bold]") ;;;
  println "[yellow]Note: Some endpoints work without authentication, others require API keys[/yellow]" ;;;
  println "[yellow]⚠️  Your credentials will only be stored in memory during this session[/yellow]" ;;;
  api_key <- Prompt_ask "" ;;
  secret_key <- Prompt_ask "" ;;
  println (nl +:+ "[bold]Step 3: Setting up " +:+ exchange_name +:+ "[/bold]") ;;;
  setup_exchange exchange_name api_key secret_key ;;;
  n <- pending_input ;;
  main_loop (S n).

(** [main] *)
Definition main : M unit :=
  print (PanelOut ""
           ("[bold cyan]CCXT Playground[/bold cyan]" +:+ nl
              +:+ "CLI tool to test CCXT exchange endpoints")) ;;;
  print (PanelOut "Security Notice"
           ("[bold red]⚠️  SECURITY WARNING[/bold red]" +:+ nl
              +:+ "• API keys and secrets are stored in memory only during this session" +:+ nl
              +:+ "• They are automatically cleared when you exit" +:+ nl
              +:+ "• Never use --api-key or --secret flags in scripts or shared environments" +:+ nl
              +:+ "• Consider using environment variables for automation")) ;;;
  put_self new_tester ;;;
  try_finally
    (try_except2 main_body
       (fun e => match e with KeyboardInterrupt => true | _ => false end)
       (fun _ => println (nl +:+ "[yellow]Operation cancelled by user[/yellow]"))
       is_Exception
       (fun e =>
          println (nl +:+ "[red]Unexpected error: " +:+ str_exn e +:+ "[/red]") ;;;
          yes <- Confirm_ask ;;
          if yes then println (format_exc ext e) else ret tt))
    cleanup.

(** [cli]: the options arrive as optional strings. *)
Definition cli (exchange_ api_key secret endpoint : option string) : M unit :=
  (if truthy_opt api_key || truthy_opt secret then
     print (PanelOut "Command Line Security Warning"
              ("[bold red]⚠️  SECURITY WARNING[/bold red]" +:+ nl
                 +:+ "• API keys passed via command line are visible in shell history" +:+ nl
                 +:+ "• Consider using environment variables instead:" +:+ nl
                 +:+ "  export CCXT_API_KEY='your_key'" +:+ nl
                 +:+ "  export CCXT_SECRET='your_secret'" +:+ nl
                 +:+ "• Or use interactive mode for better security")) ;;;
     yes <- Confirm_ask ;;
     if yes then ret tt
     else
       println "[yellow]Exiting for security. Use interactive mode instead.[/yellow]" ;;;
       raise (SystemExit 1)
   else ret tt) ;;;
  if truthy_opt exchange_ && truthy_opt endpoint then
    put_self new_tester ;;;
    try_finally
      (try_except
         (setup_exchange (default "" exchange_)
            (if truthy_opt api_key then default "" api_key else "")
            (if truthy_opt secret then default "" secret else "") ;;;
          test_endpoint (default "" endpoint))
         is_Exception
         (fun e => println ("[red]Error: " +:+ str_exn e +:+ "[/red]")))
      cleanup
  else main.

End Tester.

(* ===================================================================== *)
(** ** Vocabulary of the specification *)
(* ===================================================================== *)

(** The three outcomes of the capability classification. *)
Inductive status := Supported | Emulated | NotSupported.

Definition status_eqb (a b : status) : bool :=
  match a, b with
  | Supported, Supported | Emulated, Emulated
  | NotSupported, NotSupported => true
  | _, _ => false
  end.

(** The rule of section 4.2: absent, [True], ["emulated"], anything else. *)
Definition classify (has_dict : gmap string pyval) (endpoint : string)
  : status :=
  match has_dict !! endpoint with
  | None => NotSupported
  | Some value =>
      if is_True value then Supported
      else if eq_str value "emulated" then Emulated
      else NotSupported
  end.

(** The names of a list that the rule sends to a given outcome. *)
Definition pick (st : status) (has_dict : gmap string pyval)
  (endpoints : list string) : list string :=
  List.filter (fun e => status_eqb (classify has_dict e) st) endpoints.

(** The filtered dictionary of an outcome over all categories. *)
Definition picked (st : status) (has_dict : gmap string pyval)
  (cats : list (string * list string)) : list (string * list string) :=
  map (fun c => (fst c, pick st has_dict (snd c))) cats.

(** The dictionary of a given outcome. *)
Definition bucket (st : status) (b : buckets) : list (string * list string) :=
  match st with
  | Supported => supported b
  | Emulated => emulated b
  | NotSupported => not_supported b
  end.

(** A name sits in the bucket [st] of its category and in no other. *)
Definition bucketed_as (b : buckets) (category name : string) (st : status)
  : Prop :=
  forall st', name ∈ lists_get category (bucket st' b) <-> st' = st.

(** All names of a dictionary of lists. *)
Definition names_of (d : list (string * list string)) : list string :=
  concat (map snd d).

(** What a computation adds to the console. *)
Definition new_output {A} (m : M A) (w : world) : list out :=
  drop (length (console w)) (console (snd (m w))).

(** [check_supported_endpoints] reports the buckets [b]: after its heading
    line it prints the status tables, summary and exchange information
    computed from [b]. *)
Definition reports_buckets (ext : external) (w : world) (b : buckets) : Prop :=
  exists l heading rest,
    exchange_instance (self w) = Some l /\
    new_output (check_supported_endpoints ext) w =
      heading :: capability_report ext (exchange (self w)) (deref w l) b
        ++ rest.

(** The percentage shown for a count, in tenths of a percent. *)
Definition shown_tenths (count total : nat) : Z :=
  tenths (percentage count total).

(** [w'] is a later state of the same session: the tester object is the
    same, console and files have only grown, input has only been used up. *)
Definition advances (w w' : world) : Prop :=
  self w' = self w /\
  (exists shown, console w' = console w ++ shown) /\
  (exists written, files w' = files w ++ written) /\
  (exists used, stdin w = used ++ stdin w').

(** A computation that leaves the tester object alone. *)
Definition keeps {A} (m : M A) : Prop := forall w, advances w (snd (m w)).

(** The check that, for every split of [total] names over the three
    outcomes, the three shown percentages add up to 100.0 give or take
    one tenth. *)
Definition percent_sum_ok (total : nat) : bool :=
  forallb
    (fun s =>
       forallb
         (fun e =>
            let n := (total - s - e)%nat in
            Z.abs (shown_tenths s total + shown_tenths e total
                     + shown_tenths n total - 1000) <=? 1)
         (seq 0 (S total - s)))
    (seq 0 (S total)).

(** The prompts of the parameter loop, one after the other, with the
    value obtained for each parameter. *)
Definition ask_all (ext : external) (l : loc) (params : list string)
  : M (list (string * pyval)) :=
  mapM (fun param => value <- ask_param ext l param ;; ret (param, value))
    params.

(** The values of the positional parameters, in the order of the list. *)
Definition positional_of (values : list (string * pyval)) : list pyval :=
  map snd (List.filter (fun pv => is_positional (fst pv)) values).

(** The other parameters with their values, in the order of the list. *)
Definition keyword_of (values : list (string * pyval))
  : list (string * pyval) :=
  List.filter (fun pv => negb (is_positional (fst pv))) values.

(** The keyword dictionary after the assignments [kwargs[param] = value]. *)
Definition assign_all (values : list (string * pyval))
  (kwargs : list (string * pyval)) : list (string * pyval) :=
  fold_left (fun kw pv => dict_set (fst pv) (snd pv) kw) values kwargs.

(** The world once [test_endpoint] has announced the endpoint and its
    parameters, before the first prompt. *)
Definition announced (ext : external) (endpoint : string)
  (params : list string) (w : world) : world :=
  set_console
    (console w
       ++ [Line (nl +:+ "[bold cyan]Testing endpoint: " +:+ endpoint
                   +:+ "[/bold cyan]");
           Line ("[dim]Parameters: "
                   +:+ py_str ext (PList (map PStr params)) +:+ "[/dim]")])
    w.

(** A set-up that fails with the exception [e]: the registry has no such
    attribute, or the exchange class raises [e] on the configuration. *)
Definition setup_fails (ext : external) (exchange_name api_key secret : string)
  (e : exn) : Prop :=
  is_Exception e = true /\
  match ccxt_getattr ext exchange_name with
  | None =>
      e = Exception "AttributeError"
            ("module 'ccxt' has no attribute '" +:+ exchange_name +:+ "'")
  | Some exchange_class =>
      exchange_class (make_config api_key secret) = inr e
  end.

(** The name [select_exchange] makes of a reply. *)
Definition chosen_exchange (reply : string) : string :=
  strip (lower (if String.eqb reply "" then "indodax" else strip reply)).

(** The value a prompt with an empty default hands back for a reply. *)
Definition entered (reply : string) : string :=
  if String.eqb reply "" then "" else strip reply.

(** What [main] has printed when it calls [setup_exchange] for the first
    time, for the exchange [name]. *)
Definition preamble (ext : external) (name : string) : list out :=
  [ PanelOut ""
      ("[bold cyan]CCXT Playground[/bold cyan]" +:+ nl
         +:+ "CLI tool to test CCXT exchange endpoints");
    PanelOut "Security Notice"
      ("[bold red]⚠️  SECURITY WARNING[/bold red]" +:+ nl
         +:+ "• API keys and secrets are stored in memory only during this session" +:+ nl
         +:+ "• They are automatically cleared when you exit" +:+ nl
         +:+ "• Never use --api-key or --secret flags in scripts or shared environments" +:+ nl
         +:+ "• Consider using environment variables for automation");
    Line (nl +:+ "[bold]Step 1: Select Exchange[/bold]");
    TableOut "Available Exchanges"
      (two_columns
         (List.filter
            (fun ex => bool_decide (ex ∈ get_available_exchanges ext)) popular)
         (List.filter (fun ex => negb (bool_decide (ex ∈ popular)))
            (get_available_exchanges ext)));
    Line (nl +:+ "[bold]Step 2: API Credentials for " +:+ name +:+ "[/bold]");
    Line "[yellow]Note: Some endpoints work without authentication, others require API keys[/yellow]";
    Line "[yellow]⚠️  Your credentials will only be stored in memory during this session[/yellow]";
    Line (nl +:+ "[bold]Step 3: Setting up " +:+ name +:+ "[/bold]") ].

(** A run of [m] from [w] uses up input without adding any, and ends
    [Waiting] only with the input used up. *)
Definition honest_at {A} (m : M A) (w : world) : Prop :=
  (length (stdin (snd (m w))) <= length (stdin w))%nat /\
  (fst (m w) = Waiting -> stdin (snd (m w)) = []).

Definition honest {A} (m : M A) : Prop := forall w, honest_at m w.

(** The same for the runs that start with at most [n] inputs pending. *)
Definition honest_below {A} (m : M A) (n : nat) : Prop :=
  forall w, (length (stdin w) <= n)%nat -> honest_at m w.

(** A computation that has read at least one input whenever it is not
    left waiting. *)
Definition reading {A} (m : M A) : Prop :=
  forall w,
    fst (m w) = Waiting \/
    (length (stdin (snd (m w))) < length (stdin w))%nat.

(** A computation that has read at least one input whenever it returns. *)
Definition consuming {A} (m : M A) : Prop :=
  forall w a,
    fst (m w) = Ok a -> (length (stdin (snd (m w))) < length (stdin w))%nat.

(** The selector's glyph for an outcome of the classification. *)
Definition glyph_of (st : status) : string :=
  match st with
  | Supported => glyph_supported
  | Emulated => glyph_emulated
  | NotSupported => glyph_not_supported
  end.

(** [doc[k1][k2]...] on a JSON document. *)
Fixpoint doc_get (keys : list string) (doc : pyval) : option pyval :=
  match keys with
  | [] => Some doc
  | k :: rest =>
      match doc with
      | PDict d =>
          match dict_get k d with
          | Some v => doc_get rest v
          | None => None
          end
      | _ => None
      end
  end.

(** The public callable names of a client object, in the order of [dir]. *)
Definition public_methods (o : exchange_obj) : list string :=
  List.filter (fun method => negb (startswith "_" method)) (map fst (methods o)).

(** The characters of a string. *)
Fixpoint chars (s : string) : list ascii :=
  match s with
  | EmptyString => []
  | String c r => c :: chars r
  end.

(** The world with the two credential fields of the tester replaced. *)
Definition set_creds (k s : option string) (w : world) : world :=
  set_self (with_secret s (with_api_key k (self w))) w.

(** A computation that neither reads nor writes the two credential
    fields: run with other credentials it yields the same result and the
    same final world, up to those credentials. *)
Definition cred_blind {A} (m : M A) : Prop :=
  forall k s w, m (set_creds k s w) = (fst (m w), set_creds k s (snd (m w))).

(** Two worlds that differ at most in [_api_key] and [_secret]. *)
Definition same_but_credentials (w1 w2 : world) : Prop :=
  w2 = set_creds (_api_key (self w2)) (_secret (self w2)) w1.

(** A credential field reads back as absent or empty. *)
Definition blank (o : option string) : Prop := o = None \/ o = Some "".

(** A credential attribute of a client object reads back as absent or
    [None]. *)
Definition blank_attr (o : exchange_obj) (name : string) : Prop :=
  attrs o !! name = None \/ attrs o !! name = Some PNone.

(** The positional order the specification words: [symbol], then
    [limit], then [since], each when present. *)
Definition spec_positional_order (values : list (string * pyval))
  : list pyval :=
  flat_map (fun name =>
              map snd (List.filter (fun pv => String.eqb (fst pv) name) values))
    ["symbol"; "limit"; "since"].

(* ===================================================================== *)
(** ** A concrete environment for examples *)
(* ===================================================================== *)

Module Demo.

(** The capability map of [kraken_obj]. *)
Definition caps : gmap string pyval :=
  list_to_map [("fetchTicker", PBool true);
               ("fetchTickers", PStr "emulated");
               ("fetchTrades", PBool true);
               ("fetchOHLCV", PBool false);
               ("fetchStatus", PNone)].

(** A client with a small capability map and three methods, in the shape
    of the library's [kraken] class. *)
Definition kraken_obj (config : list (string * pyval)) : exchange_obj :=
  {| has := Some caps;
     attrs := list_to_map [("apiKey", default PNone (dict_get "apiKey" config));
                           ("secret", default PNone (dict_get "secret" config));
                           ("version", PStr "0");
                           ("rateLimit", PInt 1000);
                           ("markets", PNone)];
     methods := [("fetch_ticker", mkMethod ["symbol"; "params"] None);
                 ("fetch_trades",
                   mkMethod ["symbol"; "since"; "limit"; "params"] None);
                 ("load_markets", mkMethod ["reload"; "params"] None)] |}.

(** The collaborator: two exchange classes, of which [coinbase] refuses to
    be constructed; [fetch_ticker] answers with a small mapping, every other call fails with a network error; the clock
    advances by 1/4096 of a second per reading (the readings and their
    products by 1000 are binary fractions, exact as floats too). *)
Definition ext : external :=
  {| ccxt_exchanges := ["kraken"; "coinbase"];
     ccxt_getattr := fun name =>
       if String.eqb name "kraken" then Some (fun c => inl (kraken_obj c))
       else if String.eqb name "coinbase" then
         Some (fun _ => inr (Exception "AuthenticationError"
                               "coinbase requires apiKey credential"))
       else None;
     call_method := fun _ o name _ _ =>
       if String.eqb name "fetch_ticker"
       then (Returns (PDict [("symbol", PStr "BTC/USD"); ("last", PInt 1)]), o)
       else (Fails "NetworkError" "kraken GET failed", o);
     time_time := fun n => (1700000000 + inject_Z (Z.of_nat n) / 4096)%Q;
     strftime := fun _ => "20231114_221320";
     isoformat := fun _ => "2023-11-14T22:13:20";
     py_str := fun v => match v with
                        | PStr s => s
                        | PInt z => pretty z
                        | _ => "<value>"
                        end;
     json_dumps := fun _ _ => "{}";
     format_exc := fun e => "Traceback (most recent call last): " +:+ str_exn e |}.

(** A client whose capability map is empty, and one without the
    attribute. *)
Definition no_caps : exchange_obj :=
  {| has := Some ∅; attrs := ∅; methods := [] |}.

Definition bare_obj : exchange_obj :=
  {| has := None; attrs := ∅; methods := [] |}.

(** A session in progress on the client [o], with credentials stored and
    the operator's next [keys] pending. *)
Definition session (o : exchange_obj) (keys : list input) : world :=
  {| self := {| exchange := Some "kraken"; exchange_instance := Some 0%nat;
                _api_key := Some "key"; _secret := Some "secret" |};
     heap := {[ 0%nat := o ]}; stdin := keys; console := [];
     files := []; disk_error := None; clock_reads := 0; calls := 0 |}.

(** The same session on a disk that refuses every write. *)
Definition read_only (keys : list input) : world :=
  {| self := {| exchange := Some "kraken"; exchange_instance := Some 0%nat;
                _api_key := Some "key"; _secret := Some "secret" |};
     heap := {[ 0%nat := kraken_obj [] ]}; stdin := keys; console := [];
     files := []; disk_error := Some "[Errno 30] Read-only file system";
     clock_reads := 0; calls := 0 |}.

(** A fresh process: nothing on the heap, nothing printed or written. *)
Definition boot (keys : list input) : world :=
  {| self := new_tester; heap := ∅; stdin := keys; console := [];
     files := []; disk_error := None; clock_reads := 0; calls := 0 |}.

End Demo.

(* ===================================================================== *)
(** ** Further vocabulary: sessions, set-up, saving, the selector *)
(* ===================================================================== *)

(** The two panels [main] prints before anything else. *)
Definition banners : list out :=
  [ PanelOut ""
      ("[bold cyan]CCXT Playground[/bold cyan]" +:+ nl
         +:+ "CLI tool to test CCXT exchange endpoints");
    PanelOut "Security Notice"
      ("[bold red]⚠️  SECURITY WARNING[/bold red]" +:+ nl
         +:+ "• API keys and secrets are stored in memory only during this session" +:+ nl
         +:+ "• They are automatically cleared when you exit" +:+ nl
         +:+ "• Never use --api-key or --secret flags in scripts or shared environments" +:+ nl
         +:+ "• Consider using environment variables for automation") ].

(** The world in which the [try] block of [main] starts: the panels are
    printed and [tester] is a new object. *)
Definition started (w : world) : world :=
  set_self new_tester (set_console (console w ++ banners) w).

(** The panel [cli] prints when credentials came on the command line. *)
Definition cli_warning : out :=
  PanelOut "Command Line Security Warning"
    ("[bold red]⚠️  SECURITY WARNING[/bold red]" +:+ nl
       +:+ "• API keys passed via command line are visible in shell history" +:+ nl
       +:+ "• Consider using environment variables instead:" +:+ nl
       +:+ "  export CCXT_API_KEY='your_key'" +:+ nl
       +:+ "  export CCXT_SECRET='your_secret'" +:+ nl
       +:+ "• Or use interactive mode for better security").

(** The client object once [setup_exchange] has tried it: [load_markets]
    was called on it when it has such a method (call number [n] of the
    session), with the outcome and the object as the call leaves it. *)
Definition tried (ext : external) (n : nat) (obj : exchange_obj)
  : option call_outcome * exchange_obj :=
  match find_method "load_markets" (methods obj) with
  | Some _ =>
      (Some (fst (call_method ext n obj "load_markets" [] [])),
       snd (call_method ext n obj "load_markets" [] []))
  | None => (None, obj)
  end.

(** What [setup_exchange] prints after the client is installed. *)
Definition connection_report (exchange_name : string)
  (outcome : option call_outcome) : list out :=
  match outcome with
  | None =>
      [Line ("[green]✓ Successfully initialized " +:+ exchange_name
               +:+ "[/green]")]
  | Some (Returns _) =>
      [Line ("[green]✓ Successfully connected to " +:+ exchange_name
               +:+ "[/green]")]
  | Some (Fails _ msg) =>
      [Line ("[yellow]⚠ Warning: Could not load markets: " +:+ msg
               +:+ "[/yellow]");
       Line "[yellow]Some endpoints might not work without proper authentication[/yellow]"]
  | Some Interrupted => []
  end.

(** An input that [Confirm.ask] reads as a yes. *)
Definition says_yes (i : input) : bool :=
  match i with
  | Reply s => match confirm_reply s with Some true => true | _ => false end
  | _ => false
  end.

(** No pending input reads as a yes. *)
Definition no_yes (inp : list input) : Prop :=
  forallb (fun i => negb (says_yes i)) inp = true.

(** A computation that writes no file as long as the operator never
    answers yes; the input it leaves is the rest of what it was given. *)
Definition frugal {A} (m : M A) : Prop :=
  forall w, no_yes (stdin w) ->
    files (snd (m w)) = files w /\
    exists used, stdin w = used ++ stdin (snd (m w)).

(** The rows of the table [select_exchange] prints. *)
Definition exchange_rows (ext : external) : list (list string) :=
  two_columns
    (List.filter (fun ex => bool_decide (ex ∈ get_available_exchanges ext))
       popular)
    (List.filter (fun ex => negb (bool_decide (ex ∈ popular)))
       (get_available_exchanges ext)).

(** The two lines [test_endpoint] prints above the symbol prompt when the
    client has a markets mapping [d]. *)
Definition symbols_shown (d : list (string * pyval)) : list out :=
  [ Line (nl +:+ "[blue]Available symbols (showing first 10):[/blue]");
    Line (join ", " (take 10 (map fst d))) ].

(** A collaborator like the demo's whose calls all return [None]. *)
Definition silent_ext : external :=
  {| ccxt_exchanges := ccxt_exchanges Demo.ext;
     ccxt_getattr := ccxt_getattr Demo.ext;
     call_method := fun _ o _ _ _ => (Returns PNone, o);
     time_time := time_time Demo.ext;
     strftime := strftime Demo.ext;
     isoformat := isoformat Demo.ext;
     py_str := py_str Demo.ext;
     json_dumps := json_dumps Demo.ext;
     format_exc := format_exc Demo.ext |}.

(** The three cells the selector shows for the method at position [k] of
    the sorted list: its number, its status glyph, its name. *)
Definition cell (glyph : string -> string) (all_methods : list string)
  (k : nat) : list string :=
  [nat_str (k + 1); glyph (nth k all_methods ""); nth k all_methods ""].

(* ===================================================================== *)
(** ** Capability classification: the two loops *)
(* ===================================================================== *)

Lemma status_eqb_eq a b : status_eqb a b = true <-> a = b.
Proof. destruct a, b; simpl; split; congruence. Qed.

(** One step of the inner loop appends the endpoint to the list of its
    outcome and to no other. *)
Lemma place_pick has_dict sup emu nsup endpoint :
  place has_dict (sup, emu, nsup) endpoint =
    (sup ++ pick Supported has_dict [endpoint],
     emu ++ pick Emulated has_dict [endpoint],
     nsup ++ pick NotSupported has_dict [endpoint]).
Proof.
  unfold place, pick, classify; simpl.
  destruct (has_dict !! endpoint) as [value|]; simpl.
  - destruct (is_True value); simpl.
    + now rewrite !app_nil_r.
    + destruct (eq_str value "emulated"); simpl; now rewrite !app_nil_r.
  - now rewrite !app_nil_r.
Qed.

Lemma pick_cons st has_dict e eps :
  pick st has_dict (e :: eps) = pick st has_dict [e] ++ pick st has_dict eps.
Proof.
  unfold pick; simpl.
  destruct (status_eqb (classify has_dict e) st); reflexivity.
Qed.

(** The inner loop filters the endpoints of a category three ways. *)
Lemma inner_loop_pick has_dict eps : forall sup emu nsup,
  fold_left (place has_dict) eps (sup, emu, nsup) =
    (sup ++ pick Supported has_dict eps,
     emu ++ pick Emulated has_dict eps,
     nsup ++ pick NotSupported has_dict eps).
Proof.
  induction eps as [|e eps IH]; intros sup emu nsup; cbn [fold_left].
  - unfold pick; simpl. now rewrite !app_nil_r.
  - rewrite place_pick, IH.
    rewrite (pick_cons Supported has_dict e eps),
      (pick_cons Emulated has_dict e eps),
      (pick_cons NotSupported has_dict e eps), <- !app_assoc.
    reflexivity.
Qed.

(** The outer loop, started from any three dictionaries. *)
Lemma outer_loop_pick has_dict cats : forall b0,
  fold_left
    (fun b '(category, endpoints) =>
       let '(sup, emu, nsup) :=
         fold_left (place has_dict) endpoints ([], [], []) in
       {| supported := supported b ++ [(category, sup)];
          emulated := emulated b ++ [(category, emu)];
          not_supported := not_supported b ++ [(category, nsup)] |})
    cats b0 =
  {| supported := supported b0 ++ picked Supported has_dict cats;
     emulated := emulated b0 ++ picked Emulated has_dict cats;
     not_supported := not_supported b0 ++ picked NotSupported has_dict cats |}.
Proof.
  induction cats as [|[category endpoints] cats IH]; intros b0;
    cbn [fold_left].
  - unfold picked; simpl. rewrite !app_nil_r. now destruct b0.
  - rewrite inner_loop_pick, IH; simpl.
    now rewrite <- !app_assoc.
Qed.

(** The three dictionaries built by the loops. *)
Lemma bucketize_picked has_dict cats st :
  bucket st (bucketize has_dict cats) = picked st has_dict cats.
Proof.
  unfold bucketize. rewrite outer_loop_pick. now destruct st.
Qed.

Lemma lists_get_picked st has_dict cats category eps :
  NoDup (map fst cats) ->
  (category, eps) ∈ cats ->
  lists_get category (picked st has_dict cats) = pick st has_dict eps.
Proof.
  induction cats as [|[c l] cats IH]; simpl; intros Hnd Hin.
  - inversion Hin.
  - apply NoDup_cons in Hnd as [Hc Hnd].
    apply elem_of_cons in Hin as [Heq|Hin].
    + injection Heq as -> ->. now rewrite String.eqb_refl.
    + destruct (String.eqb_spec c category) as [->|Hne]; [|now apply IH].
      exfalso. apply Hc. apply list_elem_of_fmap. now exists (category, eps).
Qed.

Lemma categories_NoDup : NoDup (map fst categories).
Proof. apply (bool_decide_unpack _). vm_compute. exact I. Qed.

Lemma checked_set_NoDup : NoDup checked_set.
Proof. apply (bool_decide_unpack _). vm_compute. exact I. Qed.

Lemma elem_of_pick st has_dict eps name :
  name ∈ pick st has_dict eps <-> name ∈ eps /\ classify has_dict name = st.
Proof.
  unfold pick. rewrite !list_elem_of_In, filter_In, status_eqb_eq. tauto.
Qed.

(** A checked name sits in the bucket of its outcome, in its own category,
    and in no other bucket. *)
Lemma bucketize_bucketed_as has_dict category eps name :
  (category, eps) ∈ categories -> name ∈ eps ->
  bucketed_as (bucketize has_dict categories) category name
    (classify has_dict name).
Proof.
  intros Hc Hn st'.
  rewrite bucketize_picked, (lists_get_picked _ _ _ _ eps categories_NoDup Hc).
  rewrite elem_of_pick. split; [intros [_ H]; now symmetry | intros ->; auto].
Qed.

(* ===================================================================== *)
(** ** Running computations *)
(* ===================================================================== *)

Lemma set_console_same w : set_console (console w) w = w.
Proof. now destruct w. Qed.

Lemma bind_Ok {A B} (m : M A) (k : A -> M B) w a w' :
  m w = (Ok a, w') -> bind m k w = k a w'.
Proof. unfold bind. now intros ->. Qed.

Lemma bind_Raise {A B} (m : M A) (k : A -> M B) w e w' :
  m w = (Raise e, w') -> bind m k w = (Raise e, w').
Proof. unfold bind. now intros ->. Qed.

Lemma print_all_run os : forall w,
  print_all os w = (Ok tt, set_console (console w ++ os) w).
Proof.
  induction os as [|o os IH]; intros w.
  - unfold print_all; simpl. unfold ret.
    now rewrite app_nil_r, set_console_same.
  - change (print_all (o :: os) w)
      with (print_all os (set_console (console w ++ [o]) w)).
    rewrite IH. simpl. now rewrite <- app_assoc.
Qed.

(* ===================================================================== *)
(** ** Computations that leave the tester object alone *)
(* ===================================================================== *)

Lemma advances_refl w : advances w w.
Proof.
  repeat split; try (exists []; now rewrite ?app_nil_r).
Qed.

Lemma advances_trans w1 w2 w3 :
  advances w1 w2 -> advances w2 w3 -> advances w1 w3.
Proof.
  intros (Hs1 & [c1 Hc1] & [f1 Hf1] & [u1 Hu1])
         (Hs2 & [c2 Hc2] & [f2 Hf2] & [u2 Hu2]).
  repeat split.
  - congruence.
  - exists (c1 ++ c2). now rewrite Hc2, Hc1, app_assoc.
  - exists (f1 ++ f2). now rewrite Hf2, Hf1, app_assoc.
  - exists (u1 ++ u2). now rewrite Hu1, Hu2, app_assoc.
Qed.

Lemma advances_console w c :
  advances w (set_console (console w ++ c) w).
Proof.
  repeat split; simpl; eauto; exists []; now rewrite ?app_nil_r.
Qed.

Lemma advances_stdin w i r :
  stdin w = i :: r -> advances w (set_stdin r w).
Proof.
  intros H. repeat split; simpl; try (exists []; now rewrite ?app_nil_r).
  exists [i]. now rewrite H.
Qed.

Create HintDb keeps.

Lemma keeps_ret {A} (a : A) : keeps (ret a).
Proof. intros w. apply advances_refl. Qed.

Lemma keeps_raise {A} e : keeps (@raise A e).
Proof. intros w. apply advances_refl. Qed.

Lemma keeps_waiting {A} : keeps (fun w => (@Waiting A, w)).
Proof. intros w. apply advances_refl. Qed.

Lemma keeps_gets {A} (f : world -> A) : keeps (gets f).
Proof. intros w. apply advances_refl. Qed.

Lemma keeps_bind {A B} (m : M A) (k : A -> M B) :
  keeps m -> (forall a, keeps (k a)) -> keeps (bind m k).
Proof.
  intros Hm Hk w. unfold bind. specialize (Hm w).
  destruct (m w) as [[a|e|] w1]; simpl in *; auto.
  eapply advances_trans; [exact Hm | apply (Hk a w1)].
Qed.

Lemma keeps_try_except {A} (m : M A) p h :
  keeps m -> (forall e, keeps (h e)) -> keeps (try_except m p h).
Proof.
  intros Hm Hh w. unfold try_except. specialize (Hm w).
  destruct (m w) as [[a|e|] w1]; simpl in *; auto.
  destruct (p e); simpl; auto.
  eapply advances_trans; [exact Hm | apply (Hh e w1)].
Qed.

Lemma keeps_try_except2 {A} (m : M A) p1 h1 p2 h2 :
  keeps m -> (forall e, keeps (h1 e)) -> (forall e, keeps (h2 e)) ->
  keeps (try_except2 m p1 h1 p2 h2).
Proof.
  intros Hm H1 H2 w. unfold try_except2. specialize (Hm w).
  destruct (m w) as [[a|e|] w1]; simpl in *; auto.
  destruct (p1 e); [|destruct (p2 e)]; simpl; auto.
  - eapply advances_trans; [exact Hm | apply (H1 e w1)].
  - eapply advances_trans; [exact Hm | apply (H2 e w1)].
Qed.

Lemma keeps_print o : keeps (print o).
Proof. intros w. apply advances_console. Qed.

Lemma keeps_println s : keeps (println s).
Proof. apply keeps_print. Qed.

Lemma keeps_print_all os : keeps (print_all os).
Proof. intros w. rewrite print_all_run. apply advances_console. Qed.

Lemma keeps_read_clock ext : keeps (read_clock ext).
Proof. intros w. repeat split; simpl; exists []; now rewrite ?app_nil_r. Qed.

Lemma keeps_Prompt_ask d : keeps (Prompt_ask d).
Proof.
  intros w. unfold Prompt_ask.
  destruct (stdin w) as [|[s| |] r] eqn:E; simpl;
    first [apply advances_refl | eapply advances_stdin; eassumption].
Qed.

Lemma keeps_read_key : keeps read_key.
Proof.
  intros w. unfold read_key.
  destruct (stdin w) as [|[s| |] r] eqn:E; simpl;
    first [apply advances_refl | eapply advances_stdin; eassumption].
Qed.

Lemma ask_until_advances {A} (accept : string -> option A) complain inp :
  forall shown,
    let '(_, inp', shown') := ask_until accept complain inp shown in
    (exists more, shown' = shown ++ more) /\ (exists used, inp = used ++ inp').
Proof.
  induction inp as [|[s| |] r IH]; intros shown; simpl.
  - split; exists []; now rewrite ?app_nil_r.
  - destruct (accept s).
    + split; [exists []; now rewrite app_nil_r | now exists [Reply s]].
    + specialize (IH (shown ++ [complain s])).
      destruct (ask_until accept complain r (shown ++ [complain s]))
        as [[x inp'] shown'].
      destruct IH as [[more ->] [used ->]]. split.
      * exists (complain s :: more). now rewrite <- app_assoc.
      * now exists (Reply s :: used).
  - split; [exists []; now rewrite app_nil_r | now exists [CtrlC]].
  - split; [exists []; now rewrite app_nil_r | now exists [CtrlD]].
Qed.

Lemma keeps_ask_loop {A} (accept : string -> option A) complain :
  keeps (ask_loop accept complain).
Proof.
  intros w. unfold ask_loop.
  pose proof (ask_until_advances accept complain (stdin w) (console w)) as H.
  destruct (ask_until accept complain (stdin w) (console w)) as [[x inp'] shown'].
  destruct H as [Hc Hu]. simpl.
  repeat split; simpl; auto. exists []; now rewrite app_nil_r.
Qed.

Lemma keeps_Confirm_ask : keeps Confirm_ask.
Proof. apply keeps_ask_loop. Qed.

Lemma keeps_Prompt_ask_choices cs d : keeps (Prompt_ask_choices cs d).
Proof. apply keeps_ask_loop. Qed.

Lemma keeps_makedirs : keeps makedirs.
Proof.
  intros w. unfold makedirs. destruct (disk_error w); apply advances_refl.
Qed.

Lemma keeps_write_json path doc : keeps (write_json path doc).
Proof.
  intros w. unfold write_json.
  destruct (disk_error w); simpl; [apply advances_refl|].
  repeat split; simpl; eauto; exists []; now rewrite ?app_nil_r.
Qed.

Lemma keeps_invoke ext l name args kwargs :
  keeps (invoke ext l name args kwargs).
Proof.
  intros w. unfold invoke.
  destruct (call_method ext (calls w) (deref w l) name args kwargs)
    as [[v|cls msg|] obj'];
    repeat split; simpl; exists []; now rewrite ?app_nil_r.
Qed.

#[global] Hint Resolve keeps_ret keeps_raise keeps_waiting keeps_gets
  keeps_print keeps_println keeps_print_all keeps_read_clock keeps_Prompt_ask
  keeps_read_key keeps_ask_loop keeps_Confirm_ask keeps_Prompt_ask_choices
  keeps_makedirs keeps_write_json keeps_invoke : keeps.

(** Structural descent through a computation. *)
Ltac keeps_step :=
  first
    [ solve [auto with keeps]
    | apply keeps_bind; [|intros ?]
    | apply keeps_try_except; [|intros ?]
    | apply keeps_try_except2; [|intros ?|intros ?]
    | match goal with
      | |- keeps (match ?x with _ => _ end) => destruct x
      end ].

Ltac keeps_tac := repeat keeps_step.

Lemma keeps_mapM {A B} (f : A -> M B) l :
  (forall x, keeps (f x)) -> keeps (mapM f l).
Proof. intros Hf. induction l; simpl; keeps_tac. Qed.

Section KeepsTester.

Variable ext : external.

Lemma keeps_get_available_endpoints : keeps get_available_endpoints.
Proof. unfold get_available_endpoints, get_instance, get_object. keeps_tac. Qed.

Lemma keeps__save_endpoints_info_to_file endpoints :
  keeps (_save_endpoints_info_to_file ext endpoints).
Proof. unfold _save_endpoints_info_to_file, get_exchange. keeps_tac. Qed.

Lemma keeps__save_capability_info_to_file has_dict b :
  keeps (_save_capability_info_to_file ext has_dict b).
Proof.
  unfold _save_capability_info_to_file, get_exchange, get_instance, get_object.
  keeps_tac.
Qed.

Lemma keeps__save_response_to_file endpoint data info :
  keeps (_save_response_to_file ext endpoint data info).
Proof. unfold _save_response_to_file, get_exchange. keeps_tac. Qed.

Hint Resolve keeps_get_available_endpoints keeps__save_endpoints_info_to_file
  keeps__save_capability_info_to_file keeps__save_response_to_file : keeps.

Lemma keeps_display_endpoints : keeps (display_endpoints ext).
Proof. unfold display_endpoints, get_instance, get_object. keeps_tac. Qed.

Lemma keeps_check_supported_endpoints : keeps (check_supported_endpoints ext).
Proof.
  unfold check_supported_endpoints, get_exchange, get_instance, get_object.
  keeps_tac.
Qed.

Lemma keeps__get_endpoint_support_status endpoint :
  keeps (_get_endpoint_support_status endpoint).
Proof.
  unfold _get_endpoint_support_status, get_instance, get_object. keeps_tac.
Qed.

Hint Resolve keeps__get_endpoint_support_status : keeps.

Lemma keeps_select_round all_methods page :
  keeps (select_round all_methods page).
Proof.
  unfold select_round, page_rows, pick_by_number.
  keeps_tac; try (apply keeps_mapM; intros; keeps_tac).
Qed.

Lemma keeps_select_loop fuel all_methods : forall page,
  keeps (select_loop fuel all_methods page).
Proof.
  induction fuel as [|fuel IH]; intros page; simpl; [apply keeps_waiting|].
  apply keeps_bind; [apply keeps_select_round|].
  intros [x|p]; auto with keeps.
Qed.

Lemma keeps_select_endpoint : keeps select_endpoint.
Proof.
  unfold select_endpoint, pending_input.
  apply keeps_bind; [auto with keeps|intros].
  apply keeps_bind; [auto with keeps|intros]. apply keeps_select_loop.
Qed.

Lemma keeps_ask_param l param : keeps (ask_param ext l param).
Proof. unfold ask_param, first_markets, get_object. keeps_tac. Qed.

Lemma keeps_collect_params l params : forall args kwargs,
  keeps (collect_params ext l params args kwargs).
Proof.
  induction params as [|p params IH]; intros args kwargs; simpl.
  - auto with keeps.
  - apply keeps_bind; [apply keeps_ask_param|].
    intros v. destruct (is_positional p); apply IH.
Qed.

Lemma keeps_execute_endpoint l endpoint args kwargs :
  keeps (execute_endpoint ext l endpoint args kwargs).
Proof. unfold execute_endpoint, get_exchange. keeps_tac. Qed.

(** [test_endpoint] never assigns to the tester object, whatever the
    outcome of the call. *)
Lemma keeps_test_endpoint endpoint : keeps (test_endpoint ext endpoint).
Proof.
  unfold test_endpoint, get_instance, get_object.
  apply keeps_bind; [auto with keeps|]. intros [l|]; [|auto with keeps].
  apply keeps_bind; [auto with keeps|intros o].
  apply keeps_bind; [keeps_tac|intros mi].
  do 2 (apply keeps_bind; [auto with keeps|intros _]).
  apply keeps_bind; [apply keeps_collect_params|intros [args kwargs]].
  apply keeps_execute_endpoint.
Qed.

End KeepsTester.

(* ===================================================================== *)
(** ** What [check_supported_endpoints] prints *)
(* ===================================================================== *)

Lemma drop_console_app (c more : list out) : drop (length c) (c ++ more) = more.
Proof. now rewrite drop_app_length. Qed.

(** With a client whose capability map is not empty, the method prints the
    heading and the report of the buckets, then asks about saving. *)
Lemma check_supported_endpoints_run ext w l has_dict :
  exchange_instance (self w) = Some l ->
  has (deref w l) = Some has_dict ->
  has_dict <> ∅ ->
  check_supported_endpoints ext w =
    (yes <- Confirm_ask ;;
     if yes
     then _save_capability_info_to_file ext has_dict
            (bucketize has_dict categories)
     else ret tt)
      (set_console
         (console w
            ++ Line (nl +:+ "[bold cyan]Checking supported endpoints for "
                       +:+ str_opt (exchange (self w)) +:+ "[/bold cyan]")
            :: capability_report ext (exchange (self w)) (deref w l)
                 (bucketize has_dict categories)) w).
Proof.
  intros Hl Hh Hne. unfold check_supported_endpoints.
  rewrite (bind_Ok _ _ w (Some l) w) by (unfold get_instance, gets; now rewrite Hl).
  rewrite (bind_Ok _ _ w (exchange (self w)) w) by reflexivity.
  erewrite bind_Ok by reflexivity.
  erewrite bind_Ok by reflexivity.
  change (deref (set_console _ w) l) with (deref w l).
  rewrite Hh. simpl default.
  rewrite bool_decide_eq_false_2 by exact Hne.
  erewrite bind_Ok by apply print_all_run.
  simpl. rewrite <- app_assoc. reflexivity.
Qed.

(** Without a capability map, or with an empty one, the method stops
    after the heading and one line. *)
Lemma check_supported_endpoints_empty ext w l :
  exchange_instance (self w) = Some l ->
  default ∅ (has (deref w l)) = ∅ ->
  check_supported_endpoints ext w =
    (Ok tt,
     set_console
       (console w
          ++ [Line (nl +:+ "[bold cyan]Checking supported endpoints for "
                      +:+ str_opt (exchange (self w)) +:+ "[/bold cyan]");
              Line "[yellow]Exchange doesn't provide capability information[/yellow]"])
       w).
Proof.
  intros Hl Hh. unfold check_supported_endpoints.
  rewrite (bind_Ok _ _ w (Some l) w) by (unfold get_instance, gets; now rewrite Hl).
  rewrite (bind_Ok _ _ w (exchange (self w)) w) by reflexivity.
  erewrite bind_Ok by reflexivity.
  erewrite bind_Ok by reflexivity.
  change (deref (set_console _ w) l) with (deref w l).
  rewrite Hh. rewrite bool_decide_eq_true_2 by reflexivity.
  unfold println, print. simpl. now rewrite <- app_assoc.
Qed.

Lemma check_supported_endpoints_reports ext w l has_dict :
  exchange_instance (self w) = Some l ->
  has (deref w l) = Some has_dict ->
  has_dict <> ∅ ->
  reports_buckets ext w (bucketize has_dict categories).
Proof.
  intros Hl Hh Hne. unfold reports_buckets, new_output.
  rewrite (check_supported_endpoints_run ext w l has_dict Hl Hh Hne).
  match goal with |- context [snd (?m ?w1)] =>
    assert (Hk : keeps m) by
      (apply keeps_bind; [auto with keeps|];
       intros [|]; auto using keeps__save_capability_info_to_file with keeps);
    destruct (Hk w1) as (_ & [shown Hc] & _)
  end.
  exists l. eexists. exists shown. split; [exact Hl|].
  rewrite Hc. simpl console. rewrite <- app_assoc, drop_console_app.
  reflexivity.
Qed.

(* ===================================================================== *)
(** ** Counting the buckets *)
(* ===================================================================== *)

Lemma pick_lengths has_dict eps :
  (length (pick Supported has_dict eps) + length (pick Emulated has_dict eps)
   + length (pick NotSupported has_dict eps))%nat = length eps.
Proof.
  induction eps as [|e eps IH]; [reflexivity|].
  rewrite (pick_cons Supported), (pick_cons Emulated),
    (pick_cons NotSupported), !length_app.
  unfold pick at 1 3 5. simpl.
  destruct (classify has_dict e); simpl; lia.
Qed.

Lemma sum_lengths_picked has_dict cats :
  (sum_lengths (picked Supported has_dict cats)
   + sum_lengths (picked Emulated has_dict cats)
   + sum_lengths (picked NotSupported has_dict cats))%nat
  = length (concat (map snd cats)).
Proof.
  induction cats as [|[c eps] cats IH]; [reflexivity|].
  unfold sum_lengths, picked in *. simpl. rewrite length_app, <- IH.
  pose proof (pick_lengths has_dict eps). lia.
Qed.

Lemma names_of_picked st has_dict cats :
  names_of (picked st has_dict cats) = pick st has_dict (concat (map snd cats)).
Proof.
  unfold names_of, picked, pick.
  induction cats as [|[c eps] cats IH]; [reflexivity|].
  simpl. now rewrite IH, List.filter_app.
Qed.

Lemma NoDup_pick st has_dict eps : NoDup eps -> NoDup (pick st has_dict eps).
Proof.
  intros H. unfold pick.
  apply NoDup_ListNoDup, List.NoDup_filter, NoDup_ListNoDup, H.
Qed.

(** The three buckets together hold the checked names without repetition:
    no name is placed twice, in one bucket or in two. *)
Lemma buckets_NoDup has_dict :
  NoDup (names_of (supported (bucketize has_dict categories))
         ++ names_of (emulated (bucketize has_dict categories))
         ++ names_of (not_supported (bucketize has_dict categories))).
Proof.
  change (supported ?b) with (bucket Supported b).
  change (emulated ?b) with (bucket Emulated b).
  change (not_supported ?b) with (bucket NotSupported b).
  rewrite !bucketize_picked, !names_of_picked.
  fold checked_set.
  pose proof checked_set_NoDup as Hnd.
  apply NoDup_app. split; [now apply NoDup_pick|]. split.
  - intros x Hx Hx'. apply elem_of_pick in Hx as [_ Hs].
    apply elem_of_app in Hx' as [Hx'|Hx']; apply elem_of_pick in Hx' as [_ Hs'];
      congruence.
  - apply NoDup_app. split; [now apply NoDup_pick|].
    split; [|now apply NoDup_pick].
    intros x Hx Hx'. apply elem_of_pick in Hx as [_ Hs].
    apply elem_of_pick in Hx' as [_ Hs']. congruence.
Qed.

Lemma summarize_bucketize has_dict :
  total_checked (summarize (bucketize has_dict categories))
  = length checked_set.
Proof.
  unfold summarize. simpl total_checked.
  change (supported ?b) with (bucket Supported b).
  change (emulated ?b) with (bucket Emulated b).
  change (not_supported ?b) with (bucket NotSupported b).
  rewrite !bucketize_picked. apply sum_lengths_picked.
Qed.

Lemma percent_sum_37 : percent_sum_ok 37 = true.
Proof. vm_compute. reflexivity. Qed.

(** Whatever the split of the 37 checked names, the shown percentages add
    up to 100.0 give or take one tenth. *)
Lemma shown_percentages_sum s e n :
  (s + e + n = 37)%nat ->
  Z.abs (shown_tenths s 37 + shown_tenths e 37 + shown_tenths n 37 - 1000) <= 1.
Proof.
  intros H. pose proof percent_sum_37 as Hok. unfold percent_sum_ok in Hok.
  rewrite forallb_forall in Hok.
  assert (Hs : In s (seq 0 38)) by (apply in_seq; lia).
  specialize (Hok s Hs). rewrite forallb_forall in Hok.
  assert (He : In e (seq 0 (38 - s))) by (apply in_seq; lia).
  specialize (Hok e He). cbv zeta in Hok.
  replace (37 - s - e)%nat with n in Hok by lia.
  now apply Z.leb_le.
Qed.

(** With 37 names no percentage falls half-way between two tenths, so the
    rounding never has a tie to break. *)
Lemma no_ties_37 count :
  (count <= 37)%nat ->
  Qcompare (percentage count 37 * 10
            - inject_Z (Qfloor (percentage count 37 * 10))) (1 # 2) <> Eq.
Proof.
  intros H.
  assert (Hin : In count (seq 0 38)) by (apply in_seq; lia).
  clear H. revert count Hin. apply List.Forall_forall.
  repeat (constructor; [vm_compute; discriminate|]). constructor.
Qed.

(* ===================================================================== *)
(** ** Properties of the capability classification *)
(* ===================================================================== *)

Lemma classify_cases has_dict name :
  match has_dict !! name with
  | None => classify has_dict name = NotSupported
  | Some value =>
      if is_True value then classify has_dict name = Supported
      else if eq_str value "emulated" then classify has_dict name = Emulated
      else classify has_dict name = NotSupported
  end.
Proof.
  unfold classify. destruct (has_dict !! name) as [value|]; [|reflexivity].
  destruct (is_True value); [reflexivity|].
  destruct (eq_str value "emulated"); reflexivity.
Qed.

(** C1 (as amended).  For a configured client whose capability map is not
    empty, [check_supported_endpoints] reports the buckets built by its
    two loops, and in them every method name of the fixed checked set sits,
    within its category, in exactly the bucket the rule names: unsupported
    when the name is absent from the map, supported when its value is the
    boolean true, emulated when its value is the string "emulated",
    unsupported for any other value. *)
Theorem C1_classification_rule ext w l has_dict category eps name :
  exchange_instance (self w) = Some l ->
  has (deref w l) = Some has_dict ->
  has_dict <> ∅ ->
  (category, eps) ∈ categories ->
  name ∈ eps ->
  reports_buckets ext w (bucketize has_dict categories) /\
  match has_dict !! name with
  | None =>
      bucketed_as (bucketize has_dict categories) category name NotSupported
  | Some value =>
      if is_True value then
        bucketed_as (bucketize has_dict categories) category name Supported
      else if eq_str value "emulated" then
        bucketed_as (bucketize has_dict categories) category name Emulated
      else
        bucketed_as (bucketize has_dict categories) category name NotSupported
  end.
Proof.
  intros Hl Hh Hne Hc Hn. split.
  - now apply (check_supported_endpoints_reports ext w l).
  - pose proof (bucketize_bucketed_as has_dict category eps name Hc Hn) as Hb.
    pose proof (classify_cases has_dict name) as Hcl.
    destruct (has_dict !! name) as [value|]; [|now rewrite <- Hcl].
    destruct (is_True value); [now rewrite <- Hcl|].
    destruct (eq_str value "emulated"); now rewrite <- Hcl.
Qed.

Lemma caps_not_empty : Demo.caps <> ∅.
Proof.
  intros H. apply (f_equal (fun m => m !! "fetchTicker")) in H.
  vm_compute in H. discriminate.
Qed.

(** The rule on the demo client: [fetchTickers] is emulated there. *)
Lemma C1_classification_rule_witness :
  reports_buckets Demo.ext (Demo.session (Demo.kraken_obj []) [])
    (bucketize Demo.caps categories) /\
  bucketed_as (bucketize Demo.caps categories) "Market Data" "fetchTickers"
    Emulated.
Proof.
  apply (C1_classification_rule Demo.ext (Demo.session (Demo.kraken_obj []) [])
           0%nat Demo.caps "Market Data"
           ["fetchMarkets"; "fetchCurrencies"; "fetchTicker"; "fetchTickers";
            "fetchOrderBook"; "fetchOHLCV"; "fetchTrades"; "fetchStatus"]
           "fetchTickers").
  - reflexivity.
  - reflexivity.
  - exact caps_not_empty.
  - repeat constructor.
  - repeat constructor.
Defined.

Lemma capability_report_length ext x o b :
  (5 <= length (capability_report ext x o b))%nat.
Proof. unfold capability_report. rewrite length_app. simpl. lia. Qed.

(** C1, as stated, fails on an empty capability map: [fetchTicker] is a
    checked name absent from the map, yet the method stops at its guard
    and reports no buckets at all, so the name is not bucketed as
    unsupported. *)
Lemma C1_counterexample_empty_map :
  "fetchTicker" ∈ checked_set /\
  exchange_instance (self (Demo.session Demo.no_caps [])) = Some 0%nat /\
  has (deref (Demo.session Demo.no_caps []) 0%nat) = Some ∅ /\
  (∅ : gmap string pyval) !! "fetchTicker" = None /\
  check_supported_endpoints Demo.ext (Demo.session Demo.no_caps []) =
    (Ok tt,
     set_console
       [Line (nl +:+ "[bold cyan]Checking supported endpoints for kraken[/bold cyan]");
        Line "[yellow]Exchange doesn't provide capability information[/yellow]"]
       (Demo.session Demo.no_caps [])) /\
  ~ exists b, reports_buckets Demo.ext (Demo.session Demo.no_caps []) b.
Proof.
  split; [vm_compute; repeat constructor|].
  split; [reflexivity|]. split; [reflexivity|]. split; [reflexivity|].
  assert (Hrun := check_supported_endpoints_empty Demo.ext
                    (Demo.session Demo.no_caps []) 0%nat eq_refl eq_refl).
  split; [exact Hrun|].
  intros (b & l & heading & rest & _ & Hout).
  unfold new_output in Hout. rewrite Hrun in Hout.
  apply (f_equal length) in Hout. simpl in Hout.
  rewrite length_app in Hout.
  pose proof (capability_report_length Demo.ext (Some "kraken")
                (deref (Demo.session Demo.no_caps []) l) b) as Hlen.
  simpl in Hlen. lia.
Qed.

(** C6 (as amended).  For a configured client whose capability map is not
    empty, [check_supported_endpoints] reports buckets in which every
    checked name is placed exactly once: each name is in one bucket of its
    category, the buckets hold no name twice, the summary's
    [total_checked] is the sum of the three counts and equals the size of
    the fixed checked set (37), and the three percentages shown add up to
    100.0 give or take one tenth. *)
Theorem C6_summary_counts ext w l has_dict :
  exchange_instance (self w) = Some l ->
  has (deref w l) = Some has_dict ->
  has_dict <> ∅ ->
  reports_buckets ext w (bucketize has_dict categories) /\
  (forall category eps name,
      (category, eps) ∈ categories -> name ∈ eps ->
      exists st,
        bucketed_as (bucketize has_dict categories) category name st) /\
  NoDup (names_of (supported (bucketize has_dict categories))
         ++ names_of (emulated (bucketize has_dict categories))
         ++ names_of (not_supported (bucketize has_dict categories))) /\
  total_checked (summarize (bucketize has_dict categories))
  = (total_supported (summarize (bucketize has_dict categories))
     + total_emulated (summarize (bucketize has_dict categories))
     + total_not_supported (summarize (bucketize has_dict categories)))%nat /\
  total_checked (summarize (bucketize has_dict categories))
  = length checked_set /\
  length checked_set = 37%nat /\
  Z.abs
    (shown_tenths (total_supported (summarize (bucketize has_dict categories)))
       (total_checked (summarize (bucketize has_dict categories)))
     + shown_tenths (total_emulated (summarize (bucketize has_dict categories)))
         (total_checked (summarize (bucketize has_dict categories)))
     + shown_tenths
         (total_not_supported (summarize (bucketize has_dict categories)))
         (total_checked (summarize (bucketize has_dict categories)))
     - 1000) <= 1.
Proof.
  intros Hl Hh Hne.
  split; [now apply (check_supported_endpoints_reports ext w l)|].
  split.
  { intros category eps name Hc Hn. exists (classify has_dict name).
    now apply (bucketize_bucketed_as has_dict category eps). }
  split; [apply buckets_NoDup|].
  split; [reflexivity|].
  pose proof (summarize_bucketize has_dict) as Htot.
  split; [exact Htot|]. split; [reflexivity|].
  rewrite Htot. change (length checked_set) with 37%nat.
  apply shown_percentages_sum.
  change 37%nat with (length checked_set). rewrite <- Htot. reflexivity.
Qed.

(** The counts on the demo client: 2 supported, 1 emulated, 34 not
    supported, shown as 5.4%, 2.7% and 91.9%. *)
Lemma C6_summary_counts_witness :
  reports_buckets Demo.ext (Demo.session (Demo.kraken_obj []) [])
    (bucketize Demo.caps categories) /\
  total_checked (summarize (bucketize Demo.caps categories)) = 37%nat /\
  summary_rows (summarize (bucketize Demo.caps categories)) =
    [ ["[green]Fully Supported[/green]"; "2"; "5.4%"];
      ["[yellow]Emulated[/yellow]"; "1"; "2.7%"];
      ["[red]Not Supported[/red]"; "34"; "91.9%"] ].
Proof.
  pose proof (C6_summary_counts Demo.ext (Demo.session (Demo.kraken_obj []) [])
                0%nat Demo.caps eq_refl eq_refl caps_not_empty)
    as (Hrep & _ & _ & _ & Htot & Hlen & _).
  split; [exact Hrep|]. split; [now rewrite Htot|].
  vm_compute. reflexivity.
Defined.

(** C6, as stated, fails when the client offers no capability map: the
    method stops at its guard, prints no table, and no summary exists whose
    total could equal the size of the checked set. *)
Lemma C6_counterexample_no_summary :
  exchange_instance (self (Demo.session Demo.bare_obj [Reply "y"])) = Some 0%nat /\
  check_supported_endpoints Demo.ext (Demo.session Demo.bare_obj [Reply "y"]) =
    (Ok tt,
     set_console
       [Line (nl +:+ "[bold cyan]Checking supported endpoints for kraken[/bold cyan]");
        Line "[yellow]Exchange doesn't provide capability information[/yellow]"]
       (Demo.session Demo.bare_obj [Reply "y"])) /\
  (forall title rows,
      TableOut title rows
        ∉ new_output (check_supported_endpoints Demo.ext)
            (Demo.session Demo.bare_obj [Reply "y"])) /\
  files (snd (check_supported_endpoints Demo.ext
                (Demo.session Demo.bare_obj [Reply "y"]))) = [].
Proof.
  assert (Hrun := check_supported_endpoints_empty Demo.ext
                    (Demo.session Demo.bare_obj [Reply "y"]) 0%nat
                    eq_refl eq_refl).
  split; [reflexivity|]. split; [exact Hrun|]. split.
  - intros title rows Hin. unfold new_output in Hin. rewrite Hrun in Hin.
    simpl in Hin.
    apply elem_of_cons in Hin as [Hin|Hin]; [discriminate|].
    apply elem_of_cons in Hin as [Hin|Hin]; [discriminate|].
    inversion Hin.
  - now rewrite Hrun.
Qed.

(* ===================================================================== *)
(** ** The selector's glyph against the capability report *)
(* ===================================================================== *)

Lemma _get_endpoint_support_status_run w l endpoint :
  exchange_instance (self w) = Some l ->
  _get_endpoint_support_status endpoint w =
    (Ok (support_status (default ∅ (has (deref w l))) endpoint), w).
Proof.
  intros Hl. unfold _get_endpoint_support_status.
  rewrite (bind_Ok _ _ w (Some l) w)
    by (unfold get_instance, gets; now rewrite Hl).
  reflexivity.
Qed.

Lemma glyphs_differ : glyph_unknown <> glyph_not_supported.
Proof. discriminate. Qed.

(** C10 (as amended).  For a configured client and every endpoint name
    absent from its capability map, [_get_endpoint_support_status] returns
    the "unknown" glyph, which is not the "not supported" glyph.  When the
    name is moreover one of the fixed checked names and the map is not
    empty, [check_supported_endpoints] buckets the same name as
    unsupported, so there the two classifications disagree. *)
Theorem C10_unknown_glyph ext w l name :
  exchange_instance (self w) = Some l ->
  default ∅ (has (deref w l)) !! name = None ->
  _get_endpoint_support_status name w = (Ok glyph_unknown, w) /\
  glyph_unknown <> glyph_not_supported /\
  (forall has_dict category eps,
      has (deref w l) = Some has_dict -> has_dict <> ∅ ->
      (category, eps) ∈ categories -> name ∈ eps ->
      reports_buckets ext w (bucketize has_dict categories) /\
      bucketed_as (bucketize has_dict categories) category name NotSupported).
Proof.
  intros Hl Habs. split.
  - rewrite (_get_endpoint_support_status_run w l name Hl).
    unfold support_status. now rewrite Habs.
  - split; [exact glyphs_differ|].
    intros has_dict category eps Hh Hne Hc Hn.
    split; [now apply (check_supported_endpoints_reports ext w l)|].
    pose proof (bucketize_bucketed_as has_dict category eps name Hc Hn) as Hb.
    rewrite Hh in Habs. simpl in Habs.
    unfold classify in Hb. now rewrite Habs in Hb.
Qed.

(** On the demo client [fetchMarkets] is absent from the map: the selector
    shows "?" where the report says "not supported". *)
Lemma C10_unknown_glyph_witness :
  _get_endpoint_support_status "fetchMarkets"
    (Demo.session (Demo.kraken_obj []) [])
  = (Ok glyph_unknown, Demo.session (Demo.kraken_obj []) []) /\
  bucketed_as (bucketize Demo.caps categories) "Market Data" "fetchMarkets"
    NotSupported.
Proof.
  pose proof (C10_unknown_glyph Demo.ext (Demo.session (Demo.kraken_obj []) [])
                0%nat "fetchMarkets" eq_refl eq_refl) as (Hg & _ & Hb).
  split; [exact Hg|].
  apply (Hb Demo.caps "Market Data"
           ["fetchMarkets"; "fetchCurrencies"; "fetchTicker"; "fetchTickers";
            "fetchOrderBook"; "fetchOHLCV"; "fetchTrades"; "fetchStatus"]
           eq_refl caps_not_empty); repeat constructor.
Defined.

(** C10, as stated, fails for a name outside the checked set:
    [fetch_ticker], a method the selector lists, is absent from the
    capability map and gets the "unknown" glyph, but
    [check_supported_endpoints] does not bucket it as unsupported, nor in
    any bucket. *)
Lemma C10_counterexample_unchecked_name :
  Demo.caps !! "fetch_ticker" = None /\
  _get_endpoint_support_status "fetch_ticker"
    (Demo.session (Demo.kraken_obj []) [])
  = (Ok glyph_unknown, Demo.session (Demo.kraken_obj []) []) /\
  reports_buckets Demo.ext (Demo.session (Demo.kraken_obj []) [])
    (bucketize Demo.caps categories) /\
  (forall st,
      "fetch_ticker"
        ∉ names_of (bucket st (bucketize Demo.caps categories))).
Proof.
  split; [reflexivity|]. split; [reflexivity|]. split.
  - apply (check_supported_endpoints_reports Demo.ext
             (Demo.session (Demo.kraken_obj []) []) 0%nat Demo.caps
             eq_refl eq_refl caps_not_empty).
  - intros st Hin. rewrite bucketize_picked, names_of_picked in Hin.
    apply elem_of_pick in Hin as [Hin _].
    revert Hin. apply (bool_decide_unpack _). vm_compute. exact I.
Qed.

(* ===================================================================== *)
(** ** Parameter prompts of [test_endpoint] *)
(* ===================================================================== *)

Lemma Prompt_ask_reply d w s r :
  stdin w = Reply s :: r ->
  Prompt_ask d w = (Ok (if String.eqb s "" then d else strip s), set_stdin r w).
Proof. intros H. unfold Prompt_ask. now rewrite H. Qed.



(** For a clock reading at or after the epoch, [int] of the product is its
    integer part. *)
Lemma epoch_ms_floor t : (0 <= t)%Q -> epoch_ms t = Qfloor (t * 1000).
Proof.
  intros Ht. unfold epoch_ms, int_of_float, Qfloor.
  destruct (t * 1000)%Q as [n d] eqn:E. simpl.
  apply Z.quot_div_nonneg; [|lia].
  assert (H : (0 <= t * 1000)%Q)
    by (apply Qmult_le_0_compat; [exact Ht|discriminate]).
  rewrite E in H. unfold Qle in H. simpl in H. lia.
Qed.

Lemma epoch_ms_positive t : (1 # 1000 <= t)%Q -> 0 < epoch_ms t.
Proof.
  intros Ht.
  assert (H0 : (0 <= t)%Q) by (eapply Qle_trans; [|exact Ht]; discriminate).
  rewrite (epoch_ms_floor t H0).
  assert (H1 : (1 <= t * 1000)%Q).
  { apply Qle_trans with ((1 # 1000) * 1000)%Q; [discriminate|].
    apply Qmult_le_compat_r; [exact Ht|discriminate]. }
  apply Qfloor_resp_le in H1. change (Qfloor 1) with 1 in H1. lia.
Qed.

Lemma epoch_ms_monotone t1 t2 :
  (0 <= t1)%Q -> (t1 <= t2)%Q -> epoch_ms t1 <= epoch_ms t2.
Proof.
  intros H1 H12.
  rewrite (epoch_ms_floor t1 H1),
    (epoch_ms_floor t2 (Qle_trans _ _ _ H1 H12)).
  apply Qfloor_resp_le, Qmult_le_compat_r; [exact H12|discriminate].
Qed.




(* ===================================================================== *)
(** ** Positional and keyword arguments *)
(* ===================================================================== *)

Lemma positional_of_cons p v vs :
  positional_of ((p, v) :: vs)
  = if is_positional p then v :: positional_of vs else positional_of vs.
Proof. unfold positional_of. simpl. now destruct (is_positional p). Qed.

Lemma keyword_of_cons p v vs :
  keyword_of ((p, v) :: vs)
  = if is_positional p then keyword_of vs else (p, v) :: keyword_of vs.
Proof. unfold keyword_of. simpl. now destruct (is_positional p). Qed.

(** The parameter loop is the sequence of prompts followed by the split of
    the values: positional ones appended in the order met, the others
    assigned by name. *)
Lemma collect_params_ask_all ext l params : forall args kwargs w,
  collect_params ext l params args kwargs w =
    match ask_all ext l params w with
    | (Ok vs, w') =>
        (Ok (args ++ positional_of vs, assign_all (keyword_of vs) kwargs), w')
    | (Raise e, w') => (Raise e, w')
    | (Waiting, w') => (Waiting, w')
    end.
Proof.
  induction params as [|p params IH]; intros args kwargs w.
  - simpl. unfold ret. now rewrite app_nil_r.
  - change (collect_params ext l (p :: params) args kwargs w)
      with (match ask_param ext l p w with
            | (Ok value, w1) =>
                (if is_positional p
                 then collect_params ext l params (args ++ [value]) kwargs
                 else collect_params ext l params args (dict_set p value kwargs))
                  w1
            | (Raise e, w1) => (Raise e, w1)
            | (Waiting, w1) => (Waiting, w1)
            end).
    change (ask_all ext l (p :: params) w)
      with (match
               match ask_param ext l p w with
               | (Ok value, w1) => (Ok (p, value), w1)
               | (Raise e, w1) => (Raise e, w1)
               | (Waiting, w1) => (Waiting, w1)
               end
             with
             | (Ok y, w1) =>
                 match ask_all ext l params w1 with
                 | (Ok ys, w2) => (Ok (y :: ys), w2)
                 | (Raise e, w2) => (Raise e, w2)
                 | (Waiting, w2) => (Waiting, w2)
                 end
             | (Raise e, w1) => (Raise e, w1)
             | (Waiting, w1) => (Waiting, w1)
             end).
    destruct (ask_param ext l p w) as [[v|e|] w1]; try reflexivity.
    destruct (is_positional p) eqn:Hp; rewrite IH;
      destruct (ask_all ext l params w1) as [[vs|e|] w2]; try reflexivity;
      rewrite positional_of_cons, keyword_of_cons, Hp.
    + now rewrite <- app_assoc.
    + reflexivity.
Qed.

Lemma ask_all_names ext l params : forall w vs w',
  ask_all ext l params w = (Ok vs, w') -> map fst vs = params.
Proof.
  induction params as [|p params IH]; intros w vs w' H.
  - injection H as <- _. reflexivity.
  - unfold ask_all in H. simpl in H. unfold bind in H.
    destruct (ask_param ext l p w) as [[v|e|] w1]; try discriminate.
    simpl in H.
    destruct (mapM _ params w1) as [[ys|e|] w2] eqn:E; try discriminate.
    injection H as <- _. simpl. f_equal. exact (IH w1 ys w2 E).
Qed.

Lemma dict_set_fresh k v kw :
  k ∉ map fst kw -> dict_set k v kw = kw ++ [(k, v)].
Proof.
  induction kw as [|[k' v'] kw IH]; simpl; intros Hk; [reflexivity|].
  apply not_elem_of_cons in Hk as [Hne Hk].
  destruct (String.eqb_spec k' k) as [->|_]; [congruence|].
  now rewrite IH.
Qed.

(** Assignments to distinct new names extend the dictionary in order. *)
Lemma assign_all_fresh vs : forall kw,
  NoDup (map fst (kw ++ vs)) -> assign_all vs kw = kw ++ vs.
Proof.
  induction vs as [|[k v] vs IH]; intros kw Hnd; simpl.
  - now rewrite app_nil_r.
  - rewrite dict_set_fresh.
    + rewrite IH; [now rewrite <- app_assoc|].
      now rewrite <- app_assoc.
    + rewrite fmap_app in Hnd. apply NoDup_app in Hnd as (_ & Hd & _).
      intros Hin. apply (Hd k Hin). simpl. apply elem_of_cons. now left.
Qed.

Lemma keyword_of_names_NoDup vs :
  NoDup (map fst vs) -> NoDup (map fst (keyword_of vs)).
Proof.
  unfold keyword_of. induction vs as [|[k v] vs IH]; simpl; intros Hnd.
  - constructor.
  - apply NoDup_cons in Hnd as [Hk Hnd].
    destruct (is_positional k); simpl; [now apply IH|].
    apply NoDup_cons. split; [|now apply IH].
    intros Hin. apply Hk.
    apply list_elem_of_fmap in Hin as [[k' v'] [-> Hin]].
    apply list_elem_of_In, filter_In in Hin as [Hin _].
    apply list_elem_of_fmap. exists (k', v'). split; [reflexivity|].
    now apply list_elem_of_In.
Qed.

(** How [test_endpoint] reaches the call, for a configured client and a
    method it finds. *)
Lemma test_endpoint_run ext w l mi endpoint args kwargs w1 :
  exchange_instance (self w) = Some l ->
  find_method endpoint (methods (deref w l)) = Some mi ->
  collect_params ext l (remove_first "self" (params_of mi)) [] []
    (announced ext endpoint (remove_first "self" (params_of mi)) w)
  = (Ok (args, kwargs), w1) ->
  test_endpoint ext endpoint w = execute_endpoint ext l endpoint args kwargs w1.
Proof.
  intros Hl Hm Hc. unfold test_endpoint.
  rewrite (bind_Ok _ _ w (Some l) w)
    by (unfold get_instance, gets; now rewrite Hl).
  rewrite (bind_Ok _ _ w (deref w l) w) by reflexivity.
  rewrite Hm. rewrite (bind_Ok _ _ w mi w) by reflexivity.
  erewrite bind_Ok by reflexivity. erewrite bind_Ok by reflexivity.
  unfold announced in Hc. simpl console. rewrite <- app_assoc. simpl app.
  now rewrite (bind_Ok _ _ _ _ _ Hc).
Qed.

(** C4 (as amended).  For every declared parameter list and the values the
    prompts yield for it, the parameters named [symbol], [limit] and
    [since] are passed positionally, in the order in which the list
    declares them, and every other parameter is passed by keyword under
    its own name (the names of a parameter list being distinct). *)
Theorem C4_argument_placement ext l params w vs w' :
  ask_all ext l params w = (Ok vs, w') ->
  map fst vs = params /\
  collect_params ext l params [] [] w
  = (Ok (positional_of vs, assign_all (keyword_of vs) []), w') /\
  positional_of vs
  = map snd (List.filter
               (fun pv => bool_decide (fst pv ∈ ["symbol"; "limit"; "since"]))
               vs) /\
  (NoDup params ->
   assign_all (keyword_of vs) []
   = List.filter
       (fun pv => negb (bool_decide (fst pv ∈ ["symbol"; "limit"; "since"])))
       vs).
Proof.
  intros Hask. pose proof (ask_all_names ext l params w vs w' Hask) as Hn.
  split; [exact Hn|]. split; [|split].
  - now rewrite collect_params_ask_all, Hask.
  - reflexivity.
  - intros Hnd. rewrite <- Hn in Hnd.
    rewrite assign_all_fresh; [reflexivity|].
    now apply keyword_of_names_NoDup.
Qed.

(** [fetch_trades(symbol, since, limit, params)] on the demo session. *)
Lemma C4_argument_placement_witness :
  collect_params Demo.ext 0%nat ["symbol"; "since"; "limit"; "params"] [] []
    (Demo.session (Demo.kraken_obj [])
       [Reply "BTC/USD"; Reply "1000"; Reply "5"; Reply ""])
  = (Ok ([PStr "BTC/USD"; PInt 1000; PInt 5], [("params", PStr "")]),
     Demo.session (Demo.kraken_obj []) []).
Proof.
  exact (proj1 (proj2
    (C4_argument_placement Demo.ext 0%nat
       ["symbol"; "since"; "limit"; "params"]
       (Demo.session (Demo.kraken_obj [])
          [Reply "BTC/USD"; Reply "1000"; Reply "5"; Reply ""])
       [("symbol", PStr "BTC/USD"); ("since", PInt 1000); ("limit", PInt 5);
        ("params", PStr "")]
       (Demo.session (Demo.kraken_obj []) []) eq_refl))).
Defined.

(** C4, as stated, fails for a method that declares [since] before
    [limit], as [fetch_trades] does: the call receives the values in the
    declared order symbol, since, limit, not in the order symbol, limit,
    since. *)
Lemma C4_counterexample_declared_order :
  find_method "fetch_trades" (methods (Demo.kraken_obj []))
  = Some (mkMethod ["symbol"; "since"; "limit"; "params"] None) /\
  fst (collect_params Demo.ext 0%nat
         ["symbol"; "since"; "limit"; "params"] [] []
         (Demo.session (Demo.kraken_obj [])
            [Reply "BTC/USD"; Reply "1000"; Reply "5"; Reply ""]))
  = Ok ([PStr "BTC/USD"; PInt 1000; PInt 5], [("params", PStr "")]) /\
  spec_positional_order
    [("symbol", PStr "BTC/USD"); ("since", PInt 1000); ("limit", PInt 5);
     ("params", PStr "")]
  = [PStr "BTC/USD"; PInt 5; PInt 1000] /\
  [PStr "BTC/USD"; PInt 1000; PInt 5] <> [PStr "BTC/USD"; PInt 5; PInt 1000] /\
  Line (nl +:+ "[bold]Executing: fetch_trades(BTC/USD, 1000, 5, <value>)[/bold]")
    ∈ console (snd (test_endpoint Demo.ext "fetch_trades"
                      (Demo.session (Demo.kraken_obj [])
                         [Reply "BTC/USD"; Reply "1000"; Reply "5"; Reply "";
                          Reply "n"]))).
Proof.
  split; [reflexivity|]. split; [reflexivity|]. split; [reflexivity|].
  split; [discriminate|].
  vm_compute. repeat constructor.
Qed.

(* ===================================================================== *)
(** ** Invocation failures *)
(* ===================================================================== *)

Lemma Confirm_ask_reply w a b r :
  stdin w = Reply a :: r -> confirm_reply a = Some b ->
  Confirm_ask w = (Ok b, set_stdin r w).
Proof.
  intros Hin Hb. unfold Confirm_ask, ask_loop. rewrite Hin.
  cbn [ask_until]. rewrite Hb. now destruct w.
Qed.

(** The handler of [execute_endpoint]: when the call fails with an
    exception, the message is printed, the operator is asked about the
    traceback, and the method returns. *)
Lemma execute_endpoint_failure ext w l endpoint args kwargs cls msg obj' a b r :
  call_method ext (calls w) (deref w l) endpoint args kwargs
  = (Fails cls msg, obj') ->
  stdin w = Reply a :: r ->
  confirm_reply a = Some b ->
  execute_endpoint ext l endpoint args kwargs w =
    (Ok tt,
     set_stdin r
       (set_console
          (console w
             ++ [Line (nl +:+ "[bold]Executing: "
                         +:+ call_text ext endpoint args kwargs +:+ "[/bold]");
                 Line (nl +:+ "[red]Error executing " +:+ endpoint
                         +:+ ":[/red]");
                 Line ("[red]" +:+ msg +:+ "[/red]")]
             ++ (if b then [Line (format_exc ext (Exception cls msg))] else []))
          (set_calls (S (calls w)) (set_heap (<[l := obj']> (heap w)) w)))).
Proof.
  intros Hcall Hin Hb. unfold execute_endpoint, try_except.
  assert (Hbody :
    forall k : pyval -> M unit,
      (println (nl +:+ "[bold]Executing: "
                  +:+ call_text ext endpoint args kwargs +:+ "[/bold]") ;;;
       result <- invoke ext l endpoint args kwargs ;; k result) w
      = (Raise (Exception cls msg),
         set_calls (S (calls w))
           (set_heap (<[l := obj']> (heap w))
              (set_console
                 (console w
                    ++ [Line (nl +:+ "[bold]Executing: "
                                +:+ call_text ext endpoint args kwargs
                                +:+ "[/bold]")]) w)))).
  { intros k. unfold bind, println, print, invoke.
    change (calls (set_console _ w)) with (calls w).
    change (deref (set_console _ w) l) with (deref w l).
    now rewrite Hcall. }
  rewrite Hbody. cbn [is_Exception].
  erewrite bind_Ok by reflexivity. erewrite bind_Ok by reflexivity.
  erewrite bind_Ok by (apply (Confirm_ask_reply _ a b r); [exact Hin|exact Hb]).
  destruct b; unfold println, print, ret; simpl;
    rewrite <- ?app_assoc; reflexivity.
Qed.



(* ===================================================================== *)
(** ** Computations that never touch the stored credentials *)
(* ===================================================================== *)

Create HintDb blind.

Lemma blind_ret {A} (a : A) : cred_blind (ret a).
Proof. intros k s w. reflexivity. Qed.

Lemma blind_raise {A} e : cred_blind (@raise A e).
Proof. intros k s w. reflexivity. Qed.

Lemma blind_waiting {A} : cred_blind (fun w => (@Waiting A, w)).
Proof. intros k s w. reflexivity. Qed.

Lemma blind_bind {A B} (m : M A) (f : A -> M B) :
  cred_blind m -> (forall a, cred_blind (f a)) -> cred_blind (bind m f).
Proof.
  intros Hm Hf k s w. unfold bind. rewrite Hm.
  destruct (m w) as [[a|e|] w1]; simpl; [apply Hf|reflexivity|reflexivity].
Qed.

Lemma blind_try_except {A} (m : M A) p h :
  cred_blind m -> (forall e, cred_blind (h e)) -> cred_blind (try_except m p h).
Proof.
  intros Hm Hh k s w. unfold try_except. rewrite Hm.
  destruct (m w) as [[a|e|] w1]; simpl; try reflexivity.
  destruct (p e); simpl; [apply Hh|reflexivity].
Qed.

Lemma blind_try_except2 {A} (m : M A) p1 h1 p2 h2 :
  cred_blind m -> (forall e, cred_blind (h1 e)) ->
  (forall e, cred_blind (h2 e)) -> cred_blind (try_except2 m p1 h1 p2 h2).
Proof.
  intros Hm H1 H2 k s w. unfold try_except2. rewrite Hm.
  destruct (m w) as [[a|e|] w1]; simpl; try reflexivity.
  destruct (p1 e); [apply H1|destruct (p2 e); [apply H2|reflexivity]].
Qed.

Lemma blind_get_exchange : cred_blind get_exchange.
Proof. intros k s w. reflexivity. Qed.

Lemma blind_get_instance : cred_blind get_instance.
Proof. intros k s w. reflexivity. Qed.

Lemma blind_get_object l : cred_blind (get_object l).
Proof. intros k s w. reflexivity. Qed.

Lemma blind_pending_input : cred_blind pending_input.
Proof. intros k s w. reflexivity. Qed.

Lemma blind_print o : cred_blind (print o).
Proof. intros k s w. reflexivity. Qed.

Lemma blind_println x : cred_blind (println x).
Proof. intros k s w. reflexivity. Qed.

Lemma blind_print_all os : cred_blind (print_all os).
Proof. intros k s w. now rewrite !print_all_run. Qed.

Lemma blind_read_clock ext : cred_blind (read_clock ext).
Proof. intros k s w. reflexivity. Qed.

Lemma blind_Prompt_ask d : cred_blind (Prompt_ask d).
Proof.
  intros k s w. unfold Prompt_ask. simpl.
  destruct (stdin w) as [|[x| |] r]; reflexivity.
Qed.

Lemma blind_read_key : cred_blind read_key.
Proof.
  intros k s w. unfold read_key. simpl.
  destruct (stdin w) as [|[x| |] r]; reflexivity.
Qed.

Lemma blind_ask_loop {A} (accept : string -> option A) complain :
  cred_blind (ask_loop accept complain).
Proof.
  intros k s w. unfold ask_loop. simpl.
  destruct (ask_until accept complain (stdin w) (console w)) as [[x inp] shown].
  reflexivity.
Qed.

Lemma blind_Confirm_ask : cred_blind Confirm_ask.
Proof. apply blind_ask_loop. Qed.

Lemma blind_makedirs : cred_blind makedirs.
Proof.
  intros k s w. unfold makedirs. simpl. destruct (disk_error w); reflexivity.
Qed.

Lemma blind_write_json path doc : cred_blind (write_json path doc).
Proof.
  intros k s w. unfold write_json. simpl.
  destruct (disk_error w); reflexivity.
Qed.

Lemma blind_invoke ext l name args kwargs :
  cred_blind (invoke ext l name args kwargs).
Proof.
  intros k s w. unfold invoke.
  change (calls (set_creds k s w)) with (calls w).
  change (deref (set_creds k s w) l) with (deref w l).
  destruct (call_method ext (calls w) (deref w l) name args kwargs)
    as [[v|cls msg|] obj']; reflexivity.
Qed.

#[global] Hint Resolve blind_ret blind_raise blind_waiting blind_get_exchange
  blind_get_instance blind_get_object blind_pending_input blind_print
  blind_println blind_print_all blind_read_clock blind_Prompt_ask
  blind_read_key blind_ask_loop blind_Confirm_ask blind_makedirs
  blind_write_json blind_invoke : blind.

Ltac blind_step :=
  first
    [ solve [auto with blind]
    | apply blind_bind; [|intros ?]
    | apply blind_try_except; [|intros ?]
    | apply blind_try_except2; [|intros ?|intros ?]
    | match goal with
      | |- cred_blind (match ?x with _ => _ end) => destruct x
      end ].

Ltac blind_tac := repeat blind_step.

Lemma blind_mapM {A B} (f : A -> M B) l :
  (forall x, cred_blind (f x)) -> cred_blind (mapM f l).
Proof. intros Hf. induction l; simpl; blind_tac. Qed.

Section BlindTester.

Variable ext : external.

Lemma blind_get_available_endpoints : cred_blind get_available_endpoints.
Proof. unfold get_available_endpoints. blind_tac. Qed.

(** The three writers. *)
Lemma blind__save_endpoints_info_to_file endpoints :
  cred_blind (_save_endpoints_info_to_file ext endpoints).
Proof. unfold _save_endpoints_info_to_file. blind_tac. Qed.

Lemma blind__save_capability_info_to_file has_dict b :
  cred_blind (_save_capability_info_to_file ext has_dict b).
Proof. unfold _save_capability_info_to_file. blind_tac. Qed.

Lemma blind__save_response_to_file endpoint data info :
  cred_blind (_save_response_to_file ext endpoint data info).
Proof. unfold _save_response_to_file. blind_tac. Qed.

Hint Resolve blind_get_available_endpoints blind__save_endpoints_info_to_file
  blind__save_capability_info_to_file blind__save_response_to_file : blind.

(** The three operations that offer to save. *)
Lemma blind_display_endpoints : cred_blind (display_endpoints ext).
Proof. unfold display_endpoints. blind_tac. Qed.

Lemma blind_check_supported_endpoints :
  cred_blind (check_supported_endpoints ext).
Proof. unfold check_supported_endpoints. blind_tac. Qed.

Lemma blind_ask_param l param : cred_blind (ask_param ext l param).
Proof. unfold ask_param, first_markets. blind_tac. Qed.

Lemma blind_collect_params l params : forall args kwargs,
  cred_blind (collect_params ext l params args kwargs).
Proof.
  induction params as [|p params IH]; intros args kwargs; simpl.
  - auto with blind.
  - apply blind_bind; [apply blind_ask_param|].
    intros v. destruct (is_positional p); apply IH.
Qed.

Lemma blind_execute_endpoint l endpoint args kwargs :
  cred_blind (execute_endpoint ext l endpoint args kwargs).
Proof. unfold execute_endpoint. blind_tac. Qed.

Lemma blind_test_endpoint endpoint : cred_blind (test_endpoint ext endpoint).
Proof.
  unfold test_endpoint.
  apply blind_bind; [auto with blind|]. intros [l|]; [|auto with blind].
  apply blind_bind; [auto with blind|intros o].
  apply blind_bind; [blind_tac|intros mi].
  do 2 (apply blind_bind; [auto with blind|intros _]).
  apply blind_bind; [apply blind_collect_params|intros [args kwargs]].
  apply blind_execute_endpoint.
Qed.

End BlindTester.

Lemma cred_blind_files {A} (m : M A) w1 w2 :
  cred_blind m -> same_but_credentials w1 w2 ->
  fst (m w2) = fst (m w1) /\ files (snd (m w2)) = files (snd (m w1)).
Proof.
  intros Hm Hw. unfold same_but_credentials in Hw. rewrite Hw, Hm. now split.
Qed.

(** A write on a working disk: one more file, named after exchange,
    endpoint and time, holding the response document. *)
Lemma _save_response_to_file_ok ext w endpoint data info :
  disk_error w = None ->
  exists w',
    _save_response_to_file ext endpoint data info w = (Ok tt, w') /\
    files w'
    = files w
        ++ [("responses/" +:+
             ("ccxt_response_" +:+ str_opt (exchange (self w)) +:+ "_"
                +:+ replace_char "\" "_" (replace_char "/" "_" endpoint)
                +:+ "_" +:+ strftime ext (time_time ext (clock_reads w))
                +:+ ".json"),
             response_document
               (isoformat ext (time_time ext (S (clock_reads w))))
               (exchange (self w)) endpoint data info)].
Proof.
  intros Hd.
  unfold _save_response_to_file, try_except, bind, makedirs, write_json,
    read_clock, get_exchange, gets, println, print.
  simpl. repeat (rewrite Hd; simpl). eexists. split; reflexivity.
Qed.

(** What the success path of [execute_endpoint] writes when the operator
    asks to save: the response with the request metadata of the call. *)
Lemma execute_endpoint_saves ext w l endpoint args kwargs v obj' a r :
  call_method ext (calls w) (deref w l) endpoint args kwargs
  = (Returns v, obj') ->
  v <> PNone ->
  stdin w = Reply a :: r ->
  confirm_reply a = Some true ->
  disk_error w = None ->
  exists w',
    execute_endpoint ext l endpoint args kwargs w = (Ok tt, w') /\
    files w'
    = files w
        ++ [("responses/" +:+
             ("ccxt_response_" +:+ str_opt (exchange (self w)) +:+ "_"
                +:+ replace_char "\" "_" (replace_char "/" "_" endpoint)
                +:+ "_" +:+ strftime ext (time_time ext (clock_reads w))
                +:+ ".json"),
             response_document
               (isoformat ext (time_time ext (S (clock_reads w))))
               (exchange (self w)) endpoint v
               (make_request_info ext (exchange (self w)) endpoint args
                  kwargs))].
Proof.
  intros Hcall Hv Hin Hb Hdisk.
  assert (Htail :
    forall w0, stdin w0 = Reply a :: r -> disk_error w0 = None ->
      exists w',
        (print (SyntaxOut (json_dumps ext true v)) ;;;
         print_all (response_summary v) ;;;
         println (nl +:+ rule60) ;;;
         yes <- Confirm_ask ;;
         if yes
         then _save_response_to_file ext endpoint v
                (make_request_info ext (exchange (self w0)) endpoint
                   args kwargs)
         else ret tt) w0 = (Ok tt, w') /\
        files w'
        = files w0
            ++ [("responses/" +:+
                 ("ccxt_response_" +:+ str_opt (exchange (self w0)) +:+ "_"
                    +:+ replace_char "\" "_" (replace_char "/" "_" endpoint)
                    +:+ "_" +:+ strftime ext (time_time ext (clock_reads w0))
                    +:+ ".json"),
                 response_document
                   (isoformat ext (time_time ext (S (clock_reads w0))))
                   (exchange (self w0)) endpoint v
                   (make_request_info ext (exchange (self w0)) endpoint
                      args kwargs))]).
  { intros w0 Hin0 Hd0.
    erewrite bind_Ok by reflexivity.
    erewrite bind_Ok by apply print_all_run.
    erewrite bind_Ok by reflexivity.
    erewrite bind_Ok
      by (apply (Confirm_ask_reply _ a true r); [exact Hin0|exact Hb]).
    match goal with
    | |- exists w', (if true then ?m else _) ?W = _ /\ _ =>
        destruct (_save_response_to_file_ok ext W endpoint v
                    (make_request_info ext (exchange (self w0)) endpoint
                       args kwargs) Hd0) as (w' & Hrun & Hf)
    end.
    exists w'. split; [exact Hrun|exact Hf]. }
  unfold execute_endpoint, try_except.
  erewrite bind_Ok by reflexivity.
  erewrite bind_Ok
    by (unfold invoke;
        change (calls (set_console _ w)) with (calls w);
        change (deref (set_console _ w) l) with (deref w l);
        rewrite Hcall; reflexivity).
  erewrite bind_Ok by reflexivity.
  erewrite bind_Ok by reflexivity. erewrite bind_Ok by reflexivity.
  match goal with
  | |- context [match ?c with _ => _ end] =>
      assert (Hc : exists w', c = (Ok tt, w') /\
          files w' = files w
            ++ [("responses/" +:+
                 ("ccxt_response_" +:+ str_opt (exchange (self w)) +:+ "_"
                    +:+ replace_char "\" "_" (replace_char "/" "_" endpoint)
                    +:+ "_" +:+ strftime ext (time_time ext (clock_reads w))
                    +:+ ".json"),
                 response_document
                   (isoformat ext (time_time ext (S (clock_reads w))))
                   (exchange (self w)) endpoint v
                   (make_request_info ext (exchange (self w)) endpoint
                      args kwargs))])
  end.
  { destruct v; try congruence;
      match goal with
      | |- exists w', ?m ?W = _ /\ _ => exact (Htail W Hin Hdisk)
      end. }
  destruct Hc as (w' & -> & Hf). exists w'. now split.
Qed.



(* ===================================================================== *)
(** ** Cleanup *)
(* ===================================================================== *)

Lemma truthy_opt_false_blank o : truthy_opt o = false -> blank o.
Proof.
  destruct o as [x|]; [|now left]. simpl. unfold nonempty.
  destruct (String.eqb_spec x ""); [intros _; right; now subst|discriminate].
Qed.

Lemma clear_object_credentials_blank o :
  blank_attr (clear_object_credentials o) "apiKey" /\
  blank_attr (clear_object_credentials o) "secret".
Proof.
  unfold blank_attr, clear_object_credentials. simpl.
  destruct (attrs o !! "apiKey") eqn:Ek.
  - destruct (<["apiKey" := PNone]> (attrs o) !! "secret") eqn:Es.
    + split; right; now simplify_map_eq.
    + split; [right; now simplify_map_eq|now left].
  - destruct (attrs o !! "secret") eqn:Es.
    + split; [left|right]; now simplify_map_eq.
    + split; now left.
Qed.

(** [cleanup] always returns; afterwards the tester holds no credentials,
    no client and no exchange name, and the client object it held has its
    two credential attributes absent or [None]. *)
Lemma cleanup_clears w :
  exists w',
    cleanup w = (Ok tt, w') /\
    blank (_api_key (self w')) /\
    blank (_secret (self w')) /\
    exchange_instance (self w') = None /\
    exchange (self w') = None /\
    match exchange_instance (self w) with
    | Some l =>
        blank_attr (deref w' l) "apiKey" /\ blank_attr (deref w' l) "secret"
    | None => True
    end.
Proof.
  destruct w as [[ex inst k s] h i c f d cr cl].
  unfold cleanup, _clear_credentials, bind, get_api_key, get_secret,
    get_instance, gets, set_api_key, set_secret, set_instance, set_exchange,
    ret.
  simpl.
  destruct (truthy_opt k) eqn:Hk; simpl;
    destruct (truthy_opt s) eqn:Hs; simpl;
    destruct inst as [l|]; simpl;
    (eexists; split; [reflexivity|]); simpl;
    repeat match goal with
           | |- _ /\ _ => split
           | |- blank None => now left
           | |- blank _ => now apply truthy_opt_false_blank
           | |- None = None => reflexivity
           | |- True => exact I
           end;
    unfold deref; simpl; rewrite lookup_alter_eq;
    destruct (h !! l) as [o|]; simpl;
    try apply clear_object_credentials_blank; now left.
Qed.

Lemma try_finally_cleanup {A} (m : M A) w :
  fst (try_finally m cleanup w) = Waiting \/
  exists w0 w',
    cleanup w0 = (Ok tt, w') /\ snd (try_finally m cleanup w) = w'.
Proof.
  unfold try_finally. destruct (m w) as [[a|e|] w0]; [| |now left];
    destruct (cleanup_clears w0) as (w' & Hc & _); rewrite Hc;
    right; exists w0, w'; now split.
Qed.

(** Where [main] stops: waiting for input, or through [cleanup]. *)
Lemma main_exits_through_cleanup ext w :
  fst (main ext w) = Waiting \/
  exists w0 w', cleanup w0 = (Ok tt, w') /\ snd (main ext w) = w'.
Proof.
  unfold main.
  erewrite bind_Ok by reflexivity. erewrite bind_Ok by reflexivity.
  erewrite bind_Ok by reflexivity.
  apply try_finally_cleanup.
Qed.

(** C5.  [cleanup] always returns, and after it the credential fields read
    back as absent or empty: the tester's [_api_key] and [_secret], and the
    [apiKey] and [secret] attributes of the client object the tester held,
    whatever was invoked before.  Every way [main] stops other than waiting
    for more input, be it the exit action, the operator's interrupt or an
    unexpected error, ends in a state produced by [cleanup], with the
    credential fields blank and no client held. *)
Theorem C5_cleanup_on_every_exit ext w :
  (exists w',
      cleanup w = (Ok tt, w') /\
      blank (_api_key (self w')) /\
      blank (_secret (self w')) /\
      exchange_instance (self w') = None /\
      exchange (self w') = None /\
      match exchange_instance (self w) with
      | Some l =>
          blank_attr (deref w' l) "apiKey" /\ blank_attr (deref w' l) "secret"
      | None => True
      end) /\
  (fst (main ext w) = Waiting \/
   exists w0,
     cleanup w0 = (Ok tt, snd (main ext w)) /\
     blank (_api_key (self (snd (main ext w)))) /\
     blank (_secret (self (snd (main ext w)))) /\
     exchange_instance (self (snd (main ext w))) = None /\
     match exchange_instance (self w0) with
     | Some l =>
         blank_attr (deref (snd (main ext w)) l) "apiKey" /\
         blank_attr (deref (snd (main ext w)) l) "secret"
     | None => True
     end).
Proof.
  split; [apply cleanup_clears|].
  destruct (main_exits_through_cleanup ext w) as [Hw|(w0 & w' & Hc & Hm)];
    [now left|right].
  exists w0. rewrite Hm.
  destruct (cleanup_clears w0) as (w'' & Hc' & Hk & Hs & Hi & _ & Ho).
  rewrite Hc in Hc'. injection Hc' as <-. repeat split; auto.
Qed.

(* ===================================================================== *)
(** ** Set-up failures *)
(* ===================================================================== *)

Lemma select_exchange_reply ext w n r :
  stdin w = Reply n :: r ->
  chosen_exchange n ∈ get_available_exchanges ext ->
  select_exchange ext w =
    (Ok (chosen_exchange n),
     set_stdin r
       (set_console
          (console w
             ++ [TableOut "Available Exchanges"
                   (two_columns
                      (List.filter
                         (fun ex =>
                            bool_decide (ex ∈ get_available_exchanges ext))
                         popular)
                      (List.filter
                         (fun ex => negb (bool_decide (ex ∈ popular)))
                         (get_available_exchanges ext)))]) w)).
Proof.
  intros Hin Hn. unfold select_exchange.
  erewrite bind_Ok by reflexivity.
  unfold ask_loop. change (stdin (set_console _ w)) with (stdin w).
  rewrite Hin. cbn [ask_until]. fold (chosen_exchange n).
  rewrite bool_decide_eq_true_2 by exact Hn. reflexivity.
Qed.

(** A failing set-up stores the credentials it was given, prints the
    error and raises it again; it installs no client. *)
Lemma setup_exchange_fails ext w name k s e :
  setup_fails ext name k s e ->
  setup_exchange ext name k s w =
    (Raise e,
     set_console
       (console w
          ++ [Line ("[red]Error setting up exchange: " +:+ str_exn e
                      +:+ "[/red]")])
       (set_self (with_secret (Some s) (with_api_key (Some k) (self w))) w)).
Proof.
  intros [He Hf]. unfold setup_exchange, try_except.
  erewrite bind_Ok by reflexivity. erewrite bind_Ok by reflexivity.
  destruct (ccxt_getattr ext name) as [c|].
  - erewrite bind_Ok by reflexivity.
    erewrite bind_Raise by (unfold construct; rewrite Hf; reflexivity).
    rewrite He. reflexivity.
  - erewrite bind_Raise by reflexivity. subst e. reflexivity.
Qed.

Lemma cleanup_frame w :
  exists w',
    cleanup w = (Ok tt, w') /\
    stdin w' = stdin w /\ console w' = console w /\ files w' = files w /\
    (exchange_instance (self w) = None -> heap w' = heap w).
Proof.
  destruct w as [[ex inst k s] h i c f d cr cl].
  unfold cleanup, _clear_credentials, bind, get_api_key, get_secret,
    get_instance, gets, set_api_key, set_secret, set_instance, set_exchange,
    ret.
  simpl.
  destruct (truthy_opt k); simpl; destruct (truthy_opt s); simpl;
    destruct inst as [l|]; simpl; eexists; (split; [reflexivity|]);
    simpl; repeat split; congruence.
Qed.




(** A failure of [load_markets] alone is not a failed set-up: it is warned
    about, and the session keeps its client. *)
Lemma setup_exchange_load_markets_warning ext w name k s c obj mi cls msg obj' :
  ccxt_getattr ext name = Some c ->
  c (make_config k s) = inl obj ->
  find_method "load_markets" (methods obj) = Some mi ->
  call_method ext (calls w) obj "load_markets" [] [] = (Fails cls msg, obj') ->
  exists w',
    setup_exchange ext name k s w = (Ok tt, w') /\
    exchange_instance (self w') = Some (fresh_loc (heap w)) /\
    exchange (self w') = Some name /\
    console w'
    = console w
        ++ [Line ("[yellow]⚠ Warning: Could not load markets: " +:+ msg
                    +:+ "[/yellow]");
            Line "[yellow]Some endpoints might not work without proper authentication[/yellow]"].
Proof.
  intros Hg Hc Hm Hcall.
  destruct w as [t h i co f d cr cl]. simpl in Hcall.
  unfold setup_exchange, try_except.
  erewrite bind_Ok by reflexivity. erewrite bind_Ok by reflexivity.
  rewrite Hg. erewrite bind_Ok by reflexivity.
  erewrite bind_Ok by (unfold construct; rewrite Hc; reflexivity).
  erewrite bind_Ok by reflexivity. erewrite bind_Ok by reflexivity.
  erewrite bind_Ok by reflexivity.
  unfold deref; cbn [heap set_self set_heap self].
  rewrite lookup_insert_eq. cbn [default from_option id]. rewrite Hm.
  unfold invoke, bind, println, print, deref.
  cbn [heap set_self set_heap self calls set_console console].
  rewrite lookup_insert_eq. cbn [default from_option id]. rewrite Hcall.
  simpl. eexists. split; [reflexivity|]. simpl.
  repeat split. now rewrite <- app_assoc.
Qed.

(* ===================================================================== *)
(** ** The loop bounds are never what stops a run *)
(* ===================================================================== *)

Create HintDb honest.

Lemma honest_honest_below {A} (m : M A) n : honest m -> honest_below m n.
Proof. intros H w _. apply H. Qed.

Lemma honest_still {A} (f : world -> res A * world) :
  (forall w, stdin (snd (f w)) = stdin w /\ fst (f w) <> Waiting) -> honest f.
Proof. intros H w. destruct (H w) as [E N]. split; [now rewrite E|tauto]. Qed.

Lemma honest_ret {A} (a : A) : honest (ret a).
Proof. apply honest_still. intros w. now split. Qed.

Lemma honest_raise {A} e : honest (@raise A e).
Proof. apply honest_still. intros w. now split. Qed.

Lemma honest_gets {A} (f : world -> A) : honest (gets f).
Proof. apply honest_still. intros w. now split. Qed.

Lemma honest_print o : honest (print o).
Proof. apply honest_still. intros w. now split. Qed.

Lemma honest_println x : honest (println x).
Proof. apply honest_print. Qed.

Lemma honest_print_all os : honest (print_all os).
Proof. apply honest_still. intros w. rewrite print_all_run. now split. Qed.

Lemma honest_put_self t : honest (put_self t).
Proof. apply honest_still. intros w. now split. Qed.

Lemma honest_set_exchange x : honest (set_exchange x).
Proof. apply honest_still. intros w. now split. Qed.

Lemma honest_set_instance x : honest (set_instance x).
Proof. apply honest_still. intros w. now split. Qed.

Lemma honest_set_api_key x : honest (set_api_key x).
Proof. apply honest_still. intros w. now split. Qed.

Lemma honest_set_secret x : honest (set_secret x).
Proof. apply honest_still. intros w. now split. Qed.

Lemma honest_read_clock ext : honest (read_clock ext).
Proof. apply honest_still. intros w. now split. Qed.

Lemma honest_makedirs : honest makedirs.
Proof.
  apply honest_still. intros w. unfold makedirs.
  destruct (disk_error w); now split.
Qed.

Lemma honest_write_json path doc : honest (write_json path doc).
Proof.
  apply honest_still. intros w. unfold write_json.
  destruct (disk_error w); now split.
Qed.

Lemma honest_invoke ext l name args kwargs :
  honest (invoke ext l name args kwargs).
Proof.
  apply honest_still. intros w. unfold invoke.
  destruct (call_method ext (calls w) (deref w l) name args kwargs)
    as [[v|cls msg|] obj']; now split.
Qed.

Lemma honest_construct c config : honest (construct c config).
Proof.
  apply honest_still. intros w. unfold construct.
  destruct (c config); now split.
Qed.

Lemma honest_alter_heap f l :
  honest (fun w => (Ok tt, set_heap (alter f l (heap w)) w)).
Proof. apply honest_still. intros w. now split. Qed.

Lemma Prompt_ask_reads d w :
  (fst (Prompt_ask d w) = Waiting /\ stdin (snd (Prompt_ask d w)) = []) \/
  (fst (Prompt_ask d w) <> Waiting /\
   length (stdin (snd (Prompt_ask d w))) < length (stdin w))%nat.
Proof.
  unfold Prompt_ask. destruct (stdin w) as [|[x| |] r] eqn:E; simpl;
    [left; now split| | |]; right; (split; [discriminate|lia]).
Qed.

Lemma read_key_reads w :
  (fst (read_key w) = Waiting /\ stdin (snd (read_key w)) = []) \/
  (fst (read_key w) <> Waiting /\
   length (stdin (snd (read_key w))) < length (stdin w))%nat.
Proof.
  unfold read_key. destruct (stdin w) as [|[x| |] r] eqn:E; simpl;
    [left; now split| | |]; right; (split; [discriminate|lia]).
Qed.

Lemma ask_until_reads {A} (accept : string -> option A) complain inp :
  forall shown,
    let '(x, inp', _) := ask_until accept complain inp shown in
    (x = Waiting /\ inp' = []) \/
    (x <> Waiting /\ length inp' < length inp)%nat.
Proof.
  induction inp as [|[s| |] r IH]; intros shown; simpl.
  - left. now split.
  - destruct (accept s).
    + right. split; [discriminate|lia].
    + specialize (IH (shown ++ [complain s])).
      destruct (ask_until accept complain r (shown ++ [complain s]))
        as [[x inp'] shown'].
      destruct IH as [IH|[IH1 IH2]]; [now left|right].
      split; [exact IH1|lia].
  - right. split; [discriminate|lia].
  - right. split; [discriminate|lia].
Qed.

Lemma ask_loop_reads {A} (accept : string -> option A) complain w :
  (fst (ask_loop accept complain w) = Waiting /\
   stdin (snd (ask_loop accept complain w)) = []) \/
  (fst (ask_loop accept complain w) <> Waiting /\
   length (stdin (snd (ask_loop accept complain w))) < length (stdin w))%nat.
Proof.
  unfold ask_loop.
  pose proof (ask_until_reads accept complain (stdin w) (console w)) as H.
  destruct (ask_until accept complain (stdin w) (console w)) as [[x inp'] shown'].
  exact H.
Qed.

Lemma reads_honest {A} (m : M A) :
  (forall w,
      (fst (m w) = Waiting /\ stdin (snd (m w)) = []) \/
      (fst (m w) <> Waiting /\
       length (stdin (snd (m w))) < length (stdin w))%nat) ->
  honest m /\ reading m.
Proof.
  intros H. split; intros w; destruct (H w) as [[H1 H2]|[H1 H2]].
  - split; [rewrite H2; simpl; lia|auto].
  - split; [lia|tauto].
  - now left.
  - now right.
Qed.

Lemma reading_consuming {A} (m : M A) : reading m -> consuming m.
Proof. intros H w a E. destruct (H w) as [Hw|Hl]; [congruence|exact Hl]. Qed.

Lemma honest_Prompt_ask d : honest (Prompt_ask d).
Proof. apply (reads_honest _ (Prompt_ask_reads d)). Qed.

Lemma reading_Prompt_ask d : reading (Prompt_ask d).
Proof. apply (reads_honest _ (Prompt_ask_reads d)). Qed.

Lemma honest_read_key : honest read_key.
Proof. apply (reads_honest _ read_key_reads). Qed.

Lemma reading_read_key : reading read_key.
Proof. apply (reads_honest _ read_key_reads). Qed.

Lemma honest_ask_loop {A} (accept : string -> option A) complain :
  honest (ask_loop accept complain).
Proof. apply (reads_honest _ (ask_loop_reads accept complain)). Qed.

Lemma reading_ask_loop {A} (accept : string -> option A) complain :
  reading (ask_loop accept complain).
Proof. apply (reads_honest _ (ask_loop_reads accept complain)). Qed.

Lemma honest_Confirm_ask : honest Confirm_ask.
Proof. apply honest_ask_loop. Qed.

Lemma honest_below_bind {A B} (m : M A) (k : A -> M B) n :
  honest m -> (forall a, honest_below (k a) n) -> honest_below (bind m k) n.
Proof.
  intros Hm Hk w Hn. unfold honest_at, bind.
  destruct (Hm w) as [Hl Hw].
  destruct (m w) as [[a|e|] w1]; simpl in *; [|split; [lia|discriminate]|auto].
  destruct (Hk a w1) as [Hl' Hw']; [lia|]. split; [lia|exact Hw'].
Qed.

Lemma honest_bind {A B} (m : M A) (k : A -> M B) :
  honest m -> (forall a, honest (k a)) -> honest (bind m k).
Proof.
  intros Hm Hk w.
  apply (honest_below_bind m k (length (stdin w))); auto.
  intros a. now apply honest_honest_below.
Qed.

(** After a step that reads an input, one pending input less bounds the
    rest. *)
Lemma honest_below_bind_consuming {A B} (m : M A) (k : A -> M B) n :
  honest m -> consuming m ->
  (forall a n', n = S n' -> honest_below (k a) n') ->
  honest_below (bind m k) n.
Proof.
  intros Hm Hc Hk w Hn. unfold honest_at, bind.
  destruct (Hm w) as [Hl Hw]. specialize (Hc w).
  destruct (m w) as [[a|e|] w1]; simpl in *; [|split; [lia|discriminate]|auto].
  specialize (Hc a eq_refl).
  destruct n as [|n']; [lia|].
  destruct (Hk a n' eq_refl w1) as [Hl' Hw']; [lia|]. split; [lia|exact Hw'].
Qed.

Lemma honest_try_except {A} (m : M A) p h :
  honest m -> (forall e, honest (h e)) -> honest (try_except m p h).
Proof.
  intros Hm Hh w. unfold honest_at, try_except.
  destruct (Hm w) as [Hl Hw].
  destruct (m w) as [[a|e|] w1]; simpl in *; [split; [lia|discriminate]| |auto].
  destruct (p e); [|split; [simpl; lia|discriminate]].
  destruct (Hh e w1) as [Hl' Hw']. split; [lia|exact Hw'].
Qed.

Lemma honest_try_except2 {A} (m : M A) p1 h1 p2 h2 :
  honest m -> (forall e, honest (h1 e)) -> (forall e, honest (h2 e)) ->
  honest (try_except2 m p1 h1 p2 h2).
Proof.
  intros Hm H1 H2 w. unfold honest_at, try_except2.
  destruct (Hm w) as [Hl Hw].
  destruct (m w) as [[a|e|] w1]; simpl in *; [split; [lia|discriminate]| |auto].
  destruct (p1 e).
  - destruct (H1 e w1) as [Hl' Hw']. split; [lia|exact Hw'].
  - destruct (p2 e); [|split; [simpl; lia|discriminate]].
    destruct (H2 e w1) as [Hl' Hw']. split; [lia|exact Hw'].
Qed.

Lemma honest_try_finally {A} (m : M A) f :
  honest m -> honest f -> honest (try_finally m f).
Proof.
  intros Hm Hf w. unfold honest_at, try_finally.
  destruct (Hm w) as [Hl Hw].
  destruct (m w) as [[a|e|] w1]; simpl in *; [| |auto];
    destruct (Hf w1) as [Hl' Hw'];
    destruct (f w1) as [[u|e'|] w2]; simpl in *;
    (split; [lia|first [discriminate|auto]]).
Qed.

(** A reading step followed by anything reads; so does a guarded reading
    step whose handlers add no input. *)
Lemma reading_bind_l {A B} (m : M A) (k : A -> M B) :
  reading m -> (forall a, honest (k a)) -> reading (bind m k).
Proof.
  intros Hc Hk w. unfold bind. specialize (Hc w).
  destruct (m w) as [[a|e|] w1]; simpl in *;
    [|destruct Hc; [discriminate|now right]|now left].
  destruct Hc as [Hc|Hc]; [discriminate|].
  destruct (Hk a w1) as [Hl _]. right. lia.
Qed.

Lemma reading_try_except2 {A} (m : M A) p1 h1 p2 h2 :
  reading m -> (forall e, honest (h1 e)) -> (forall e, honest (h2 e)) ->
  reading (try_except2 m p1 h1 p2 h2).
Proof.
  intros Hc H1 H2 w. unfold try_except2. specialize (Hc w).
  destruct (m w) as [[a|e|] w1]; simpl in *; [exact Hc| |now left].
  destruct Hc as [Hc|Hc]; [discriminate|].
  destruct (p1 e).
  - destruct (H1 e w1) as [Hl _]. right. lia.
  - destruct (p2 e); [|now right].
    destruct (H2 e w1) as [Hl _]. right. lia.
Qed.

(** Steps that add no input, followed by one that reads when it returns. *)
Lemma consuming_bind_r {A B} (m : M A) (k : A -> M B) :
  honest m -> (forall a, consuming (k a)) -> consuming (bind m k).
Proof.
  intros Hm Hk w b. unfold bind. destruct (Hm w) as [Hl _].
  destruct (m w) as [[a|e|] w1]; simpl in *; try discriminate.
  intros E. specialize (Hk a w1 b E). lia.
Qed.

#[global] Hint Resolve honest_ret honest_raise honest_gets honest_print
  honest_println honest_print_all honest_put_self honest_set_exchange
  honest_set_instance honest_set_api_key honest_set_secret honest_read_clock
  honest_makedirs honest_write_json honest_invoke honest_construct
  honest_alter_heap honest_Prompt_ask honest_read_key honest_ask_loop
  honest_Confirm_ask : honest.

Ltac honest_step :=
  first
    [ solve [auto with honest]
    | apply honest_bind; [|intros ?]
    | apply honest_try_except; [|intros ?]
    | apply honest_try_except2; [|intros ?|intros ?]
    | apply honest_try_finally
    | match goal with
      | |- honest (match ?x with _ => _ end) => destruct x
      end ].

Ltac honest_tac :=
  unfold get_exchange, get_instance, get_api_key, get_secret, get_object,
    pending_input;
  repeat honest_step.

Lemma honest_mapM {A B} (f : A -> M B) l :
  (forall x, honest (f x)) -> honest (mapM f l).
Proof. intros Hf. induction l; simpl; honest_tac. Qed.

Section HonestTester.

Variable ext : external.

Lemma honest_get_available_endpoints : honest get_available_endpoints.
Proof. unfold get_available_endpoints. honest_tac. Qed.

Lemma honest__save_endpoints_info_to_file endpoints :
  honest (_save_endpoints_info_to_file ext endpoints).
Proof. unfold _save_endpoints_info_to_file. honest_tac. Qed.

Lemma honest__save_capability_info_to_file has_dict b :
  honest (_save_capability_info_to_file ext has_dict b).
Proof. unfold _save_capability_info_to_file. honest_tac. Qed.

Lemma honest__save_response_to_file endpoint data info :
  honest (_save_response_to_file ext endpoint data info).
Proof. unfold _save_response_to_file. honest_tac. Qed.

Hint Resolve honest_get_available_endpoints
  honest__save_endpoints_info_to_file honest__save_capability_info_to_file
  honest__save_response_to_file : honest.

Lemma honest_display_endpoints : honest (display_endpoints ext).
Proof. unfold display_endpoints. honest_tac. Qed.

Lemma honest_check_supported_endpoints :
  honest (check_supported_endpoints ext).
Proof. unfold check_supported_endpoints. honest_tac. Qed.

Lemma honest__get_endpoint_support_status endpoint :
  honest (_get_endpoint_support_status endpoint).
Proof. unfold _get_endpoint_support_status. honest_tac. Qed.

Hint Resolve honest__get_endpoint_support_status : honest.

Lemma honest_page_rows start_idx current_methods :
  honest (page_rows start_idx current_methods).
Proof. unfold page_rows. apply honest_mapM. intros i. honest_tac. Qed.

Lemma honest_pick_by_number all_methods page full_choice :
  honest (pick_by_number all_methods page full_choice).
Proof. unfold pick_by_number. honest_tac. Qed.

Hint Resolve honest_page_rows honest_pick_by_number : honest.

Lemma honest_select_round all_methods page :
  honest (select_round all_methods page).
Proof. unfold select_round. honest_tac. Qed.

(** A round of the selector that returns has read a key. *)
Lemma consuming_select_round all_methods page :
  consuming (select_round all_methods page).
Proof.
  unfold select_round.
  repeat (apply consuming_bind_r; [honest_tac|intros ?]).
  apply reading_consuming, reading_try_except2;
    [|intros; honest_tac|intros; honest_tac].
  apply reading_bind_l; [apply (reads_honest _ read_key_reads)|].
  intros key. honest_tac.
Qed.

Lemma honest_below_select_loop all_methods fuel : forall page,
  honest_below (select_loop (S fuel) all_methods page) fuel.
Proof.
  induction fuel as [|fuel IH]; intros page;
    change (select_loop (S ?f) all_methods page)
      with (r <- select_round all_methods page ;;
            match r with
            | Return x => ret x
            | Continue page' => select_loop f all_methods page'
            end);
    (apply honest_below_bind_consuming;
     [apply honest_select_round|apply consuming_select_round|]);
    intros [x|page'] n' Hn; try discriminate;
    try (apply honest_honest_below, honest_ret).
  injection Hn as <-. apply IH.
Qed.

Lemma honest_select_endpoint : honest select_endpoint.
Proof.
  unfold select_endpoint.
  apply honest_bind; [apply honest_get_available_endpoints|intros endpoints].
  intros w. unfold bind, pending_input, gets.
  apply honest_below_select_loop. reflexivity.
Qed.

Lemma honest_ask_param l param : honest (ask_param ext l param).
Proof. unfold ask_param, first_markets. honest_tac. Qed.

Lemma honest_collect_params l params : forall args kwargs,
  honest (collect_params ext l params args kwargs).
Proof.
  induction params as [|p params IH]; intros args kwargs; simpl.
  - auto with honest.
  - apply honest_bind; [apply honest_ask_param|].
    intros v. destruct (is_positional p); apply IH.
Qed.

Lemma honest_execute_endpoint l endpoint args kwargs :
  honest (execute_endpoint ext l endpoint args kwargs).
Proof. unfold execute_endpoint. honest_tac. Qed.

Lemma honest_test_endpoint endpoint : honest (test_endpoint ext endpoint).
Proof.
  unfold test_endpoint.
  apply honest_bind; [honest_tac|]. intros [l|]; [|auto with honest].
  apply honest_bind; [honest_tac|intros o].
  apply honest_bind; [honest_tac|intros mi].
  do 2 (apply honest_bind; [auto with honest|intros _]).
  apply honest_bind; [apply honest_collect_params|intros [args kwargs]].
  apply honest_execute_endpoint.
Qed.

Lemma honest_cleanup : honest cleanup.
Proof. unfold cleanup, _clear_credentials. honest_tac. Qed.

Lemma honest_select_exchange : honest (select_exchange ext).
Proof. unfold select_exchange. honest_tac. Qed.

Lemma honest_setup_exchange name k s : honest (setup_exchange ext name k s).
Proof. unfold setup_exchange. honest_tac. Qed.

Hint Resolve honest_display_endpoints honest_check_supported_endpoints
  honest_select_endpoint honest_test_endpoint honest_cleanup
  honest_select_exchange honest_setup_exchange : honest.

Lemma honest_below_main_loop fuel : honest_below (main_loop ext (S fuel)) fuel.
Proof.
  induction fuel as [|fuel IH];
    change (main_loop ext (S ?f))
      with (println (nl +:+ rule60) ;;;
            println "[bold]Available Actions:[/bold]" ;;;
            println "1. View all available endpoints" ;;;
            println "2. Check supported endpoints only" ;;;
            println "3. Test a specific endpoint" ;;;
            println "4. Change exchange" ;;;
            println "5. Exit" ;;;
            choice <- Prompt_ask_choices ["1"; "2"; "3"; "4"; "5"] "3" ;;
            if String.eqb choice "1" then
              display_endpoints ext ;;; main_loop ext f
            else if String.eqb choice "2" then
              check_supported_endpoints ext ;;; main_loop ext f
            else if String.eqb choice "3" then
              endpoint <- select_endpoint ;;
              (if truthy_opt endpoint
               then test_endpoint ext (default "" endpoint)
               else println "[yellow]Returning to main menu.[/yellow]") ;;;
              main_loop ext f
            else if String.eqb choice "4" then
              cleanup ;;;
              exchange_name <- select_exchange ext ;;
              api_key <- Prompt_ask "" ;;
              secret_key <- Prompt_ask "" ;;
              setup_exchange ext exchange_name api_key secret_key ;;;
              main_loop ext f
            else if String.eqb choice "5" then
              println "[green]Goodbye![/green]"
            else main_loop ext f);
    do 7 (apply honest_below_bind; [apply honest_println|intros _]);
    (apply honest_below_bind_consuming;
     [apply honest_ask_loop|apply reading_consuming, reading_ask_loop|]);
    intros choice n' Hn; try discriminate.
  injection Hn as <-.
  repeat match goal with
         | |- honest_below (if ?c then _ else _) _ => destruct c
         | |- honest_below (main_loop ext (S fuel)) fuel => exact IH
         | |- honest_below (bind _ _) _ =>
             apply honest_below_bind; [honest_tac|intros ?]
         | |- honest_below _ _ => apply honest_honest_below; honest_tac
         end.
Qed.

Lemma honest_main_body : honest (main_body ext).
Proof.
  unfold main_body.
  do 9 (apply honest_bind; [solve [auto with honest]|intros ?]).
  intros w.
  change (honest_at (main_loop ext (S (length (stdin w)))) w).
  apply honest_below_main_loop. lia.
Qed.

Lemma honest_main : honest (main ext).
Proof.
  unfold main.
  do 3 (apply honest_bind; [solve [auto with honest]|intros _]).
  apply honest_try_finally; [|apply honest_cleanup].
  apply honest_try_except2; [apply honest_main_body| |]; intros e.
  - apply honest_println.
  - apply honest_bind; [apply honest_println|intros _].
    apply honest_bind; [apply honest_Confirm_ask|intros [|]];
      auto with honest.
Qed.

End HonestTester.

(* ===================================================================== *)
(** ** Further properties: endpoint grouping and exchange selection *)
(* ===================================================================== *)

Lemma endpoint_category_cases method :
  endpoint_category method ∈ ["Public"; "Market Data"; "Trading"; "Account"; "Other"].
Proof.
  unfold endpoint_category.
  repeat match goal with
         | |- context [if ?c then _ else _] => destruct c
         end; repeat constructor.
Qed.

Lemma elem_of_List_filter {A} (f : A -> bool) (l : list A) x :
  x ∈ List.filter f l <-> x ∈ l /\ f x = true.
Proof. rewrite !list_elem_of_In. apply filter_In. Qed.

Lemma lists_get_map_filter (f : string -> string) (ms cats : list string) c :
  c ∈ cats ->
  lists_get c
    (map (fun category =>
            (category, List.filter (fun m => String.eqb (f m) category) ms))
       cats)
  = List.filter (fun m => String.eqb (f m) c) ms.
Proof.
  induction cats as [|c' cats IH]; intros Hc; [inversion Hc|].
  simpl. destruct (String.eqb_spec c' c) as [->|Hne]; [reflexivity|].
  apply IH. apply elem_of_cons in Hc as [->|Hc]; [congruence|exact Hc].
Qed.

Lemma lists_get_absent (g : string -> list string) (cats : list string) c :
  c ∉ cats -> lists_get c (map (fun category => (category, g category)) cats) = [].
Proof.
  induction cats as [|c' cats IH]; intros Hc; [reflexivity|].
  apply not_elem_of_cons in Hc as [Hne Hc]. simpl.
  destruct (String.eqb_spec c' c) as [->|_]; [congruence|now apply IH].
Qed.

Lemma group_sizes (ms : list string) :
  sum_lengths
    (map (fun category =>
            (category,
             List.filter
               (fun m => String.eqb (endpoint_category m) category) ms))
       ["Public"; "Market Data"; "Trading"; "Account"; "Other"])
  = length ms.
Proof.
  induction ms as [|m ms IH]; [reflexivity|].
  unfold sum_lengths in *. simpl in *.
  pose proof (endpoint_category_cases m) as Hc.
  repeat (apply elem_of_cons in Hc as [->|Hc]; [simpl; lia|]).
  inversion Hc.
Qed.

Lemma elem_of_group_endpoints o name :
  name ∈ names_of (group_endpoints o) <->
  name ∈ map fst (methods o) /\ startswith "_" name = false.
Proof.
  unfold names_of, group_endpoints. fold (public_methods o).
  simpl. rewrite !app_nil_r || idtac.
  rewrite !elem_of_app, !elem_of_List_filter.
  unfold public_methods. rewrite elem_of_List_filter, negb_true_iff.
  split.
  - intros H. repeat destruct H as [H|H]; tauto.
  - intros [H1 H2].
    pose proof (endpoint_category_cases name) as Hc.
    repeat (apply elem_of_cons in Hc as [Hc|Hc];
            [rewrite Hc; simpl; tauto|]).
    inversion Hc.
Qed.

(** X1.  [get_available_endpoints] files every public callable of the client
    under exactly one of its five categories: a name is in the list of a
    category exactly when it is a public callable and the if/elif chain
    sends it there, names starting with an underscore are in none, and the
    five lists together are as long as the list of public callables, so
    nothing is lost or listed twice. *)
Theorem group_endpoints_partition o :
  map fst (group_endpoints o)
  = ["Public"; "Market Data"; "Trading"; "Account"; "Other"] /\
  (forall category name,
      name ∈ lists_get category (group_endpoints o) <->
      name ∈ map fst (methods o) /\ startswith "_" name = false /\
      endpoint_category name = category) /\
  (forall name,
      name ∈ names_of (group_endpoints o) <->
      name ∈ map fst (methods o) /\ startswith "_" name = false) /\
  sum_lengths (group_endpoints o) = length (public_methods o).
Proof.
  split; [reflexivity|]. split; [|split].
  - intros category name. unfold group_endpoints. fold (public_methods o).
    destruct (decide (category ∈ ["Public"; "Market Data"; "Trading";
                                   "Account"; "Other"])) as [Hc|Hc].
    + rewrite (lists_get_map_filter endpoint_category _ _ _ Hc).
      rewrite elem_of_List_filter. unfold public_methods.
      rewrite elem_of_List_filter, negb_true_iff.
      split.
      * intros [[H1 H2] H3]. repeat split; auto.
        now destruct (String.eqb_spec (endpoint_category name) category).
      * intros (H1 & H2 & H3). repeat split; auto.
        subst. apply String.eqb_refl.
    + split.
      * intros Hin. rewrite lists_get_absent in Hin by exact Hc.
        inversion Hin.
      * intros (_ & _ & <-). exfalso. apply Hc, endpoint_category_cases.
  - apply elem_of_group_endpoints.
  - unfold group_endpoints. fold (public_methods o). apply group_sizes.
Qed.

(** The loop of [ask_loop], read backwards: a returned answer was
    accepted, the replies before it were rejected and complained about. *)
Lemma ask_until_returns {A} (accept : string -> option A) complain inp :
  forall shown a inp' shown',
    ask_until accept complain inp shown = (Ok a, inp', shown') ->
    exists rejected reply,
      inp = map Reply rejected ++ Reply reply :: inp' /\
      accept reply = Some a /\
      Forall (fun s => accept s = None) rejected /\
      shown' = shown ++ map complain rejected.
Proof.
  induction inp as [|[s| |] r IH]; intros shown a inp' shown' H; simpl in H;
    try discriminate.
  destruct (accept s) as [a'|] eqn:E.
  - injection H as <- <- <-. exists [], s. simpl.
    now rewrite app_nil_r.
  - destruct (IH _ _ _ _ H) as (rej & reply & -> & Ha & Hr & ->).
    exists (s :: rej), reply. simpl. repeat split; auto.
    now rewrite <- app_assoc.
Qed.

Lemma elem_of_insert_sorted x y l : x ∈ insert_sorted y l <-> x = y \/ x ∈ l.
Proof.
  induction l as [|z l IH]; simpl.
  - rewrite elem_of_cons. split; intros [H|H]; auto; inversion H.
  - destruct (String.leb y z); rewrite !elem_of_cons, ?IH; tauto.
Qed.

Lemma elem_of_sorted x l : x ∈ sorted l <-> x ∈ l.
Proof.
  induction l as [|y l IH]; simpl; [reflexivity|].
  rewrite elem_of_insert_sorted, elem_of_cons, IH. reflexivity.
Qed.



(* ===================================================================== *)
(** ** Further properties: display, guards and glyphs *)
(* ===================================================================== *)

Lemma length_append_string (a b : string) :
  String.length (a +:+ b) = (String.length a + String.length b)%nat.
Proof. induction a as [|c a IH]; simpl; [reflexivity|now rewrite IH]. Qed.

Lemma length_substring_le n : forall s m,
  (String.length (String.substring m n s) <= n)%nat.
Proof.
  induction n as [|n IH]; intros s m.
  - destruct s, m; simpl; try lia.
    induction s as [|c s IHs] in m |- *; destruct m; simpl; try lia; auto.
  - induction s as [|c s IHs] in m |- *; simpl.
    + destruct m; simpl; lia.
    + destruct m; simpl; [specialize (IH s 0%nat); lia|apply IHs].
Qed.


(** X4.  Without a configured client the tester's operations stop at
    their guard: [check_supported_endpoints] and [test_endpoint] print the
    one line "No exchange instance available" and return,
    [_get_endpoint_support_status] returns the empty string,
    [get_available_endpoints] the empty dictionary, and [display_endpoints]
    prints nothing and asks nothing.  None of them reads input, calls the
    exchange, or writes a file. *)
Theorem no_client_guards ext w endpoint :
  exchange_instance (self w) = None ->
  check_supported_endpoints ext w
  = (Ok tt,
     set_console
       (console w ++ [Line "[red]No exchange instance available[/red]"]) w) /\
  test_endpoint ext endpoint w
  = (Ok tt,
     set_console
       (console w ++ [Line "[red]No exchange instance available[/red]"]) w) /\
  _get_endpoint_support_status endpoint w = (Ok "", w) /\
  get_available_endpoints w = (Ok [], w) /\
  display_endpoints ext w = (Ok tt, w).
Proof.
  intros H.
  assert (Hi : get_instance w = (Ok None, w))
    by (unfold get_instance, gets; now rewrite H).
  assert (Hg : get_available_endpoints w = (Ok [], w))
    by (unfold get_available_endpoints; now rewrite (bind_Ok _ _ _ _ _ Hi)).
  repeat split.
  - unfold check_supported_endpoints. now rewrite (bind_Ok _ _ _ _ _ Hi).
  - unfold test_endpoint. now rewrite (bind_Ok _ _ _ _ _ Hi).
  - unfold _get_endpoint_support_status. now rewrite (bind_Ok _ _ _ _ _ Hi).
  - exact Hg.
  - unfold display_endpoints.
    rewrite (bind_Ok _ _ _ _ _ Hg), (bind_Ok _ _ _ _ _ Hi).
    erewrite bind_Ok by reflexivity.
    erewrite bind_Ok by apply print_all_run.
    simpl. unfold ret. now rewrite app_nil_r, set_console_same.
Qed.

(** A process that has not set up an exchange yet. *)
Lemma no_client_guards_witness :
  check_supported_endpoints Demo.ext (Demo.boot [Reply "y"])
  = (Ok tt,
     set_console [Line "[red]No exchange instance available[/red]"]
       (Demo.boot [Reply "y"])) /\
  display_endpoints Demo.ext (Demo.boot [Reply "y"])
  = (Ok tt, Demo.boot [Reply "y"]).
Proof.
  pose proof (no_client_guards Demo.ext (Demo.boot [Reply "y"]) "fetch_ticker"
                eq_refl) as (H1 & _ & _ & _ & H5).
  split; [exact H1|exact H5].
Defined.

Lemma support_status_classify has_dict name value :
  has_dict !! name = Some value ->
  support_status has_dict name = glyph_of (classify has_dict name).
Proof.
  intros H. unfold support_status, classify. rewrite H.
  destruct (is_True value); [reflexivity|].
  destruct (eq_str value "emulated"); reflexivity.
Qed.

(** X5.  For a checked method name that is present in a non-empty
    capability map, the selector's glyph and the capability report agree:
    [_get_endpoint_support_status] returns the glyph of the very outcome
    under which [check_supported_endpoints] buckets the name, and the three
    glyphs differ from one another and from the "unknown" glyph. *)
Theorem glyph_agrees_with_report ext w l has_dict category eps name value :
  exchange_instance (self w) = Some l ->
  has (deref w l) = Some has_dict ->
  has_dict !! name = Some value ->
  (category, eps) ∈ categories ->
  name ∈ eps ->
  exists st,
    _get_endpoint_support_status name w = (Ok (glyph_of st), w) /\
    reports_buckets ext w (bucketize has_dict categories) /\
    bucketed_as (bucketize has_dict categories) category name st /\
    glyph_of st <> glyph_unknown /\
    (forall st', glyph_of st' = glyph_of st -> st' = st).
Proof.
  intros Hl Hh Hv Hc Hn. exists (classify has_dict name).
  assert (Hne : has_dict <> ∅).
  { intros ->. rewrite lookup_empty in Hv. discriminate. }
  split.
  - rewrite (_get_endpoint_support_status_run w l name Hl), Hh. simpl.
    now rewrite (support_status_classify has_dict name value Hv).
  - split; [now apply (check_supported_endpoints_reports ext w l)|].
    split; [now apply (bucketize_bucketed_as has_dict category eps)|].
    split; [destruct (classify has_dict name); discriminate|].
    intros st'. destruct st', (classify has_dict name);
      first [reflexivity|discriminate].
Qed.

(** [fetchTickers] is emulated on the demo client. *)
Lemma glyph_agrees_with_report_witness :
  exists st,
    _get_endpoint_support_status "fetchTickers"
      (Demo.session (Demo.kraken_obj []) [])
    = (Ok (glyph_of st), Demo.session (Demo.kraken_obj []) []) /\
    reports_buckets Demo.ext (Demo.session (Demo.kraken_obj []) [])
      (bucketize Demo.caps categories) /\
    bucketed_as (bucketize Demo.caps categories) "Market Data" "fetchTickers"
      st /\
    glyph_of st <> glyph_unknown /\
    (forall st', glyph_of st' = glyph_of st -> st' = st).
Proof.
  apply (glyph_agrees_with_report Demo.ext
           (Demo.session (Demo.kraken_obj []) []) 0%nat Demo.caps
           "Market Data"
           ["fetchMarkets"; "fetchCurrencies"; "fetchTicker"; "fetchTickers";
            "fetchOrderBook"; "fetchOHLCV"; "fetchTrades"; "fetchStatus"]
           "fetchTickers" (PStr "emulated")).
  - reflexivity.
  - reflexivity.
  - reflexivity.
  - repeat constructor.
  - repeat constructor.
Defined.

(* ===================================================================== *)
(** ** Further properties: what reaches the disk *)
(* ===================================================================== *)

Lemma chars_replace_char a b s :
  chars (replace_char a b s)
  = map (fun c => if Ascii.eqb c a then b else c) (chars s).
Proof. induction s as [|c s IH]; simpl; [reflexivity|now rewrite IH]. Qed.

(** X6.  The endpoint name used in the file name of a saved response
    holds neither a slash nor a backslash, whatever the endpoint is called,
    and is as long as the endpoint name: every such character has become an
    underscore, every other character is kept. *)
Theorem safe_endpoint_has_no_separator endpoint :
  ("/"%char ∉ chars (replace_char "\" "_" (replace_char "/" "_" endpoint))) /\
  ("\"%char ∉ chars (replace_char "\" "_" (replace_char "/" "_" endpoint))) /\
  length (chars (replace_char "\" "_" (replace_char "/" "_" endpoint)))
  = length (chars endpoint) /\
  (forall i c, chars endpoint !! i = Some c ->
     c <> "/"%char -> c <> "\"%char ->
     chars (replace_char "\" "_" (replace_char "/" "_" endpoint)) !! i
     = Some c).
Proof.
  rewrite !chars_replace_char, map_map.
  assert (Hf : forall c : ascii,
            (if Ascii.eqb (if Ascii.eqb c "/" then "_"%char else c) "\"
             then "_"%char
             else if Ascii.eqb c "/" then "_"%char else c) <> "/"%char /\
            (if Ascii.eqb (if Ascii.eqb c "/" then "_"%char else c) "\"
             then "_"%char
             else if Ascii.eqb c "/" then "_"%char else c) <> "\"%char).
  { intros c. destruct (Ascii.eqb_spec c "/") as [E|E]; simpl.
    - split; discriminate.
    - destruct (Ascii.eqb_spec c "\") as [E'|E']; [split; discriminate|].
      split; assumption. }
  repeat split.
  - intros H. apply list_elem_of_fmap in H as (c & Hc & _).
    symmetry in Hc. now apply (Hf c) in Hc.
  - intros H. apply list_elem_of_fmap in H as (c & Hc & _).
    symmetry in Hc. now apply (Hf c) in Hc.
  - now rewrite length_map.
  - intros i c Hi H1 H2. rewrite list_lookup_fmap, Hi. simpl.
    destruct (Ascii.eqb_spec c "/") as [E|_]; [congruence|].
    destruct (Ascii.eqb_spec c "\") as [E|_]; [congruence|reflexivity].
Qed.

(** X7.  A failure to write is not fatal: when the output directory or
    file cannot be created, each of the three writers reports the error in
    two lines and returns normally; no file is written, no input is read
    and the clock is not consulted. *)
Theorem write_failure_is_reported ext w msg :
  disk_error w = Some msg ->
  (forall endpoint data info,
      _save_response_to_file ext endpoint data info w
      = (Ok tt,
         set_console
           (console w
              ++ [Line (nl +:+ "[red]❌ Error saving response to file: "
                          +:+ msg +:+ "[/red]");
                  Line "[yellow]Response data was not saved[/yellow]"]) w)) /\
  (forall has_dict b,
      _save_capability_info_to_file ext has_dict b w
      = (Ok tt,
         set_console
           (console w
              ++ [Line (nl +:+ "[red]❌ Error saving capability info to file: "
                          +:+ msg +:+ "[/red]");
                  Line "[yellow]Capability info was not saved[/yellow]"]) w)) /\
  (forall endpoints,
      _save_endpoints_info_to_file ext endpoints w
      = (Ok tt,
         set_console
           (console w
              ++ [Line (nl +:+ "[red]❌ Error saving endpoints info to file: "
                          +:+ msg +:+ "[/red]");
                  Line "[yellow]Endpoints info was not saved[/yellow]"]) w)).
Proof.
  intros Hd.
  assert (Hm : makedirs w = (Raise (Exception "OSError" msg), w))
    by (unfold makedirs; now rewrite Hd).
  repeat split; intros;
    unfold _save_response_to_file, _save_capability_info_to_file,
      _save_endpoints_info_to_file, try_except;
    rewrite (bind_Raise _ _ _ _ _ Hm); simpl;
    unfold bind, println, print; simpl; now rewrite <- app_assoc.
Qed.

(** The disk of the demo session refuses the write. *)
Lemma write_failure_is_reported_witness :
  _save_endpoints_info_to_file Demo.ext [("Public", ["fetch_ticker"])]
    (Demo.read_only [])
  = (Ok tt,
     set_console
       [Line (nl +:+ "[red]❌ Error saving endpoints info to file: [Errno 30] Read-only file system[/red]");
        Line "[yellow]Endpoints info was not saved[/yellow]"]
       (Demo.read_only [])).
Proof.
  exact (proj2 (proj2 (write_failure_is_reported Demo.ext (Demo.read_only [])
                         "[Errno 30] Read-only file system" eq_refl))
           [("Public", ["fetch_ticker"])]).
Defined.

Lemma _save_capability_info_to_file_ok ext w l has_dict b :
  disk_error w = None ->
  exchange_instance (self w) = Some l ->
  exists w',
    _save_capability_info_to_file ext has_dict b w = (Ok tt, w') /\
    files w'
    = files w
        ++ [("responses/" +:+
             ("ccxt_capabilities_" +:+ str_opt (exchange (self w)) +:+ "_"
                +:+ strftime ext (time_time ext (clock_reads w)) +:+ ".json"),
             capability_document
               (isoformat ext (time_time ext (S (clock_reads w))))
               (exchange (self w)) (deref w l) has_dict b)].
Proof.
  intros Hd Hl.
  unfold _save_capability_info_to_file, try_except, bind, makedirs,
    write_json, read_clock, get_exchange, get_instance, get_object, gets,
    println, print.
  simpl. repeat (rewrite ?Hd, ?Hl; simpl). eexists. split; reflexivity.
Qed.

(** X8.  Saving the capability report: when the operator answers "y" on a
    working disk, [check_supported_endpoints] writes exactly one file, under
    [responses/], named after the exchange and the time; in its document
    [metadata.exchange] is the session's exchange id, the summary's
    [total_checked] is the sum of its [supported], [emulated] and
    [not_supported] counts, and the raw capability map is included. *)
Theorem capability_report_saved ext w l has_dict name a r :
  exchange_instance (self w) = Some l ->
  exchange (self w) = Some name ->
  has (deref w l) = Some has_dict ->
  has_dict <> ∅ ->
  stdin w = Reply a :: r ->
  confirm_reply a = Some true ->
  disk_error w = None ->
  exists w' doc s e n,
    check_supported_endpoints ext w = (Ok tt, w') /\
    files w'
    = files w
        ++ [("responses/" +:+
             ("ccxt_capabilities_" +:+ name +:+ "_"
                +:+ strftime ext (time_time ext (clock_reads w)) +:+ ".json"),
             doc)] /\
    doc_get ["metadata"; "exchange"] doc = Some (PStr name) /\
    doc_get ["metadata"; "summary"; "supported"] doc = Some (PInt (Z.of_nat s)) /\
    doc_get ["metadata"; "summary"; "emulated"] doc = Some (PInt (Z.of_nat e)) /\
    doc_get ["metadata"; "summary"; "not_supported"] doc
    = Some (PInt (Z.of_nat n)) /\
    doc_get ["metadata"; "summary"; "total_checked"] doc
    = Some (PInt (Z.of_nat (s + e + n))) /\
    (s + e + n = 37)%nat /\
    doc_get ["raw_has_dictionary"] doc = Some (PDict (map_to_list has_dict)) /\
    doc_get ["categorized_endpoints"; "not_supported"] doc
    = Some (dict_of_lists (not_supported (bucketize has_dict categories))).
Proof.
  intros Hl Hx Hh Hne Hin Hb Hd.
  rewrite (check_supported_endpoints_run ext w l has_dict Hl Hh Hne).
  erewrite bind_Ok by (apply (Confirm_ask_reply _ a true r); [exact Hin|exact Hb]).
  pose proof (summarize_bucketize has_dict) as Ht.
  change (length checked_set) with 37%nat in Ht.
  unfold summarize in Ht. cbn [total_checked] in Ht.
  remember (bucketize has_dict categories) as b eqn:Eb.
  match goal with
  | |- exists w' doc s e n, ?m ?W = _ /\ _ =>
      destruct (_save_capability_info_to_file_ok ext W l has_dict b Hd Hl)
        as (w' & Hrun & Hf)
  end.
  cbn [self set_console set_stdin files clock_reads] in Hf.
  rewrite Hx in Hf. cbn [str_opt default from_option id] in Hf.
  exists w'. eexists.
  exists (sum_lengths (supported b)), (sum_lengths (emulated b)),
    (sum_lengths (not_supported b)).
  split; [exact Hrun|]. split; [exact Hf|].
  clear Hrun Hf Eb.
  split; [reflexivity|]. split; [reflexivity|]. split; [reflexivity|].
  split; [reflexivity|]. split; [reflexivity|]. split; [exact Ht|].
  split; reflexivity.
Qed.

(** The demo session saves its capability report. *)
Lemma capability_report_saved_witness :
  exists w' doc,
    check_supported_endpoints Demo.ext
      (Demo.session (Demo.kraken_obj []) [Reply "y"]) = (Ok tt, w') /\
    doc_get ["metadata"; "exchange"] doc = Some (PStr "kraken") /\
    doc_get ["metadata"; "summary"; "total_checked"] doc = Some (PInt 37).
Proof.
  destruct (capability_report_saved Demo.ext
              (Demo.session (Demo.kraken_obj []) [Reply "y"]) 0%nat Demo.caps
              "kraken" "y" [] eq_refl eq_refl eq_refl caps_not_empty eq_refl
              eq_refl eq_refl)
    as (w' & doc & s & e & n & Hrun & _ & Hx & _ & _ & _ & Ht & H37 & _).
  exists w', doc. rewrite H37 in Ht.
  split; [exact Hrun|]. split; [exact Hx|exact Ht].
Defined.

(* ===================================================================== *)
(** ** Further properties: how a session ends *)
(* ===================================================================== *)

Lemma main_started ext w :
  main ext w
  = try_finally
      (try_except2 (main_body ext)
         (fun e => match e with KeyboardInterrupt => true | _ => false end)
         (fun _ => println (nl +:+ "[yellow]Operation cancelled by user[/yellow]"))
         is_Exception
         (fun e =>
            println (nl +:+ "[red]Unexpected error: " +:+ str_exn e +:+ "[/red]") ;;;
            yes <- Confirm_ask ;;
            if yes then println (format_exc ext e) else ret tt))
      (cleanup) (started w).
Proof.
  unfold main.
  erewrite bind_Ok by reflexivity. erewrite bind_Ok by reflexivity.
  erewrite bind_Ok by reflexivity.
  f_equal. destruct w. unfold started, banners. simpl.
  now rewrite <- app_assoc.
Qed.


(** X10.  An operator interrupt that reaches [main] from anywhere in the session
    is not an error: [main] prints the cancellation line, runs [cleanup]
    and returns normally; nothing more is read or written. *)
Theorem interrupt_cancels_session ext w w1 :
  main_body ext (started w) = (Raise KeyboardInterrupt, w1) ->
  exists w',
    main ext w = (Ok tt, w') /\
    console w'
    = console w1
        ++ [Line (nl +:+ "[yellow]Operation cancelled by user[/yellow]")] /\
    stdin w' = stdin w1 /\
    files w' = files w1 /\
    blank (_api_key (self w')) /\
    blank (_secret (self w')) /\
    exchange_instance (self w') = None /\
    exchange (self w') = None.
Proof.
  intros Hb. rewrite main_started.
  unfold try_finally, try_except2. rewrite Hb.
  unfold println, print.
  match goal with
  | |- context [cleanup ?W] =>
      destruct (cleanup_clears W) as (w' & Hc & Hk & Hs & Hi & Hx & _);
      destruct (cleanup_frame W) as (w'' & Hc' & Hin & Hcon & Hf & _)
  end.
  rewrite Hc in Hc'. injection Hc' as <-. rewrite Hc.
  exists w'. split; [reflexivity|].
  rewrite Hcon, Hin, Hf. now destruct w1.
Qed.

(** The operator names kraken, types a key and interrupts at the prompt
    for the secret. *)
Lemma interrupt_cancels_session_witness :
  exists w',
    main Demo.ext (Demo.boot [Reply "kraken"; Reply "k"; CtrlC; Reply "5"])
    = (Ok tt, w') /\
    stdin w' = [Reply "5"] /\
    last (console w')
    = Some (Line (nl +:+ "[yellow]Operation cancelled by user[/yellow]")).
Proof.
  destruct (interrupt_cancels_session Demo.ext
              (Demo.boot [Reply "kraken"; Reply "k"; CtrlC; Reply "5"])
              (snd (main_body Demo.ext
                      (started (Demo.boot [Reply "kraken"; Reply "k"; CtrlC;
                                           Reply "5"])))))
    as (w' & Hm & Hc & Hs & _).
  { vm_compute. reflexivity. }
  exists w'. split; [exact Hm|].
  split; [rewrite Hs; vm_compute; reflexivity|].
  rewrite Hc. apply last_snoc.
Defined.

(** X11.  Declining the command line warning ends [cli] with exit status 1
    before a tester exists: the credentials are stored nowhere, no
    exchange is constructed, and the other options are not looked at. *)
Theorem cli_declined_exits ext exchange_ api_key secret endpoint w a r :
  truthy_opt api_key || truthy_opt secret = true ->
  stdin w = Reply a :: r ->
  confirm_reply a = Some false ->
  cli ext exchange_ api_key secret endpoint w
  = (Raise (SystemExit 1),
     set_stdin r
       (set_console
          (console w
             ++ [cli_warning;
                 Line "[yellow]Exiting for security. Use interactive mode instead.[/yellow]"])
          w)).
Proof.
  intros Ht Hin Hb.
  assert (H : (print cli_warning ;;;
               yes <- Confirm_ask ;;
               if yes then ret tt
               else
                 println "[yellow]Exiting for security. Use interactive mode instead.[/yellow]" ;;;
                 raise (SystemExit 1)) w
              = (Raise (SystemExit 1),
                 set_stdin r
                   (set_console
                      (console w
                         ++ [cli_warning;
                             Line "[yellow]Exiting for security. Use interactive mode instead.[/yellow]"])
                      w))).
  { erewrite bind_Ok by reflexivity.
    erewrite bind_Ok
      by (apply (Confirm_ask_reply _ a false r); [exact Hin|exact Hb]).
    cbv iota. erewrite bind_Ok by reflexivity.
    unfold raise. destruct w. simpl. now rewrite <- app_assoc. }
  unfold cli. rewrite Ht. apply bind_Raise. exact H.
Qed.

(** A secret on the command line, and the operator answers no. *)
Lemma cli_declined_exits_witness :
  cli Demo.ext (Some "kraken") None (Some "s3cret") (Some "fetch_ticker")
    (Demo.boot [Reply "N"; Reply "y"])
  = (Raise (SystemExit 1),
     set_stdin [Reply "y"]
       (set_console
          ([] ++ [cli_warning;
                  Line "[yellow]Exiting for security. Use interactive mode instead.[/yellow]"])
          (Demo.boot [Reply "N"; Reply "y"]))).
Proof.
  apply (cli_declined_exits Demo.ext (Some "kraken") None (Some "s3cret")
           (Some "fetch_ticker") (Demo.boot [Reply "N"; Reply "y"]) "N"
           [Reply "y"]); reflexivity.
Defined.



Lemma cleanup_run w :
  cleanup w
  = (Ok tt,
     set_self
       {| exchange := None; exchange_instance := None;
          _api_key := if truthy_opt (_api_key (self w)) then None
                      else _api_key (self w);
          _secret := if truthy_opt (_secret (self w)) then None
                     else _secret (self w) |}
       (set_heap
          match exchange_instance (self w) with
          | Some l => alter clear_object_credentials l (heap w)
          | None => heap w
          end w)).
Proof.
  destruct w as [[ex inst k s] h i c f d cr cl].
  unfold cleanup, _clear_credentials, bind, get_api_key, get_secret,
    get_instance, gets, set_api_key, set_secret, set_instance, set_exchange,
    ret.
  simpl.
  destruct (truthy_opt k); simpl; destruct (truthy_opt s); simpl;
    destruct inst as [l|]; reflexivity.
Qed.

(** X13.  [cleanup] can be run any number of times: it always returns, touches
    neither console, input nor files, keeps every object of the heap in
    place, and a second run changes nothing. *)
Theorem cleanup_idempotent w :
  exists w',
    cleanup w = (Ok tt, w') /\
    cleanup w' = (Ok tt, w') /\
    console w' = console w /\ stdin w' = stdin w /\ files w' = files w /\
    dom (heap w') = dom (heap w).
Proof.
  eexists. split; [apply cleanup_run|].
  split.
  - rewrite cleanup_run.
    destruct w as [[ex inst k s] h i c f d cr cl]. simpl.
    assert (Hk : truthy_opt (if truthy_opt k then None else k) = false)
      by (destruct (truthy_opt k) eqn:E; [reflexivity|exact E]).
    assert (Hs : truthy_opt (if truthy_opt s then None else s) = false)
      by (destruct (truthy_opt s) eqn:E; [reflexivity|exact E]).
    rewrite Hk, Hs. reflexivity.
  - destruct w as [[ex inst k s] h i c f d cr cl]. simpl.
    repeat split. destruct inst; [apply dom_alter_L|reflexivity].
Qed.

(* ===================================================================== *)
(** ** Further properties: the endpoint selector *)
(* ===================================================================== *)

Lemma mapM_still {A B} (f : A -> M B) (l : list A) :
  (forall x w, exists y, f x w = (Ok y, w)) ->
  forall w, exists ys, mapM f l w = (Ok ys, w).
Proof.
  intros Hf. induction l as [|x l IH]; intros w; simpl.
  - now exists [].
  - destruct (Hf x w) as (y & Hy). destruct (IH w) as (ys & Hys).
    exists (y :: ys). unfold bind. now rewrite Hy, Hys.
Qed.

Lemma _get_endpoint_support_status_still endpoint w :
  exists y, _get_endpoint_support_status endpoint w = (Ok y, w).
Proof.
  unfold _get_endpoint_support_status, bind, get_instance, get_object, gets,
    ret.
  destruct (exchange_instance (self w)); eexists; reflexivity.
Qed.

Lemma page_rows_still start_idx current_methods w :
  exists rows, page_rows start_idx current_methods w = (Ok rows, w).
Proof.
  unfold page_rows. apply mapM_still. intros i w0.
  destruct (_get_endpoint_support_status_still
              (nth i (take ((length current_methods + 1) / 2) current_methods) "")
              w0) as (y & Hy).
  rewrite (bind_Ok _ _ _ _ _ Hy).
  destruct (i <? _)%nat; [|eexists; reflexivity].
  destruct (_get_endpoint_support_status_still
              (nth i (drop ((length current_methods + 1) / 2) current_methods) "")
              w0) as (y' & Hy').
  rewrite (bind_Ok _ _ _ _ _ Hy'). eexists; reflexivity.
Qed.

(** One round of the selector: it never raises, leaves tester and heap
    alone, and a name it returns is one of the listed methods. *)
Lemma select_round_result all_methods current_page w :
  match select_round all_methods current_page w with
  | (Ok r, w') =>
      heap w' = heap w /\ self w' = self w /\
      match r with
      | Return (Some x) => x ∈ all_methods
      | _ => True
      end
  | (Raise _, _) => False
  | (Waiting, _) => True
  end.
Proof.
  unfold select_round.
  match goal with
  | |- context [try_except2 ?b ?h1 ?f1 ?h2 ?f2] =>
      assert (Htail : forall W,
                 match try_except2 b h1 f1 h2 f2 W with
                 | (Ok r, w') =>
                     heap w' = heap W /\ self w' = self W /\
                     match r with
                     | Return (Some x) => x ∈ all_methods
                     | _ => True
                     end
                 | (Raise _, _) => False
                 | (Waiting, _) => True
                 end)
  end.
  { intros [t h i c f d cr cl].
    unfold try_except2, bind, print, println, ret, read_key, Prompt_ask,
      pick_by_number.
    cbn -[Z.sub Z.leb Z.ltb Nat.ltb Nat.mul Nat.add Nat.div nat_str isdigit
          py_int lower String.substring String.eqb nth take drop strip].
    repeat match goal with
           | |- context [match ?x with [] => _ | _ :: _ => _ end] =>
               is_var x; destruct x as [|[?| |] ?];
               cbn -[Z.sub Z.leb Z.ltb Nat.ltb Nat.mul Nat.add Nat.div nat_str
                     isdigit py_int lower String.substring String.eqb nth take
                     drop strip]
           | |- context [if ?b then _ else _] =>
               destruct b eqn:?;
               cbn -[Z.sub Z.leb Z.ltb Nat.ltb Nat.mul Nat.add Nat.div nat_str
                     isdigit py_int lower String.substring String.eqb nth take
                     drop strip]
           end;
      try exact I; try discriminate;
      repeat split;
      match goal with
      | H : (_ <=? _) && (_ <? _) = true |- _ =>
          apply andb_prop in H as [H1 H2];
          apply Z.leb_le in H1; apply Z.ltb_lt in H2;
          apply list_elem_of_In, nth_In; lia
      end. }
  destruct (page_rows_still (current_page * 50)
              (take 50 (drop (current_page * 50) all_methods)) w)
    as (rows & Hrows).
  rewrite (bind_Ok _ _ _ _ _ Hrows).
  erewrite bind_Ok by reflexivity. erewrite bind_Ok by reflexivity.
  destruct (0 <? current_page)%nat;
    (erewrite bind_Ok by reflexivity);
    (destruct (current_page * 50 + 50 <? length all_methods)%nat;
     (erewrite bind_Ok by reflexivity);
     do 3 (erewrite bind_Ok by reflexivity);
     match goal with
     | |- match try_except2 _ _ _ _ _ ?W with _ => _ end => exact (Htail W)
     end).
Qed.

Lemma select_loop_result fuel : forall all_methods current_page w,
  match select_loop fuel all_methods current_page w with
  | (Ok r, w') =>
      heap w' = heap w /\ self w' = self w /\
      match r with
      | Some x => x ∈ all_methods
      | None => True
      end
  | (Raise _, _) => False
  | (Waiting, _) => True
  end.
Proof.
  induction fuel as [|fuel IH]; intros all_methods current_page w;
    [exact I|].
  cbn [select_loop]. unfold bind.
  pose proof (select_round_result all_methods current_page w) as Hr.
  destruct (select_round all_methods current_page w) as [[[x|page]|e|] w1];
    try exact Hr; try exact I.
  destruct Hr as (Hh & Hs & _).
  specialize (IH all_methods page w1).
  destruct (select_loop fuel all_methods page w1) as [[r|e|] w2];
    try exact IH; try exact I.
  destruct IH as (Hh' & Hs' & Hx). repeat split; congruence.
Qed.

Lemma elem_of_nonempty_lists (d : list (string * list string)) x :
  x ∈ concat (map snd (List.filter (fun p => match snd p with
                                            | [] => false
                                            | _ => true
                                            end) d)) ->
  x ∈ names_of d.
Proof.
  unfold names_of. induction d as [|[c l] d IH]; simpl; [easy|].
  destruct l as [|y l]; simpl; [exact IH|].
  rewrite !elem_of_cons, !elem_of_app.
  intros [H|[H|H]]; auto.
Qed.

Lemma find_method_listed name ms :
  name ∈ map fst ms -> exists mi, find_method name ms = Some mi.
Proof.
  induction ms as [|[n mi] ms IH]; simpl; [inversion 1|].
  destruct (String.eqb_spec n name) as [->|Hne]; [now exists mi|].
  rewrite elem_of_cons. intros [H|H]; [congruence|auto].
Qed.

Lemma select_endpoint_unfold w :
  select_endpoint w
  = select_loop (S (length (stdin w)))
      (sorted
         (concat
            (map snd
               (List.filter (fun p => match snd p with
                                      | [] => false
                                      | _ => true
                                      end)
                  match exchange_instance (self w) with
                  | Some l => group_endpoints (deref w l)
                  | None => []
                  end))))
      0 w.
Proof.
  unfold select_endpoint, get_available_endpoints, pending_input, bind,
    get_instance, get_object, gets, ret.
  destruct (exchange_instance (self w)); reflexivity.
Qed.

(** X14.  The selector hands [test_endpoint] only names it can look up: a
    name returned by [select_endpoint] is a public method of the session's
    client, found by [getattr], and the selector has touched neither the
    tester nor the client. *)
Theorem select_endpoint_returns_method w name w' :
  select_endpoint w = (Ok (Some name), w') ->
  exists l mi,
    exchange_instance (self w) = Some l /\
    name ∈ map fst (methods (deref w l)) /\
    startswith "_" name = false /\
    find_method name (methods (deref w' l)) = Some mi /\
    self w' = self w /\ heap w' = heap w.
Proof.
  rewrite select_endpoint_unfold. intros H.
  match type of H with
  | select_loop ?n ?a ?p ?W = _ =>
      pose proof (select_loop_result n a p W) as Hr; rewrite H in Hr
  end.
  destruct Hr as (Hh & Hs & Hx).
  apply elem_of_sorted, elem_of_nonempty_lists in Hx.
  destruct (exchange_instance (self w)) as [l|] eqn:Hl; [|inversion Hx].
  apply elem_of_group_endpoints in Hx as [Hx1 Hx2].
  destruct (find_method_listed _ _ Hx1) as (mi & Hmi).
  exists l, mi. unfold deref in *. rewrite Hh. repeat split; auto.
Qed.

(** Key 1, then Enter at the number prompt: the first method of the
    sorted list. *)
Lemma select_endpoint_returns_method_witness :
  select_endpoint (Demo.session (Demo.kraken_obj []) [Reply "1"; Reply ""])
  = (Ok (Some "fetch_ticker"),
     snd (select_endpoint
            (Demo.session (Demo.kraken_obj []) [Reply "1"; Reply ""]))) /\
  exists mi,
    find_method "fetch_ticker" (methods (Demo.kraken_obj [])) = Some mi.
Proof.
  assert (H : select_endpoint
                (Demo.session (Demo.kraken_obj []) [Reply "1"; Reply ""])
              = (Ok (Some "fetch_ticker"),
                 snd (select_endpoint
                        (Demo.session (Demo.kraken_obj [])
                           [Reply "1"; Reply ""]))))
    by (vm_compute; reflexivity).
  split; [exact H|].
  destruct (select_endpoint_returns_method _ _ _ H)
    as (l & mi & Hl & _ & _ & Hm & _ & Hh).
  injection Hl as <-. exists mi.
  unfold deref in Hm. rewrite Hh in Hm. exact Hm.
Defined.


(* ===================================================================== *)
(** ** Further properties: setting up a client *)
(* ===================================================================== *)

Lemma fresh_loc_fresh (h : gmap loc exchange_obj) : h !! fresh_loc h = None.
Proof.
  unfold fresh_loc. apply (not_elem_of_dom (D := gset loc)).
  apply (is_fresh (dom h)).
Qed.

(** A set-up whose constructor returns: the exact world it leaves. *)
Lemma setup_exchange_run ext w name k s c obj :
  ccxt_getattr ext name = Some c ->
  c (make_config k s) = inl obj ->
  fst (tried ext (calls w) obj) <> Some Interrupted ->
  setup_exchange ext name k s w
  = (Ok tt,
     {| self := {| exchange := Some name;
                   exchange_instance := Some (fresh_loc (heap w));
                   _api_key := Some k; _secret := Some s |};
        heap := <[fresh_loc (heap w) := snd (tried ext (calls w) obj)]> (heap w);
        stdin := stdin w;
        console := console w
                     ++ connection_report name (fst (tried ext (calls w) obj));
        files := files w;
        disk_error := disk_error w;
        clock_reads := clock_reads w;
        calls := match fst (tried ext (calls w) obj) with
                 | Some _ => S (calls w)
                 | None => calls w
                 end |}).
Proof.
  intros Hg Hc Hi.
  destruct w as [t h i co f d cr cl]. simpl in *.
  unfold setup_exchange, try_except.
  erewrite bind_Ok by reflexivity. erewrite bind_Ok by reflexivity.
  rewrite Hg. erewrite bind_Ok by reflexivity.
  erewrite bind_Ok by (unfold construct; rewrite Hc; reflexivity).
  erewrite bind_Ok by reflexivity. erewrite bind_Ok by reflexivity.
  erewrite bind_Ok by reflexivity.
  unfold deref; cbn [heap set_self set_heap self].
  rewrite lookup_insert_eq. cbn [default from_option id].
  unfold tried in *.
  destruct (find_method "load_markets" (methods obj)) as [mi|].
  - unfold invoke, bind, println, print, deref.
    cbn [heap set_self set_heap self calls set_console console].
    rewrite lookup_insert_eq. cbn [default from_option id].
    destruct (call_method ext cl obj "load_markets" [] []) as [[v|cls msg|] obj'];
      simpl in *; [| |congruence];
      rewrite insert_insert_eq; destruct t; simpl; rewrite <- ?app_assoc;
      reflexivity.
  - unfold println, print. simpl. destruct t; reflexivity.
Qed.





(* ===================================================================== *)
(** ** Further properties: nothing is saved unasked *)
(* ===================================================================== *)

Create HintDb frugal.

Lemma no_yes_suffix used rest : no_yes (used ++ rest) -> no_yes rest.
Proof. unfold no_yes. rewrite forallb_app. now intros [_ H]%andb_prop. Qed.

Lemma frugal_still {A} (f : world -> res A * world) :
  (forall w, files (snd (f w)) = files w /\ stdin (snd (f w)) = stdin w) ->
  frugal f.
Proof.
  intros H w _. destruct (H w) as [Hf Hs]. split; [exact Hf|].
  exists []. now rewrite Hs.
Qed.

Lemma frugal_ret {A} (a : A) : frugal (ret a).
Proof. apply frugal_still. intros w. now split. Qed.

Lemma frugal_raise {A} e : frugal (@raise A e).
Proof. apply frugal_still. intros w. now split. Qed.

Lemma frugal_waiting {A} : frugal (fun w => (@Waiting A, w)).
Proof. apply frugal_still. intros w. now split. Qed.

Lemma frugal_gets {A} (f : world -> A) : frugal (gets f).
Proof. apply frugal_still. intros w. now split. Qed.

Lemma frugal_print o : frugal (print o).
Proof. apply frugal_still. intros w. now split. Qed.

Lemma frugal_println x : frugal (println x).
Proof. apply frugal_print. Qed.

Lemma frugal_print_all os : frugal (print_all os).
Proof. apply frugal_still. intros w. rewrite print_all_run. now split. Qed.

Lemma frugal_put_self t : frugal (put_self t).
Proof. apply frugal_still. intros w. now split. Qed.

Lemma frugal_set_exchange x : frugal (set_exchange x).
Proof. apply frugal_still. intros w. now split. Qed.

Lemma frugal_set_instance x : frugal (set_instance x).
Proof. apply frugal_still. intros w. now split. Qed.

Lemma frugal_set_api_key x : frugal (set_api_key x).
Proof. apply frugal_still. intros w. now split. Qed.

Lemma frugal_set_secret x : frugal (set_secret x).
Proof. apply frugal_still. intros w. now split. Qed.

Lemma frugal_read_clock ext : frugal (read_clock ext).
Proof. apply frugal_still. intros w. now split. Qed.

Lemma frugal_invoke ext l name args kwargs :
  frugal (invoke ext l name args kwargs).
Proof.
  apply frugal_still. intros w. unfold invoke.
  destruct (call_method ext (calls w) (deref w l) name args kwargs)
    as [[v|cls msg|] obj']; now split.
Qed.

Lemma frugal_construct c config : frugal (construct c config).
Proof.
  apply frugal_still. intros w. unfold construct.
  destruct (c config); now split.
Qed.

Lemma frugal_alter_heap f l :
  frugal (fun w => (Ok tt, set_heap (alter f l (heap w)) w)).
Proof. apply frugal_still. intros w. now split. Qed.

Lemma frugal_Prompt_ask d : frugal (Prompt_ask d).
Proof.
  intros w _. unfold Prompt_ask.
  destruct (stdin w) as [|[x| |] r] eqn:E; simpl; rewrite ?E;
    (split; [reflexivity|]);
    first [now exists [] | now exists [Reply x] | now exists [CtrlC]
          | now exists [CtrlD]].
Qed.

Lemma frugal_read_key : frugal read_key.
Proof.
  intros w _. unfold read_key.
  destruct (stdin w) as [|[x| |] r] eqn:E; simpl; rewrite ?E;
    (split; [reflexivity|]);
    first [now exists [] | now exists [Reply x] | now exists [CtrlC]
          | now exists [CtrlD]].
Qed.

Lemma frugal_ask_loop {A} (accept : string -> option A) complain :
  frugal (ask_loop accept complain).
Proof.
  intros w _. unfold ask_loop.
  pose proof (ask_until_advances accept complain (stdin w) (console w)) as H.
  destruct (ask_until accept complain (stdin w) (console w))
    as [[x inp'] shown'].
  destruct H as [_ Hu]. simpl. split; [reflexivity|exact Hu].
Qed.

Lemma frugal_Confirm_ask : frugal Confirm_ask.
Proof. apply frugal_ask_loop. Qed.

Lemma frugal_bind {A B} (m : M A) (k : A -> M B) :
  frugal m -> (forall a, frugal (k a)) -> frugal (bind m k).
Proof.
  intros Hm Hk w Hn. unfold bind.
  destruct (Hm w Hn) as [Hf [used Hu]].
  destruct (m w) as [[a|e|] w1]; simpl in *;
    [|split; [exact Hf|now exists used]..].
  assert (Hn1 : no_yes (stdin w1))
    by (apply (no_yes_suffix used); now rewrite <- Hu).
  destruct (Hk a w1 Hn1) as [Hf' [used' Hu']].
  split; [congruence|]. exists (used ++ used').
  now rewrite <- app_assoc, <- Hu'.
Qed.

Lemma frugal_try_except {A} (m : M A) p h :
  frugal m -> (forall e, frugal (h e)) -> frugal (try_except m p h).
Proof.
  intros Hm Hh w Hn. unfold try_except.
  destruct (Hm w Hn) as [Hf [used Hu]].
  destruct (m w) as [[a|e|] w1]; simpl in *;
    [split; [exact Hf|now exists used]| |split; [exact Hf|now exists used]].
  destruct (p e); [|split; [exact Hf|now exists used]].
  assert (Hn1 : no_yes (stdin w1))
    by (apply (no_yes_suffix used); now rewrite <- Hu).
  destruct (Hh e w1 Hn1) as [Hf' [used' Hu']].
  split; [congruence|]. exists (used ++ used').
  now rewrite <- app_assoc, <- Hu'.
Qed.

Lemma frugal_try_except2 {A} (m : M A) p1 h1 p2 h2 :
  frugal m -> (forall e, frugal (h1 e)) -> (forall e, frugal (h2 e)) ->
  frugal (try_except2 m p1 h1 p2 h2).
Proof.
  intros Hm H1 H2 w Hn. unfold try_except2.
  destruct (Hm w Hn) as [Hf [used Hu]].
  destruct (m w) as [[a|e|] w1]; simpl in *;
    [split; [exact Hf|now exists used]| |split; [exact Hf|now exists used]].
  assert (Hn1 : no_yes (stdin w1))
    by (apply (no_yes_suffix used); now rewrite <- Hu).
  destruct (p1 e).
  - destruct (H1 e w1 Hn1) as [Hf' [used' Hu']].
    split; [congruence|]. exists (used ++ used').
    now rewrite <- app_assoc, <- Hu'.
  - destruct (p2 e); [|split; [exact Hf|now exists used]].
    destruct (H2 e w1 Hn1) as [Hf' [used' Hu']].
    split; [congruence|]. exists (used ++ used').
    now rewrite <- app_assoc, <- Hu'.
Qed.

Lemma frugal_try_finally {A} (m : M A) f :
  frugal m -> frugal f -> frugal (try_finally m f).
Proof.
  intros Hm Hf w Hn. unfold try_finally.
  destruct (Hm w Hn) as [Hfi [used Hu]].
  destruct (m w) as [[a|e|] w1]; simpl in *;
    [| |split; [exact Hfi|now exists used]];
    (assert (Hn1 : no_yes (stdin w1))
       by (apply (no_yes_suffix used); now rewrite <- Hu));
    destruct (Hf w1 Hn1) as [Hf' [used' Hu']];
    destruct (f w1) as [[u|e'|] w2]; simpl in *;
    (split; [congruence|]); exists (used ++ used');
    now rewrite <- app_assoc, <- Hu'.
Qed.

(** The question that guards every write: as long as no pending input
    reads as a yes, the guarded action does not run. *)
Lemma frugal_confirm_gate (m : M unit) :
  frugal (yes <- Confirm_ask ;; if yes then m else ret tt).
Proof.
  intros w Hn. unfold bind, Confirm_ask, ask_loop.
  pose proof (ask_until_advances confirm_reply
                (fun _ => Line "[prompt.invalid]Please enter Y or N")
                (stdin w) (console w)) as Ha.
  pose proof (ask_until_returns confirm_reply
                (fun _ => Line "[prompt.invalid]Please enter Y or N")
                (stdin w) (console w)) as Hr.
  destruct (ask_until confirm_reply _ (stdin w) (console w))
    as [[x inp'] shown'].
  destruct Ha as [_ Hu].
  destruct x as [[|]|e|]; simpl; try (split; [reflexivity|exact Hu]).
  exfalso.
  destruct (Hr _ _ _ eq_refl) as (rej & reply & Hin & Hacc & _).
  unfold no_yes in Hn. rewrite Hin, forallb_app in Hn.
  apply andb_prop in Hn as [_ Hn]. simpl in Hn. rewrite Hacc in Hn.
  discriminate.
Qed.

#[global] Hint Resolve frugal_ret frugal_raise frugal_waiting frugal_gets
  frugal_print frugal_println frugal_print_all frugal_put_self
  frugal_set_exchange frugal_set_instance frugal_set_api_key
  frugal_set_secret frugal_read_clock frugal_invoke frugal_construct
  frugal_alter_heap frugal_Prompt_ask frugal_read_key frugal_ask_loop
  frugal_Confirm_ask frugal_confirm_gate : frugal.

Ltac frugal_step :=
  first
    [ solve [auto with frugal]
    | apply frugal_confirm_gate
    | apply frugal_bind; [|intros ?]
    | apply frugal_try_except; [|intros ?]
    | apply frugal_try_except2; [|intros ?|intros ?]
    | apply frugal_try_finally
    | match goal with
      | |- frugal (match ?x with _ => _ end) => destruct x
      end ].

Ltac frugal_tac :=
  unfold get_exchange, get_instance, get_api_key, get_secret, get_object,
    pending_input;
  repeat frugal_step.

Lemma frugal_mapM {A B} (f : A -> M B) l :
  (forall x, frugal (f x)) -> frugal (mapM f l).
Proof. intros Hf. induction l; simpl; frugal_tac. Qed.

Section FrugalTester.

Variable ext : external.

Lemma frugal_get_available_endpoints : frugal get_available_endpoints.
Proof. unfold get_available_endpoints. frugal_tac. Qed.

Hint Resolve frugal_get_available_endpoints : frugal.

Lemma frugal_display_endpoints : frugal (display_endpoints ext).
Proof. unfold display_endpoints. frugal_tac. Qed.

Lemma frugal_check_supported_endpoints :
  frugal (check_supported_endpoints ext).
Proof. unfold check_supported_endpoints. frugal_tac. Qed.

Lemma frugal__get_endpoint_support_status endpoint :
  frugal (_get_endpoint_support_status endpoint).
Proof. unfold _get_endpoint_support_status. frugal_tac. Qed.

Hint Resolve frugal__get_endpoint_support_status : frugal.

Lemma frugal_page_rows start_idx current_methods :
  frugal (page_rows start_idx current_methods).
Proof. unfold page_rows. apply frugal_mapM. intros i. frugal_tac. Qed.

Lemma frugal_pick_by_number all_methods page full_choice :
  frugal (pick_by_number all_methods page full_choice).
Proof. unfold pick_by_number. frugal_tac. Qed.

Hint Resolve frugal_page_rows frugal_pick_by_number : frugal.

Lemma frugal_select_round all_methods page :
  frugal (select_round all_methods page).
Proof. unfold select_round. frugal_tac. Qed.

Lemma frugal_select_loop all_methods fuel : forall page,
  frugal (select_loop fuel all_methods page).
Proof.
  induction fuel as [|fuel IH]; intros page; cbn [select_loop];
    [apply frugal_waiting|].
  apply frugal_bind; [apply frugal_select_round|].
  intros [x|page']; [apply frugal_ret|apply IH].
Qed.

Lemma frugal_select_endpoint : frugal select_endpoint.
Proof.
  unfold select_endpoint.
  apply frugal_bind; [apply frugal_get_available_endpoints|intros endpoints].
  apply frugal_bind; [apply frugal_gets|intros n].
  apply frugal_select_loop.
Qed.

Lemma frugal_ask_param l param : frugal (ask_param ext l param).
Proof. unfold ask_param, first_markets. frugal_tac. Qed.

Lemma frugal_collect_params l params : forall args kwargs,
  frugal (collect_params ext l params args kwargs).
Proof.
  induction params as [|p params IH]; intros args kwargs; simpl.
  - auto with frugal.
  - apply frugal_bind; [apply frugal_ask_param|].
    intros v. destruct (is_positional p); apply IH.
Qed.

Lemma frugal_execute_endpoint l endpoint args kwargs :
  frugal (execute_endpoint ext l endpoint args kwargs).
Proof. unfold execute_endpoint. frugal_tac. Qed.

Lemma frugal_test_endpoint endpoint : frugal (test_endpoint ext endpoint).
Proof.
  unfold test_endpoint.
  apply frugal_bind; [frugal_tac|]. intros [l|]; [|auto with frugal].
  apply frugal_bind; [frugal_tac|intros o].
  apply frugal_bind; [frugal_tac|intros mi].
  do 2 (apply frugal_bind; [auto with frugal|intros _]).
  apply frugal_bind; [apply frugal_collect_params|intros [args kwargs]].
  apply frugal_execute_endpoint.
Qed.

Lemma frugal_cleanup : frugal cleanup.
Proof. unfold cleanup, _clear_credentials. frugal_tac. Qed.

Lemma frugal_select_exchange : frugal (select_exchange ext).
Proof. unfold select_exchange. frugal_tac. Qed.

Lemma frugal_setup_exchange name k s : frugal (setup_exchange ext name k s).
Proof. unfold setup_exchange. frugal_tac. Qed.

Hint Resolve frugal_display_endpoints frugal_check_supported_endpoints
  frugal_select_endpoint frugal_test_endpoint frugal_cleanup
  frugal_select_exchange frugal_setup_exchange : frugal.

Lemma frugal_main_loop fuel : frugal (main_loop ext fuel).
Proof.
  induction fuel as [|fuel IH]; cbn [main_loop]; [apply frugal_waiting|].
  do 7 (apply frugal_bind; [apply frugal_println|intros _]).
  apply frugal_bind; [apply frugal_ask_loop|intros choice].
  repeat match goal with
         | |- frugal (if ?c then _ else _) => destruct c
         | |- frugal (main_loop ext fuel) => exact IH
         | |- frugal (bind _ _) => apply frugal_bind; [frugal_tac|intros ?]
         | |- frugal _ => solve [frugal_tac]
         end.
Qed.

Lemma frugal_main_body : frugal (main_body ext).
Proof.
  unfold main_body.
  do 9 (apply frugal_bind; [solve [auto with frugal]|intros ?]).
  apply frugal_bind; [apply frugal_gets|intros n]. apply frugal_main_loop.
Qed.

Lemma frugal_main : frugal (main ext).
Proof.
  unfold main.
  do 3 (apply frugal_bind; [solve [auto with frugal]|intros _]).
  apply frugal_try_finally; [|apply frugal_cleanup].
  apply frugal_try_except2; [apply frugal_main_body| |]; intros e.
  - apply frugal_println.
  - apply frugal_bind; [apply frugal_println|intros _].
    apply frugal_confirm_gate.
Qed.

Lemma frugal_cli exchange_ api_key secret endpoint :
  frugal (cli ext exchange_ api_key secret endpoint).
Proof.
  unfold cli.
  apply frugal_bind.
  - destruct (truthy_opt api_key || truthy_opt secret); [|apply frugal_ret].
    apply frugal_bind; [apply frugal_print|intros _].
    apply frugal_bind; [apply frugal_Confirm_ask|intros [|]];
      [apply frugal_ret|].
    apply frugal_bind; [apply frugal_println|intros _]. apply frugal_raise.
  - intros _. destruct (truthy_opt exchange_ && truthy_opt endpoint);
      [|apply frugal_main].
    apply frugal_bind; [apply frugal_put_self|intros _].
    apply frugal_try_finally; [|apply frugal_cleanup].
    apply frugal_try_except; [|intros e; apply frugal_println].
    apply frugal_bind; [apply frugal_setup_exchange|intros _].
    apply frugal_test_endpoint.
Qed.

End FrugalTester.



(* ===================================================================== *)
(** ** Further properties: prompts, tables and saved endpoint lists *)
(* ===================================================================== *)

(** X19.  The default of the symbol prompt: on an empty reply [test_endpoint]
    passes the first key of the client's markets mapping, and "BTC/IDR"
    when the mapping is empty, missing or not a mapping; the list of
    symbols is printed only when there is a mapping. *)
Theorem symbol_prompt_default ext l w r :
  stdin w = Reply "" :: r ->
  ask_param ext l "symbol" w
  = (Ok (PStr match attrs (deref w l) !! "markets" with
              | Some (PDict ((m, _) :: _)) => m
              | _ => "BTC/IDR"
              end),
     set_stdin r
       (set_console
          (console w
             ++ match attrs (deref w l) !! "markets" with
                | Some (PDict d) => symbols_shown d
                | _ => []
                end) w)).
Proof.
  intros Hin. destruct w as [t h i c f d cr cl]. simpl in Hin. subst i.
  unfold ask_param. cbn [String.eqb Ascii.eqb Bool.eqb].
  unfold try_except, bind, get_object, gets, first_markets, println, print,
    Prompt_ask, ret, raise, symbols_shown.
  cbn [self heap stdin console set_console set_stdin fst snd].
  destruct (attrs (deref _ l) !! "markets") as [[]|];
    cbn; rewrite ?app_nil_r; try reflexivity.
  - destruct d0 as [|[m v] d0]; cbn; now rewrite <- app_assoc.
Qed.

(** The markets of the demo client are not a mapping. *)
Lemma symbol_prompt_default_witness :
  ask_param Demo.ext 0%nat "symbol"
    (Demo.session (Demo.kraken_obj []) [Reply ""; Reply "y"])
  = (Ok (PStr "BTC/IDR"),
     set_stdin [Reply "y"]
       (set_console ([] ++ [])
          (Demo.session (Demo.kraken_obj []) [Reply ""; Reply "y"]))).
Proof.
  exact (symbol_prompt_default Demo.ext 0%nat
           (Demo.session (Demo.kraken_obj []) [Reply ""; Reply "y"])
           [Reply "y"] eq_refl).
Defined.

(** X20.  An interrupt or end-of-file at the symbol prompt does not cancel the
    test: the bare [except] takes it, and the symbol is asked for a second
    time, now with the default "BTC/IDR" whatever the markets are. *)
Theorem symbol_prompt_survives_interrupt ext l w d i s r :
  attrs (deref w l) !! "markets" = Some (PDict d) ->
  i = CtrlC \/ i = CtrlD ->
  stdin w = i :: Reply s :: r ->
  ask_param ext l "symbol" w
  = (Ok (PStr (if String.eqb s "" then "BTC/IDR" else strip s)),
     set_stdin r (set_console (console w ++ symbols_shown d) w)).
Proof.
  intros Hm Hi Hin. destruct w as [t h inp c f de cr cl].
  simpl in Hin. subst inp.
  unfold ask_param. cbn [String.eqb Ascii.eqb Bool.eqb].
  unfold try_except, bind, get_object, gets, first_markets, println, print,
    Prompt_ask, ret, raise, symbols_shown.
  cbn [self heap stdin console set_console set_stdin fst snd].
  rewrite Hm. destruct Hi as [-> | ->]; cbn; now rewrite <- app_assoc.
Qed.

(** A client with two markets; the operator hits the interrupt key, then
    Enter. *)
Lemma symbol_prompt_survives_interrupt_witness :
  ask_param Demo.ext 0%nat "symbol"
    (Demo.session
       {| has := None;
          attrs := {[ "markets" := PDict [("ETH/USD", PNone); ("BTC/USD", PNone)] ]};
          methods := [] |}
       [CtrlC; Reply ""; Reply "y"])
  = (Ok (PStr "BTC/IDR"),
     set_stdin [Reply "y"]
       (set_console
          ([] ++ symbols_shown [("ETH/USD", PNone); ("BTC/USD", PNone)])
          (Demo.session
             {| has := None;
                attrs := {[ "markets" := PDict [("ETH/USD", PNone); ("BTC/USD", PNone)] ]};
                methods := [] |}
             [CtrlC; Reply ""; Reply "y"]))).
Proof.
  exact (symbol_prompt_survives_interrupt Demo.ext 0%nat
           (Demo.session
              {| has := None;
                 attrs := {[ "markets" := PDict [("ETH/USD", PNone); ("BTC/USD", PNone)] ]};
                 methods := [] |}
              [CtrlC; Reply ""; Reply "y"])
           [("ETH/USD", PNone); ("BTC/USD", PNone)] CtrlC "" [Reply "y"]
           eq_refl (or_introl eq_refl) eq_refl).
Defined.

Lemma In_two_columns a b x :
  x <> "" -> In x (concat (two_columns a b)) <-> In x a \/ In x b.
Proof.
  intros Hx. unfold two_columns. rewrite in_concat. split.
  - intros (row & Hrow & Hin). apply in_map_iff in Hrow as (i & <- & Hi).
    destruct Hin as [<-|[<-|[]]].
    + left. destruct (Nat.lt_ge_cases i (length a)) as [Hl|Hl];
        [now apply nth_In|]. exfalso. apply Hx. now apply nth_overflow.
    + right. destruct (Nat.lt_ge_cases i (length b)) as [Hl|Hl];
        [now apply nth_In|]. exfalso. apply Hx. now apply nth_overflow.
  - intros [H|H]; apply (In_nth _ _ "") in H as (i & Hi & <-);
      exists [nth i a ""; nth i b ""];
      (split; [apply in_map_iff; exists i;
               split; [reflexivity|apply in_seq; lia]
              |simpl; tauto]).
Qed.

(** X21.  The table of [select_exchange] shows the whole registry: an
    identifier is in the table exactly when it is a registered exchange,
    and the table is the first thing [select_exchange] prints. *)
Theorem exchange_table_complete ext :
  (forall w, exists rest,
      console (snd (select_exchange ext w))
      = console w ++ TableOut "Available Exchanges" (exchange_rows ext) :: rest) /\
  (forall name, name <> "" ->
     (name ∈ concat (exchange_rows ext) <-> name ∈ ccxt_exchanges ext)).
Proof.
  split.
  - intros w. unfold select_exchange.
    erewrite bind_Ok by reflexivity. unfold ask_loop.
    match goal with
    | |- context [ask_until ?acc ?comp ?i ?sh] =>
        pose proof (ask_until_advances acc comp i sh) as H;
        destruct (ask_until acc comp i sh) as [[x inp'] shown']
    end.
    destruct H as [[more ->] _]. exists more. simpl.
    now rewrite <- app_assoc.
  - intros name Hn. unfold exchange_rows.
    rewrite list_elem_of_In, (In_two_columns _ _ _ Hn),
      <- !list_elem_of_In, !elem_of_List_filter.
    unfold get_available_exchanges. rewrite negb_true_iff.
    split.
    + intros [[_ H]|[H _]]; [apply bool_decide_eq_true_1 in H|];
        exact (proj1 (elem_of_sorted _ _) H).
    + intros H. apply (proj2 (elem_of_sorted _ _)) in H.
      destruct (bool_decide (name ∈ popular)) eqn:E.
      * left. split; [now apply bool_decide_eq_true_1 in E|].
        now apply bool_decide_eq_true_2.
      * right. now split.
Qed.

Lemma _save_endpoints_info_to_file_ok ext w endpoints :
  disk_error w = None ->
  exists w' doc,
    _save_endpoints_info_to_file ext endpoints w = (Ok tt, w') /\
    files w'
    = files w
        ++ [("responses/" +:+
             ("ccxt_endpoints_" +:+ str_opt (exchange (self w)) +:+ "_"
                +:+ strftime ext (time_time ext (clock_reads w)) +:+ ".json"),
             doc)] /\
    stdin w' = stdin w /\
    doc_get ["metadata"; "total_endpoints"] doc
    = Some (PInt (Z.of_nat (sum_lengths endpoints))) /\
    doc_get ["metadata"; "exchange"] doc
    = Some (from_option PStr PNone (exchange (self w))) /\
    doc_get ["endpoints"] doc = Some (dict_of_lists endpoints).
Proof.
  intros Hd.
  unfold _save_endpoints_info_to_file, try_except, bind, makedirs,
    write_json, read_clock, get_exchange, gets, println, print.
  simpl. repeat (rewrite Hd; simpl). eexists _, _.
  split; [reflexivity|]. simpl. repeat split.
Qed.

(** X22.  Saving the endpoint list: when the operator answers yes on a working
    disk, [display_endpoints] writes exactly one file, under [responses/],
    named after the exchange and the time; its [endpoints] entry is the
    grouping of [get_available_endpoints], and [total_endpoints] is the
    number of public callables of the client. *)
Theorem endpoints_report_saved ext w l a r :
  exchange_instance (self w) = Some l ->
  stdin w = Reply a :: r ->
  confirm_reply a = Some true ->
  disk_error w = None ->
  exists w' doc,
    display_endpoints ext w = (Ok tt, w') /\
    files w'
    = files w
        ++ [("responses/" +:+
             ("ccxt_endpoints_" +:+ str_opt (exchange (self w)) +:+ "_"
                +:+ strftime ext (time_time ext (clock_reads w)) +:+ ".json"),
             doc)] /\
    stdin w' = r /\
    doc_get ["metadata"; "total_endpoints"] doc
    = Some (PInt (Z.of_nat (length (public_methods (deref w l))))) /\
    doc_get ["metadata"; "exchange"] doc
    = Some (from_option PStr PNone (exchange (self w))) /\
    doc_get ["endpoints"] doc
    = Some (dict_of_lists (group_endpoints (deref w l))).
Proof.
  intros Hl Hin Hb Hd.
  assert (Hi : get_instance w = (Ok (Some l), w))
    by (unfold get_instance, gets; now rewrite Hl).
  assert (Hg : get_available_endpoints w
               = (Ok (group_endpoints (deref w l)), w))
    by (unfold get_available_endpoints; now rewrite (bind_Ok _ _ _ _ _ Hi)).
  unfold display_endpoints.
  rewrite (bind_Ok _ _ _ _ _ Hg), (bind_Ok _ _ _ _ _ Hi).
  erewrite bind_Ok by reflexivity.
  erewrite bind_Ok by apply print_all_run.
  change (match group_endpoints (deref w l) with
          | [] => ret tt
          | _ :: _ =>
              println rule60 ;;;
              println "[bold]💾 Save endpoints information to JSON file?[/bold]" ;;;
              yes <- Confirm_ask ;;
              (if yes
               then _save_endpoints_info_to_file ext
                      (group_endpoints (deref w l))
               else ret tt)
          end)
    with (println rule60 ;;;
          println "[bold]💾 Save endpoints information to JSON file?[/bold]" ;;;
          yes <- Confirm_ask ;;
          (if yes
           then _save_endpoints_info_to_file ext (group_endpoints (deref w l))
           else ret tt)).
  erewrite bind_Ok by reflexivity. erewrite bind_Ok by reflexivity.
  erewrite bind_Ok by (apply (Confirm_ask_reply _ a true r); [exact Hin|exact Hb]).
  match goal with
  | |- exists w' doc, ?m ?W = _ /\ _ =>
      destruct (_save_endpoints_info_to_file_ok ext W
                  (group_endpoints (deref w l)))
        as (w' & doc & Hrun & Hf & Hs & Ht & Hx & He)
  end.
  { destruct w; exact Hd. }
  exists w', doc. split; [exact Hrun|].
  cbn [self set_console set_stdin files clock_reads stdin] in Hf, Hs, Hx.
  split; [exact Hf|]. split; [exact Hs|].
  split; [|split; [exact Hx|exact He]].
  rewrite Ht. unfold group_endpoints. fold (public_methods (deref w l)).
  now rewrite group_sizes.
Qed.

(** The demo client has three public methods. *)
Lemma endpoints_report_saved_witness :
  exists w' doc,
    display_endpoints Demo.ext (Demo.session (Demo.kraken_obj []) [Reply "y"])
    = (Ok tt, w') /\
    files w'
    = [("responses/ccxt_endpoints_kraken_20231114_221320.json", doc)] /\
    doc_get ["metadata"; "total_endpoints"] doc = Some (PInt 3).
Proof.
  destruct (endpoints_report_saved Demo.ext
              (Demo.session (Demo.kraken_obj []) [Reply "y"]) 0%nat "y" []
              eq_refl eq_refl eq_refl eq_refl)
    as (w' & doc & Hrun & Hf & _ & Ht & _).
  exists w', doc. split; [exact Hrun|]. split; [exact Hf|exact Ht].
Defined.

(** X23.  A call that returns [None] is shown as "No response data"; the
    operator is not asked whether to save it, no input is read and no file
    is written. *)
Theorem none_response_is_not_saved ext w l endpoint args kwargs obj' :
  call_method ext (calls w) (deref w l) endpoint args kwargs
  = (Returns PNone, obj') ->
  exists w',
    execute_endpoint ext l endpoint args kwargs w = (Ok tt, w') /\
    stdin w' = stdin w /\
    files w' = files w /\
    self w' = self w /\
    console w'
    = console w
        ++ [Line (nl +:+ "[bold]Executing: " +:+ call_text ext endpoint args kwargs
                    +:+ "[/bold]");
            TableOut "Request Details"
              (map (fun kv => [fst kv; py_str ext (snd kv)])
                 (make_request_info ext (exchange (self w)) endpoint args kwargs));
            Line (nl +:+ "[bold green]Response:[/bold green]");
            Line "[yellow]No response data[/yellow]"].
Proof.
  intros Hcall. destruct w as [t h i c f d cr cl]. simpl in Hcall.
  unfold execute_endpoint, try_except, bind, invoke, println, print,
    get_exchange, gets, deref in *.
  simpl in *. rewrite Hcall.
  eexists. split; [reflexivity|]. simpl.
  repeat split. now rewrite <- !app_assoc.
Qed.

(** A collaborator whose calls return [None]. *)
Lemma none_response_is_not_saved_witness :
  exists w',
    execute_endpoint silent_ext 0%nat "fetch_ticker" [PStr "BTC/USD"] []
      (Demo.session (Demo.kraken_obj []) [Reply "y"])
    = (Ok tt, w') /\
    stdin w' = [Reply "y"] /\
    files w' = [] /\
    last (console w') = Some (Line "[yellow]No response data[/yellow]").
Proof.
  destruct (none_response_is_not_saved silent_ext
              (Demo.session (Demo.kraken_obj []) [Reply "y"]) 0%nat
              "fetch_ticker" [PStr "BTC/USD"] [] (Demo.kraken_obj []) eq_refl)
    as (w' & Hrun & Hs & Hf & _ & Hc).
  exists w'. split; [exact Hrun|]. split; [exact Hs|]. split; [exact Hf|].
  rewrite Hc. reflexivity.
Defined.

(* ===================================================================== *)
(** ** Further properties: the numbers of the selector *)
(* ===================================================================== *)

Lemma pretty_N_char_digit d :
  (d < 10)%N ->
  is_digit (pretty_N_char d) = true /\
  digit_val (pretty_N_char d) = Z.of_N d.
Proof.
  intros H.
  assert (d = 0 \/ d = 1 \/ d = 2 \/ d = 3 \/ d = 4 \/ d = 5 \/ d = 6 \/
          d = 7 \/ d = 8 \/ d = 9)%N as Hd by lia.
  repeat destruct Hd as [->|Hd]; try subst d; split; reflexivity.
Qed.

(** Reading back the digits that [pretty] writes in front of [s]. *)
Lemma scan_int_pretty_N_go x :
  (0 < x)%N ->
  exists k,
    0 <= k /\
    forall s acc prev,
      scan_int acc prev (pretty_N_go x s)
      = scan_int (acc * 10 ^ k + Z.of_N x) AfterDigit s.
Proof.
  induction (N.lt_wf_0 x) as [x _ IH]. intros Hx.
  destruct (pretty_N_char_digit (x mod 10)) as [Hd Hv];
    [apply N.mod_lt; lia|].
  assert (Hdiv : (x = 10 * (x / 10) + x mod 10)%N)
    by (apply N.div_mod; lia).
  destruct (N.eq_dec (x / 10)%N 0%N) as [E|E].
  - exists 1. split; [lia|]. intros s acc prev.
    rewrite pretty_N_go_step, E, pretty_N_go_0 by exact Hx.
    cbn [scan_int]. rewrite Hd, Hv, Z.pow_1_r. f_equal.
    rewrite E in Hdiv. remember (x mod 10)%N as r. clear - Hdiv. lia.
  - destruct (IH (x / 10)%N) as (k & Hk0 & Hk);
      [apply N.div_lt; lia|now apply N.neq_0_lt_0|].
    exists (k + 1). split; [lia|]. intros s acc prev.
    rewrite pretty_N_go_step, Hk by exact Hx.
    cbn [scan_int]. rewrite Hd, Hv, Z.pow_add_r, Z.pow_1_r by lia.
    f_equal. remember (x mod 10)%N as r. remember (x / 10)%N as q.
    remember (10 ^ k) as P. clear - Hdiv. lia.
Qed.

Lemma all_digits_pretty_N_go x : forall s,
  all_digits s = true -> all_digits (pretty_N_go x s) = true.
Proof.
  induction (N.lt_wf_0 x) as [x _ IH]. intros s Hs.
  destruct (N.eq_dec x 0%N) as [->|E]; [now rewrite pretty_N_go_0|].
  rewrite pretty_N_go_step by lia. apply IH; [apply N.div_lt; lia|].
  cbn [all_digits]. rewrite Hs.
  destruct (pretty_N_char_digit (x mod 10)) as [-> _];
    [apply N.mod_lt; lia|reflexivity].
Qed.

Lemma pretty_N_go_nonempty x s : (0 < x)%N -> pretty_N_go x s <> "".
Proof.
  revert s. induction (N.lt_wf_0 x) as [x _ IH]. intros s Hx.
  rewrite pretty_N_go_step by exact Hx.
  destruct (N.eq_dec (x / 10)%N 0%N) as [E|E].
  - rewrite E, pretty_N_go_0. discriminate.
  - apply IH; [apply N.div_lt; lia|now apply N.neq_0_lt_0].
Qed.

Lemma is_digit_not_space c : is_digit c = true -> is_space c = false.
Proof.
  unfold is_digit, is_space. cbv zeta.
  intros [H1 H2]%andb_prop. apply Nat.leb_le in H1. apply Nat.leb_le in H2.
  apply orb_false_intro; [apply Nat.eqb_neq; lia|].
  apply andb_false_intro2, Nat.leb_gt. lia.
Qed.

Lemma rstrip_all_digits s : all_digits s = true -> rstrip s = s.
Proof.
  induction s as [|c s IH]; [reflexivity|]. cbn [all_digits rstrip].
  intros [Hc Hs]%andb_prop. rewrite (IH Hs).
  destruct s; [|reflexivity]. now rewrite (is_digit_not_space c Hc).
Qed.

Lemma strip_all_digits s : all_digits s = true -> strip s = s.
Proof.
  intros H. unfold strip.
  assert (Hl : lstrip s = s).
  { destruct s as [|c s]; [reflexivity|]. cbn [lstrip all_digits] in *.
    apply andb_prop in H as [Hc _]. now rewrite (is_digit_not_space c Hc). }
  rewrite Hl. now apply rstrip_all_digits.
Qed.

(** [int(str(n))] is [n], and [str(n).isdigit()] holds. *)
Lemma py_int_nat_str n :
  isdigit (nat_str n) = true /\ py_int (nat_str n) = Some (Z.of_nat n).
Proof.
  unfold nat_str, pretty, pretty_nat, pretty, pretty_N.
  destruct (decide (N.of_nat n = 0%N)) as [E|E].
  - assert (n = 0)%nat as -> by lia. split; reflexivity.
  - assert (Hx : (0 < N.of_nat n)%N) by lia.
    assert (Ha : all_digits (pretty_N_go (N.of_nat n) "") = true)
      by now apply all_digits_pretty_N_go.
    pose proof (pretty_N_go_nonempty (N.of_nat n) "" Hx) as Hne.
    destruct (scan_int_pretty_N_go _ Hx) as (k & _ & Hk).
    specialize (Hk "" 0 AtStart). cbn [scan_int] in Hk.
    split.
    + unfold isdigit. destruct (pretty_N_go (N.of_nat n) ""); congruence.
    + unfold py_int. rewrite (strip_all_digits _ Ha).
      destruct (pretty_N_go (N.of_nat n) "") as [|c r] eqn:Es; [congruence|].
      cbn [all_digits] in Ha. apply andb_prop in Ha as [Hc _].
      assert (Hm : c <> "-"%char /\ c <> "+"%char)
        by (split; intros ->; discriminate Hc).
      destruct Hm as [Hm Hp].
      replace (Z.of_nat n) with (0 * 10 ^ k + Z.of_N (N.of_nat n)) by lia.
      rewrite <- Hk.
      destruct c as [[] [] [] [] [] [] [] []];
        first [reflexivity | congruence].
Qed.

Lemma mapM_reader {A B} (f : A -> M B) (g : A -> B) (l : list A) w :
  (forall x, In x l -> f x w = (Ok (g x), w)) ->
  mapM f l w = (Ok (map g l), w).
Proof.
  induction l as [|x l IH]; intros Hf; [reflexivity|].
  cbn [mapM map]. unfold bind.
  rewrite (Hf x) by now left. rewrite IH by (intros; apply Hf; now right).
  reflexivity.
Qed.

(** X24.  The number shown is the number that selects: on every page the table
    of [select_endpoint] shows, for the methods at the positions of that
    page, the position plus one beside the name (left column first, then
    right column), and typing the number shown beside a method makes the
    selector return exactly that method. *)
Theorem shown_number_selects_method all_methods current_page w :
  exists glyph,
    page_rows (current_page * 50)
      (take 50 (drop (current_page * 50) all_methods)) w
    = (Ok (map (fun i =>
                  cell glyph all_methods (current_page * 50 + i)
                    ++ (if (i <? length (take 50 (drop (current_page * 50)
                                                  all_methods))
                                 - (length (take 50 (drop (current_page * 50)
                                                       all_methods)) + 1) / 2)%nat
                        then cell glyph all_methods
                               (current_page * 50
                                  + (length (take 50 (drop (current_page * 50)
                                                        all_methods)) + 1) / 2
                                  + i)
                        else [""; ""; ""]))
             (seq 0 ((length (take 50 (drop (current_page * 50) all_methods))
                        + 1) / 2))),
       w) /\
    (forall k,
        (k < length all_methods)%nat ->
        pick_by_number all_methods current_page (nat_str (k + 1)) w
        = (Ok (Return (Some (nth k all_methods ""))), w)).
Proof.
  exists (fun m => match exchange_instance (self w) with
                   | None => ""
                   | Some l => support_status (default ∅ (has (deref w l))) m
                   end).
  split.
  - set (s := (current_page * 50)%nat).
    set (cur := take 50 (drop s all_methods)).
    assert (Hlen : (length cur <= 50)%nat)
      by (unfold cur; rewrite length_take; lia).
    assert (Hmid : ((length cur + 1) / 2 <= length cur)%nat).
    { destruct (length cur) as [|n]; [reflexivity|].
      apply Nat.Div0.div_le_upper_bound. lia. }
    assert (Hst : forall m,
               _get_endpoint_support_status m w
               = (Ok match exchange_instance (self w) with
                     | None => ""
                     | Some l =>
                         support_status (default ∅ (has (deref w l))) m
                     end, w)).
    { intros m. unfold _get_endpoint_support_status, bind, get_instance,
        get_object, gets, ret.
      destruct (exchange_instance (self w)); reflexivity. }
    assert (Hnth : forall j, (j < length cur)%nat ->
               nth j cur "" = nth (s + j) all_methods "").
    { intros j Hj. unfold cur. rewrite nth_firstn, nth_skipn.
      destruct (Nat.ltb_spec j 50); [reflexivity|lia]. }
    unfold page_rows.
    rewrite length_take, Nat.min_l by exact Hmid.
    apply mapM_reader. intros i Hi. apply in_seq in Hi.
    rewrite (bind_Ok _ _ _ _ _ (Hst _)).
    rewrite length_drop.
    assert (Hl : nth i (take ((length cur + 1) / 2) cur) ""
                 = nth (s + i) all_methods "").
    { rewrite nth_firstn.
      destruct (Nat.ltb_spec i ((length cur + 1) / 2)); [|lia].
      apply Hnth. lia. }
    rewrite Hl.
    destruct (Nat.ltb_spec i (length cur - (length cur + 1) / 2)) as [Hr|Hr].
    + rewrite (bind_Ok _ _ _ _ _ (Hst _)).
      rewrite nth_skipn, Hnth by lia.
      unfold ret, cell. cbn [app].
      now rewrite !Nat.add_assoc.
    + reflexivity.
  - intros k Hk. unfold pick_by_number.
    destruct (py_int_nat_str (k + 1)) as [Hd Hp]. rewrite Hd, Hp.
    cbn [default from_option id].
    replace (Z.of_nat (k + 1) - 1) with (Z.of_nat k) by lia.
    rewrite Nat2Z.id.
    destruct (Z.leb_spec 0 (Z.of_nat k)); [|lia].
    destruct (Z.ltb_spec (Z.of_nat k) (Z.of_nat (length all_methods)));
      [reflexivity|lia].
Qed.
